(** * llm-workings: the XOR training engine

    A shallow embedding of the TypeScript sources

    - [network/functions.ts]  (logistic, rectified-linear, losses),
    - [network/Network.ts]    (class [Network]: constructor, [forward],
                               [backward], [step], [getState], [setState]),
    - [hooks/useTraining.ts]  ([seededRandom], [generateNoisyData] and the
                               state updaters [trainStep], [goToStep], ...),
    - [App.tsx] and the tests ([liveAccuracy], [liveLoss], the handlers
                               [onPrev] and [onNext], [computeAccuracy]),

    followed by the properties of the engine that the specification states
    and by further properties of the code.

    Conventions of the embedding.

    - A JavaScript [number] is an IEEE-754 binary64 value: Rocq's primitive
      [float], whose [+ - * /] and [sqrt] are the correctly rounded ones
      that JavaScript uses.  [Math.exp], [Math.log] and [Math.cos] are
      implementation-approximated in ECMAScript, so they are the fields of
      the class [MathLib] and every statement holds for every
      implementation; [ReferenceMath] is one implementation, used where a
      concrete value has to be evaluated.
    - The 32-bit integer operators [& >> << >>>] work on [Z] with the
      wrap-around of [ToInt32]/[ToUint32] written out.
    - An array is a [list]; reading past its end gives [undefined], which
      arithmetic turns into [NaN], and reading a property of [undefined]
      throws a [TypeError].
    - A method of the mutable object [this] is a function from the object
      to a completion and the object afterwards: what was written before an
      exception stays written. *)

From Stdlib Require Import ZArith Bool PrimFloat FloatOps SpecFloat FloatAxioms Uint63.
From stdpp Require Import base list.

Set Warnings "-inexact-float".
Set Default Proof Using "Type".

(* ===================================================================== *)
(** * JavaScript values *)
(* ===================================================================== *)

Module JS.

Abbreviation number := float.
Abbreviation vector := (list float).
Abbreviation matrix := (list (list float)).

(** [ToNumber(undefined)]. *)
Definition undefined_num : number := nan.

Inductive Error := TypeError.

(** How a call ends: with a value, or with a thrown exception. *)
Inductive Completion (A : Type) :=
| Normal (v : A)
| Throw (e : Error).
Arguments Normal {A} v.
Arguments Throw {A} e.

Definition threw {A} (c : Completion A) : bool :=
  match c with Normal _ => false | Throw _ => true end.

(** The implementation-approximated part of the [Math] object. *)
Class MathLib := {
  Math_exp : number -> number;
  Math_log : number -> number;
  Math_cos : number -> number
}.

Definition Math_PI : number := 3.141592653589793%float.
Definition Math_sqrt (x : number) : number := PrimFloat.sqrt x.

(** [Math.max(a, b)] and [Math.min(a, b)]: [NaN] is contagious and
    [+0] is larger than [-0]. *)
Definition Math_max (a b : number) : number :=
  if is_nan a || is_nan b then nan
  else if (a <? b)%float then b
  else if (b <? a)%float then a
  else if get_sign a then b else a.

Definition Math_min (a b : number) : number :=
  if is_nan a || is_nan b then nan
  else if (a <? b)%float then a
  else if (b <? a)%float then b
  else if get_sign a then a else b.

(** The integer part of a number, toward zero; [0] for [NaN] and the
    infinities, as in [ToInt32] and [ToUint32]. *)
Definition truncate (x : number) : Z :=
  match Prim2SF x with
  | S754_finite s m e =>
      let a := if (0 <=? e)%Z then (Z.pos m * 2 ^ e)%Z
               else (Z.pos m / 2 ^ (- e))%Z in
      if s then (- a)%Z else a
  | _ => 0%Z
  end.

Definition ToUint32 (z : Z) : Z := (z mod 2 ^ 32)%Z.
Definition ToInt32 (z : Z) : Z := ((z + 2 ^ 31) mod 2 ^ 32 - 2 ^ 31)%Z.

(** An integer below [2^53] in absolute value as a number (exact). *)
Definition of_Z (z : Z) : number :=
  if (z <? 0)%Z then (- of_uint63 (Uint63.of_Z (- z)))%float
  else of_uint63 (Uint63.of_Z z).

Definition of_nat (n : nat) : number := of_Z (Z.of_nat n).

(** [l.map((a, i) => f(a, other[i]))]: the callback reads [other] at the
    index of the element, [undefined] past its end. *)
Fixpoint map_with (f : number -> number -> number) (l other : vector) : vector :=
  match l with
  | [] => []
  | a :: l' => f a (hd undefined_num other) :: map_with f l' (tl other)
  end.

End JS.
Import JS.

(* ===================================================================== *)
(** * The seeded generator *)
(* ===================================================================== *)

(** The two-lane multiply-with-carry generator, written twice in the
    sources with the same text: in the constructor of [Network] and in
    [seededRandom] of [useTraining.ts]. *)
Module Mwc.

Record t := mk { m_w : Z; m_z : Z }.

(** [let m_w = (seed * 1103515245 + 12345) >>> 0;
     let m_z = (seed * 134775813 + 1) >>> 0;
     if (m_w === 0) m_w = 1; if (m_z === 0) m_z = 1;]
    The product and the sum are binary64 operations. *)
Definition seeded (seed : number) : t :=
  let m_w := ToUint32 (truncate (seed * 1103515245 + 12345)%float) in
  let m_z := ToUint32 (truncate (seed * 134775813 + 1)%float) in
  {| m_w := if (m_w =? 0)%Z then 1%Z else m_w;
     m_z := if (m_z =? 0)%Z then 1%Z else m_z |}.

(** The integer [result] of one call of [random]:
    [m_z = (36969 * (m_z & 65535) + (m_z >> 16)) & mask;
     m_w = (18000 * (m_w & 65535) + (m_w >> 16)) & mask;
     const result = ((m_z << 16) + (m_w & 65535)) >>> 0;]
    with [mask = 0xffffffff], so [& mask] is [ToInt32]. All the
    intermediate integers are below [2^53]: the arithmetic is exact. *)
Definition lane (a : Z) (m : Z) : Z :=
  ToInt32 (a * Z.land (ToInt32 m) 65535 + Z.shiftr (ToInt32 m) 16).

Definition advance (s : t) : t :=
  {| m_w := lane 18000 (m_w s); m_z := lane 36969 (m_z s) |}.

Definition result (s : t) : Z :=
  ToUint32 (ToInt32 (Z.shiftl (ToInt32 (m_z s)) 16) + Z.land (ToInt32 (m_w s)) 65535).

(** [return result / 4294967296;] *)
Definition next (s : t) : number * t :=
  let s' := advance s in ((of_Z (result s') / 4294967296)%float, s').

(** [for (let i = 0; i < 10; i++) random();] *)
Definition warm_up (s : t) : t := Nat.iter 10 advance s.

(** The closure returned for a seed: the state after the warm-up. *)
Definition seededRandom (seed : number) : t := warm_up (seeded seed).

End Mwc.

(* ===================================================================== *)
(** * A reference implementation of the [Math] functions *)
(* ===================================================================== *)

(** One admissible [MathLib], built from binary64 arithmetic only, with the
    values ECMAScript fixes at the special arguments ([exp(-Infinity) = +0],
    [log(+0) = -Infinity], ...). It is accurate to about twelve digits on
    the arguments the program passes; it serves to evaluate the engine on
    concrete inputs, and no general statement depends on it. *)
Module ReferenceMath.

(** [1 + r/k * (1 + r/(k+1) * (...))], [n] factors deep. *)
Fixpoint exp_tail (n : nat) (k r : number) : number :=
  match n with
  | O => 1
  | S n' => 1 + r / k * exp_tail n' (k + 1) r
  end%float.

Definition exp (x : number) : number :=
  if is_nan x then nan
  else if (x =? infinity)%float then infinity
  else if (x =? neg_infinity)%float then 0%float
  else Nat.iter 10 (fun y => y * y)%float (exp_tail 18 1 (x / 1024))%float.

(** [1/k + t2 * (1/(k+2) + t2 * (...))]: the series of [atanh t / t]. *)
Fixpoint atanh_tail (n : nat) (k t2 : number) : number :=
  match n with
  | O => 0
  | S n' => 1 / k + t2 * atanh_tail n' (k + 2) t2
  end%float.

Definition ln2 : number := 0.6931471805599453%float.

Definition log (x : number) : number :=
  if is_nan x || (x <? 0)%float then nan
  else if (x =? 0)%float then neg_infinity
  else if (x =? infinity)%float then infinity
  else if (x =? 1)%float then 0%float
  else
    let (m, e) := frshiftexp x in
    let t := ((m - 1) / (m + 1))%float in
    ((of_uint63 e - 2101) * ln2 + 2 * (t * atanh_tail 24 1 (t * t)))%float.

(** [1 - x2/(k(k+1)) * (1 - x2/((k+2)(k+3)) * (...))]. *)
Fixpoint cos_tail (n : nat) (k x2 : number) : number :=
  match n with
  | O => 1
  | S n' => 1 - x2 / (k * (k + 1)) * cos_tail n' (k + 2) x2
  end%float.

Definition cos (x : number) : number :=
  if is_nan x || is_infinity x then nan
  else
    let y := (x / 32)%float in
    Nat.iter 5 (fun c => 2 * c * c - 1)%float (cos_tail 12 1 (y * y))%float.

Definition lib : MathLib :=
  {| Math_exp := exp; Math_log := log; Math_cos := cos |}.

End ReferenceMath.

(* ===================================================================== *)
(** * network/functions.ts *)
(* ===================================================================== *)

Module Functions.
Section WithMath.
Context `{MathLib}.

(** [sigmoid(x: number[])]: [x.map(val => 1 / (1 + Math.exp(-val)))]. *)
Definition sigmoid (x : vector) : vector :=
  (fun val => 1 / (1 + Math_exp (- val)))%float <$> x.

(** [relu(x: number[])]: [x.map(val => Math.max(0, val))]. *)
Definition relu (x : vector) : vector :=
  (fun val => Math_max 0 val) <$> x.

Definition eps : number := 1e-7%float.

(** The loop of [binaryCrossEntropy]:
    [const p = Math.max(eps, Math.min(1 - eps, predicted[i]));
     sum += -(target[i] * Math.log(p) + (1 - target[i]) * Math.log(1 - p));] *)
Fixpoint bce_sum (predicted target : vector) (sum : number) : number :=
  match predicted with
  | [] => sum
  | pr :: predicted' =>
      let p := Math_max eps (Math_min (1 - eps) pr) in
      let y := hd undefined_num target in
      bce_sum predicted' (tl target)
        (sum + - (y * Math_log p + (1 - y) * Math_log (1 - p)))%float
  end.

Definition binaryCrossEntropy (predicted target : vector) : number :=
  (bce_sum predicted target 0 / of_nat (length predicted))%float.

(** [for (const p of predicted) sum += 4 * p * (1 - p);
     return sum / predicted.length;] *)
Definition confidencePenalty (predicted : vector) : number :=
  (foldl (fun sum p => sum + 4 * p * (1 - p)) 0 predicted
     / of_nat (length predicted))%float.

(** [bceWithConfidencePenalty(predicted, target, penaltyStrength = 1.0)]:
    [binaryCrossEntropy(predicted, target)
     + penaltyStrength * confidencePenalty(predicted)]. *)
Definition bceWithConfidencePenalty (predicted target : vector)
    (penaltyStrength : option number) : number :=
  let penaltyStrength := default 1%float penaltyStrength in
  (binaryCrossEntropy predicted target
   + penaltyStrength * confidencePenalty predicted)%float.

Definition sigmoidDerivative (output : number) : number :=
  (output * (1 - output))%float.

Definition reluDerivative (preActivation : number) : number :=
  if (0 <? preActivation)%float then 1%float else 0%float.

End WithMath.
End Functions.

(* ===================================================================== *)
(** * Loops over a mutable object *)
(* ===================================================================== *)

(** [for (const i of items) body(i)] on a state [S]: the loop stops at the
    first exception, and the state keeps what was written until then. *)
Fixpoint for_each {S I : Type} (body : I -> S -> Completion unit * S)
    (items : list I) (s : S) : Completion unit * S :=
  match items with
  | [] => (Normal tt, s)
  | i :: items' =>
      match body i s with
      | (Normal _, s') => for_each body items' s'
      | (Throw e, s') => (Throw e, s')
      end
  end.

(** [for (let j = 0; j < vals.length; j++) z[j] += vals[j]]: an index at
    the end of [z] reads [undefined] and the assignment appends. *)
Fixpoint add_into (vals z : vector) : vector :=
  match vals with
  | [] => z
  | v :: vals' =>
      match z with
      | zj :: z' => (zj + v)%float :: add_into vals' z'
      | [] => (undefined_num + v)%float :: add_into vals' []
      end
  end.

(** [for (let k = 0; k < vals.length; k++) row[k] = vals[k]]: the
    assignment past the end of [row] appends. *)
Definition set_prefix (vals row : vector) : vector :=
  vals ++ drop (length vals) row.

(** [a[i] = v] on an array that may have holes ([None]): an index past the
    end extends the array and leaves holes before it. *)
Definition js_set {A : Type} (i : nat) (v : A) (a : list (option A)) : list (option A) :=
  if i <? length a then <[i := Some v]> a
  else a ++ replicate (i - length a) None ++ [Some v].

(** [a[k]] for a number [k] that holds an integer. *)
Definition js_index {A : Type} (a : list A) (k : Z) : option A :=
  if (k <? 0)%Z then None else a !! Z.to_nat k.

(** [[...a]]: a new array with the elements of [a]. *)
Definition spread {A : Type} (a : list A) : list A := (fun v => v) <$> a.

(* ===================================================================== *)
(** * network/Network.ts *)
(* ===================================================================== *)

(** [interface NetworkState]. [biasGrads] is the one array the class
    assigns by index at its outer level ([this.biasGrads[i] = ...]), so it
    is the one array that can have holes. *)
Module NetworkState.
Record t := mk {
  weights : list matrix;
  biases : list vector;
  preActivations : list vector;
  activations : list vector;
  weightGrads : list matrix;
  biasGrads : list (option vector)
}.
End NetworkState.

Module Network.

(** The fields of [class Network]. A layer width is an array length. *)
Record t := mk {
  layerSizes : list nat;
  weights : list matrix;
  biases : list vector;
  preActivations : list vector;
  activations : list vector;
  weightGrads : list matrix;
  biasGrads : list (option vector)
}.

Definition set_weights (ws : list matrix) (net : t) : t :=
  mk (layerSizes net) ws (biases net) (preActivations net) (activations net)
     (weightGrads net) (biasGrads net).
Definition set_biases (bs : list vector) (net : t) : t :=
  mk (layerSizes net) (weights net) bs (preActivations net) (activations net)
     (weightGrads net) (biasGrads net).
Definition set_preActivations (pre : list vector) (net : t) : t :=
  mk (layerSizes net) (weights net) (biases net) pre (activations net)
     (weightGrads net) (biasGrads net).
Definition set_activations (acts : list vector) (net : t) : t :=
  mk (layerSizes net) (weights net) (biases net) (preActivations net) acts
     (weightGrads net) (biasGrads net).
Definition set_weightGrads (gw : list matrix) (net : t) : t :=
  mk (layerSizes net) (weights net) (biases net) (preActivations net)
     (activations net) gw (biasGrads net).
Definition set_biasGrads (gb : list (option vector)) (net : t) : t :=
  mk (layerSizes net) (weights net) (biases net) (preActivations net)
     (activations net) (weightGrads net) gb.

(** [Math.random] as the sequence of the values its calls return. *)
Definition entropy := nat -> number.
Definition Math_random (s : entropy) : number * entropy :=
  (s O, fun n => s (S n)).

Section WithMath.
Context `{MathLib}.

(** ** The constructor *)

(** [const z = Math.sqrt(-2 * Math.log(u1)) * Math.cos(2 * Math.PI * u2);] *)
Definition box_muller (u1 u2 : number) : number :=
  (Math_sqrt (-2 * Math_log u1) * Math_cos (2 * Math_PI * u2))%float.

Section Generator.
Context {G : Type} (random : G -> number * G).

(** [for (let k = 0; k < outputSize; k++) {
       const u1 = random(); const u2 = random(); ...
       row.push(z * scale); }] *)
Fixpoint init_row (outputSize : nat) (scale : number) (g : G) : vector * G :=
  match outputSize with
  | O => ([], g)
  | S n =>
      let (u1, g1) := random g in
      let (u2, g2) := random g1 in
      let z := box_muller u1 u2 in
      let (row, g') := init_row n scale g2 in
      ((z * scale)%float :: row, g')
  end.

(** [for (let j = 0; j < inputSize; j++) { ...; w.push(row); }] *)
Fixpoint init_matrix (inputSize outputSize : nat) (scale : number) (g : G)
    : matrix * G :=
  match inputSize with
  | O => ([], g)
  | S n =>
      let (row, g1) := init_row outputSize scale g in
      let (w, g') := init_matrix n outputSize scale g1 in
      (row :: w, g')
  end.

(** [for (let i = 0; i < layerSizes.length - 1; i++)] with
    [inputSize = layerSizes[i]], [outputSize = layerSizes[i + 1]],
    [scale = Math.sqrt(2.0 / fanIn)] and
    [b = new Array(outputSize).fill(0)]. *)
Fixpoint init_layers (sizes : list nat) (g : G)
    : list matrix * list vector * G :=
  match sizes with
  | [] => ([], [], g)
  | inputSize :: rest =>
      match rest with
      | [] => ([], [], g)
      | outputSize :: _ =>
          let scale := Math_sqrt (2 / of_nat inputSize) in
          let (w, g1) := init_matrix inputSize outputSize scale g in
          let '(ws, bs, g') := init_layers rest g1 in
          (w :: ws, replicate outputSize 0%float :: bs, g')
      end
  end.
End Generator.

(** [new Network(layerSizes, seed?)]: the seeded generator when a seed is
    given, [Math.random] otherwise. The four fields with an initializer
    start empty. *)
Definition new (layerSizes : list nat) (seed : option number) (rnd : entropy) : t :=
  let '(ws, bs, _) :=
    match seed with
    | Some s =>
        let '(ws, bs, _) := init_layers Mwc.next layerSizes (Mwc.seededRandom s) in
        (ws, bs, tt)
    | None =>
        let '(ws, bs, _) := init_layers Math_random layerSizes rnd in
        (ws, bs, tt)
    end in
  mk layerSizes ws bs [] [] [] [].

(** ** [forward] *)

(** [for (let i = 0; i < activation.length; i++)
       for (let j = 0; j < w[i].length; j++)
         z[j] += activation[i] * w[i][j];]
    [w[i].length] throws when [w] has no row [i]. *)
Fixpoint accumulate (activation : vector) (w : matrix) (z : vector)
    : Completion vector :=
  match activation with
  | [] => Normal z
  | a :: activation' =>
      match w with
      | [] => Throw TypeError
      | row :: w' =>
          accumulate activation' w' (add_into ((fun wij => a * wij)%float <$> row) z)
      end
  end.

(** The linear part of one layer: [z = new Array(w[0].length).fill(0)],
    the products, then [for (j < b.length) z[j] += b[j]]. Nothing of
    [this] is written in between. *)
Definition linear (w : matrix) (b : option vector) (activation : vector)
    : Completion vector :=
  match w with
  | [] => Throw TypeError
  | w0 :: _ =>
      match accumulate activation w (replicate (length w0) 0%float) with
      | Throw e => Throw e
      | Normal z =>
          match b with
          | None => Throw TypeError
          | Some b => Normal (add_into b z)
          end
      end
  end.

(** One iteration of the loop over the layers: [this.preActivations.push(z)],
    the activation ([z] itself for the output layer, [Math.max(0, val)]
    elementwise otherwise), [this.activations.push(activation)]. The
    local [activation] is threaded with the object. *)
Definition forward_layer (layerIdx : nat) (st : vector * t)
    : Completion unit * (vector * t) :=
  let (activation, net) := st in
  match weights net !! layerIdx with
  | None => (Throw TypeError, st)
  | Some w =>
      match linear w (biases net !! layerIdx) activation with
      | Throw e => (Throw e, st)
      | Normal z =>
          let isOutputLayer := layerIdx =? length (weights net) - 1 in
          let activation' :=
            if isOutputLayer then z else (fun val => Math_max 0 val) <$> z in
          (Normal tt,
           (activation',
            set_activations (activations net ++ [activation'])
              (set_preActivations (preActivations net ++ [z]) net)))
      end
  end.

(** [forward(x)]: [this.activations = [x]; this.preActivations = [];
    let activation = [...x];], the loop, [return activation]. *)
Definition forward (net : t) (x : vector) : Completion vector * t :=
  let net0 := set_preActivations [] (set_activations [x] net) in
  match for_each forward_layer (seq 0 (length (weights net))) (spread x, net0) with
  | (Normal _, (activation, net')) => (Normal activation, net')
  | (Throw e, (_, net')) => (Throw e, net')
  end.

(** ** [backward] *)

(** [for (let j = 0; j < activationIn.length; j++)
       for (let k = 0; k < delta.length; k++)
         g[j][k] = activationIn[j] * delta[k];]
    on [g = this.weightGrads[i]]. The assignment throws when [g] has no
    row [j]; the rows before it are written by then. With an empty
    [delta] no row is touched. *)
Fixpoint outer_into (activationIn delta : vector) (g : matrix)
    : Completion unit * matrix :=
  match activationIn with
  | [] => (Normal tt, g)
  | a :: activationIn' =>
      match delta with
      | [] => (Normal tt, g)
      | _ :: _ =>
          match g with
          | [] => (Throw TypeError, [])
          | row :: g' =>
              let (c, g'') := outer_into activationIn' delta g' in
              (c, set_prefix ((fun d => a * d)%float <$> delta) row :: g'')
          end
      end
  end.

(** [for (let k = 0; k < delta.length; k++) acc += delta[k] * row[k]]
    for one entry [acc = newDelta[j]] and [row = this.weights[i][j]]. *)
Fixpoint dot_into (delta row : vector) (acc : number) : number :=
  match delta with
  | [] => acc
  | d :: delta' =>
      dot_into delta' (tl row) (acc + d * hd undefined_num row)%float
  end.

(** [const newDelta = new Array(activationIn.length).fill(0);
     for (j < activationIn.length) for (k < delta.length)
       newDelta[j] += delta[k] * this.weights[i][j][k];]
    Reading [w[j][k]] throws when [w] has no row [j]. *)
Fixpoint back_product (activationIn : vector) (w : matrix) (delta : vector)
    : Completion vector :=
  match activationIn with
  | [] => Normal []
  | _ :: activationIn' =>
      match delta with
      | [] => Normal (replicate (length activationIn) 0%float)
      | _ :: _ =>
          match w with
          | [] => Throw TypeError
          | row :: w' =>
              match back_product activationIn' w' delta with
              | Throw e => Throw e
              | Normal rest => Normal (dot_into delta row 0%float :: rest)
              end
          end
      end
  end.

(** The body of [if (i > 0)]: [newDelta], then
    [reluGrad = this.preActivations[i - 1].map(z => z > 0 ? 1 : 0)] and
    [delta = newDelta.map((d, j) => d * reluGrad[j])]. An absent
    [this.weights[i]] throws where an empty one does: at [w[j][k]]. *)
Definition back_delta (i : nat) (activationIn delta : vector) (net : t)
    : Completion vector :=
  match back_product activationIn (default [] (weights net !! i)) delta with
  | Throw e => Throw e
  | Normal newDelta =>
      match preActivations net !! (i - 1) with
      | None => Throw TypeError
      | Some pre =>
          let reluGrad := (fun z => if (0 <? z)%float then 1 else 0)%float <$> pre in
          Normal (map_with (fun d r => d * r)%float newDelta reluGrad)
      end
  end.

(** One iteration of [for (let i = this.weights.length - 1; i >= 0; i--)];
    the local [delta] is threaded with the object. [activationIn.length]
    throws when [this.activations] has no entry [i]; an absent
    [this.weightGrads[i]] throws where an empty one does. *)
Definition backward_layer (i : nat) (st : vector * t)
    : Completion unit * (vector * t) :=
  let (delta, net) := st in
  match activations net !! i with
  | None => (Throw TypeError, st)
  | Some activationIn =>
      let (c, g') :=
        outer_into activationIn delta (default [] (weightGrads net !! i)) in
      let net1 := set_weightGrads (<[i := g']> (weightGrads net)) net in
      match c with
      | Throw e => (Throw e, (delta, net1))
      | Normal _ =>
          let net2 := set_biasGrads (js_set i (spread delta) (biasGrads net1)) net1 in
          if 0 <? i then
            match back_delta i activationIn delta net2 with
            | Throw e => (Throw e, (delta, net2))
            | Normal delta' => (Normal tt, (delta', net2))
            end
          else (Normal tt, (delta, net2))
      end
  end.

(** The error signal of the output layer, from the logistic outputs and
    the targets:
    [const p = output.map(val => Math.max(eps, Math.min(1 - eps, val)));
     let delta = target.map((y, i) => {
       let grad = (-y / p[i]) + ((1 - y) / (1 - p[i]));
       if (confidencePenalty > 0) grad += confidencePenalty * 4 * (1 - 2 * p[i]);
       return grad; });
     const dpDz = output.map(val => val * (1 - val));
     delta = delta.map((d, i) => d * dpDz[i]);] *)
Definition output_delta (output target : vector) (confidencePenalty : number)
    : vector :=
  let eps := 1e-7%float in
  let p := (fun val => Math_max eps (Math_min (1 - eps) val)) <$> output in
  let delta :=
    map_with (fun y pi =>
                let grad := (- y / pi + (1 - y) / (1 - pi))%float in
                if (0 <? confidencePenalty)%float
                then (grad + confidencePenalty * 4 * (1 - 2 * pi))%float
                else grad)
             target p in
  let dpDz := (fun val => val * (1 - val))%float <$> output in
  map_with (fun d dz => d * dz)%float delta dpDz.

(** [backward(_x, target, confidencePenalty)]. The output is read from
    [this.activations[this.activations.length - 1]] ([[undefined]] when
    there is none); the gradients are reset to zeros of the shapes of the
    parameters before the loop. *)
Definition backward (net : t) (_x target : vector) (confidencePenalty : number)
    : Completion unit * t :=
  let outputArray := default [undefined_num] (last (activations net)) in
  let output := Functions.sigmoid outputArray in
  let net0 :=
    set_biasGrads ((fun b : vector => Some (replicate (length b) 0%float)) <$> biases net)
      (set_weightGrads
         ((fun w : matrix => (fun row : vector => replicate (length row) 0%float) <$> w)
            <$> weights net)
         net) in
  let delta := output_delta output target confidencePenalty in
  match for_each backward_layer (rev (seq 0 (length (weights net)))) (delta, net0) with
  | (c, (_, net')) => (c, net')
  end.

(** ** [step] *)

(** [for (j < w.length) for (k < w[j].length)
       w[j][k] -= learningRate * g[j][k];]
    on [w = this.weights[i]] and [g = this.weightGrads[i]]. Reading
    [g[j][k]] throws when [g] has no row [j]; with an empty row [w[j]]
    nothing is read. *)
Fixpoint step_matrix (learningRate : number) (w g : matrix)
    : Completion unit * matrix :=
  match w with
  | [] => (Normal tt, [])
  | row :: w' =>
      match row with
      | [] =>
          let (c, w'') := step_matrix learningRate w' (tl g) in
          (c, [] :: w'')
      | _ :: _ =>
          match g with
          | [] => (Throw TypeError, w)
          | grow :: g' =>
              let (c, w'') := step_matrix learningRate w' g' in
              (c, map_with (fun wjk gjk => wjk - learningRate * gjk)%float row grow
                    :: w'')
          end
      end
  end.

(** One iteration of [for (let i = 0; i < this.weights.length; i++)]:
    the weights of connection [i], then
    [for (j < this.biases[i].length)
       this.biases[i][j] -= learningRate * this.biasGrads[i][j];].
    An absent [this.weightGrads[i]] throws where an empty one does;
    [this.biases[i].length] throws when there is no [this.biases[i]],
    and [this.biasGrads[i][j]] when [this.biasGrads[i]] is absent or a
    hole. *)
Definition step_layer (learningRate : number) (i : nat) (net : t)
    : Completion unit * t :=
  match weights net !! i with
  | None => (Throw TypeError, net)
  | Some w =>
      let (c, w') :=
        step_matrix learningRate w (default [] (weightGrads net !! i)) in
      let net1 := set_weights (<[i := w']> (weights net)) net in
      match c with
      | Throw e => (Throw e, net1)
      | Normal _ =>
          match biases net1 !! i with
          | None => (Throw TypeError, net1)
          | Some [] => (Normal tt, net1)
          | Some ((_ :: _) as b) =>
              match biasGrads net1 !! i with
              | Some (Some gb) =>
                  (Normal tt,
                   set_biases
                     (<[i := map_with (fun bj gj => bj - learningRate * gj)%float b gb]>
                        (biases net1))
                     net1)
              | _ => (Throw TypeError, net1)
              end
          end
      end
  end.

Definition step (net : t) (learningRate : number) : Completion unit * t :=
  for_each (step_layer learningRate) (seq 0 (length (weights net))) net.

(** ** [getState] and [setState] *)

(** [a.map(w => w.map(row => [...row]))], [a.map(b => [...b])]; [map]
    skips the holes of an array and keeps them. *)
Definition copy_matrices (a : list matrix) : list matrix :=
  (fun w : matrix => (fun row : vector => spread row) <$> w) <$> a.
Definition copy_vectors (a : list vector) : list vector :=
  (fun b : vector => spread b) <$> a.
Definition copy_sparse (a : list (option vector)) : list (option vector) :=
  (fun b : option vector => (fun v : vector => spread v) <$> b) <$> a.

Definition getState (net : t) : NetworkState.t :=
  {| NetworkState.weights := copy_matrices (weights net);
     NetworkState.biases := copy_vectors (biases net);
     NetworkState.preActivations := copy_vectors (preActivations net);
     NetworkState.activations := copy_vectors (activations net);
     NetworkState.weightGrads := copy_matrices (weightGrads net);
     NetworkState.biasGrads := copy_sparse (biasGrads net) |}.

Definition setState (net : t) (state : NetworkState.t) : t :=
  {| layerSizes := layerSizes net;
     weights := copy_matrices (NetworkState.weights state);
     biases := copy_vectors (NetworkState.biases state);
     preActivations := copy_vectors (NetworkState.preActivations state);
     activations := copy_vectors (NetworkState.activations state);
     weightGrads := copy_matrices (NetworkState.weightGrads state);
     biasGrads := copy_sparse (NetworkState.biasGrads state) |}.

End WithMath.
End Network.

(* ===================================================================== *)
(** * hooks/useTraining.ts *)
(* ===================================================================== *)

Module Training.

(** [const CLEAN_XOR = [{ input: [0, 0], target: [0] }, ...]]. *)
Definition CLEAN_XOR : list (vector * vector) :=
  [ ([0; 0], [0]); ([0; 1], [1]); ([1; 0], [1]); ([1; 1], [0]) ]%float.

Record DataPoint := mkDataPoint {
  input : vector;
  target : vector;
  trueTarget : vector;
  isNoisy : bool
}.

(** The loop of [generateNoisyData] on the generator [rand]:
    [const x1 = rand(); const x2 = rand();
     const trueLabel = (x1 >= 0.5 ? 1 : 0) ^ (x2 >= 0.5 ? 1 : 0);
     const isNoisy = rand() < noiseLevel;
     const label = isNoisy ? 1 - trueLabel : trueLabel;
     data.push({ input: [x1, x2], target: [label],
                 trueTarget: [trueLabel], isNoisy });] *)
Fixpoint generate_loop (numSamples : nat) (noiseLevel : number) (rand : Mwc.t)
    : list DataPoint :=
  match numSamples with
  | O => []
  | S n =>
      let (x1, rand1) := Mwc.next rand in
      let (x2, rand2) := Mwc.next rand1 in
      let trueLabel :=
        Z.lxor (if (0.5 <=? x1)%float then 1 else 0)
               (if (0.5 <=? x2)%float then 1 else 0) in
      let (u, rand3) := Mwc.next rand2 in
      let isNoisy := (u <? noiseLevel)%float in
      let label := if isNoisy then (1 - trueLabel)%Z else trueLabel in
      {| input := [x1; x2]; target := [of_Z label];
         trueTarget := [of_Z trueLabel]; isNoisy := isNoisy |}
        :: generate_loop n noiseLevel rand3
  end.

Definition generateNoisyData (numSamples : nat) (noiseLevel seed : number)
    : list DataPoint :=
  generate_loop numSamples noiseLevel (Mwc.seededRandom seed).

Record TrainingStep := mkStep {
  step : Z;
  state : NetworkState.t;
  loss : number;
  cleanLoss : number;
  accuracy : number;
  currentInputIdx : Z
}.

Record TrainingState := mkTraining {
  network : Network.t;
  steps : list TrainingStep;
  currentStep : Z;
  isPlaying : bool;
  selectedInputIdx : Z
}.

(** The values the callbacks of one render close over: the argument of
    the hook and its [useState] cells. *)
Record Hook := mkHook {
  initialLayerSizes : list nat;
  learningRate : number;
  noiseLevel : number;
  numSamples : nat;
  dataSeed : number;
  confidencePenalty : number
}.

(** [useMemo(() => generateNoisyData(numSamples, noiseLevel, dataSeed))]. *)
Definition trainingData (h : Hook) : list DataPoint :=
  generateNoisyData (numSamples h) (noiseLevel h) (dataSeed h).

Section WithMath.
Context `{MathLib}.

(** The body of the loop of [computeTrainLoss]. *)
Definition train_loss_item (confPenalty : number) (d : DataPoint)
    (st : number * Network.t) : Completion unit * (number * Network.t) :=
  let (totalLoss, net) := st in
  match Network.forward net (input d) with
  | (Throw e, net') => (Throw e, (totalLoss, net'))
  | (Normal output, net') =>
      let sigmoidOutput := Functions.sigmoid output in
      let loss := Functions.binaryCrossEntropy sigmoidOutput (target d) in
      let loss :=
        if (0 <? confPenalty)%float
        then (loss + confPenalty * Functions.confidencePenalty sigmoidOutput)%float
        else loss in
      (Normal tt, ((totalLoss + loss)%float, net'))
  end.

Definition computeTrainLoss (net : Network.t) (data : list DataPoint)
    (confPenalty : number) : Completion number * Network.t :=
  match for_each (train_loss_item confPenalty) data (0%float, net) with
  | (Normal _, (totalLoss, net')) =>
      (Normal (totalLoss / of_nat (length data))%float, net')
  | (Throw e, (_, net')) => (Throw e, net')
  end.

(** The body of the loop of [computeCleanMetrics]:
    [const predicted = sigmoidOutput[0] >= 0.5 ? 1 : 0;
     if (predicted === target[0]) correct++;] *)
Definition clean_item (d : vector * vector) (st : number * Z * Network.t)
    : Completion unit * (number * Z * Network.t) :=
  let '(totalLoss, correct, net) := st in
  match Network.forward net (fst d) with
  | (Throw e, net') => (Throw e, (totalLoss, correct, net'))
  | (Normal output, net') =>
      let sigmoidOutput := Functions.sigmoid output in
      let totalLoss' :=
        (totalLoss + Functions.binaryCrossEntropy sigmoidOutput (snd d))%float in
      let predicted : number :=
        if (0.5 <=? hd undefined_num sigmoidOutput)%float then 1%float else 0%float in
      let correct' :=
        if (predicted =? hd undefined_num (snd d))%float
        then (correct + 1)%Z else correct in
      (Normal tt, (totalLoss', correct', net'))
  end.

(** Returns [{ loss, accuracy }]. *)
Definition computeCleanMetrics (net : Network.t)
    : Completion (number * number) * Network.t :=
  match for_each clean_item CLEAN_XOR (0%float, 0%Z, net) with
  | (Normal _, (totalLoss, correct, net')) =>
      (Normal ((totalLoss / of_nat (length CLEAN_XOR))%float,
               (of_Z correct / of_nat (length CLEAN_XOR))%float), net')
  | (Throw e, (_, net')) => (Throw e, net')
  end.

(** [createInitialState(seed?)]. *)
Definition createInitialState (h : Hook) (seed : option number)
    (rnd : Network.entropy) : Completion TrainingState :=
  let net := Network.new (initialLayerSizes h) seed rnd in
  match computeTrainLoss net (trainingData h) (confidencePenalty h) with
  | (Throw e, _) => Throw e
  | (Normal loss, net1) =>
      match computeCleanMetrics net1 with
      | (Throw e, _) => Throw e
      | (Normal (cleanLoss, accuracy), net2) =>
          let initialState := Network.getState net2 in
          Normal {| network := net2;
                    steps := [ {| step := 0; state := initialState; loss := loss;
                                  cleanLoss := cleanLoss; accuracy := accuracy;
                                  currentInputIdx := 0 |} ];
                    currentStep := 0;
                    isPlaying := false;
                    selectedInputIdx := 0 |}
      end
  end.

(** One example of the epoch:
    [net.forward(input); net.backward(input, target, confidencePenalty);
     net.step(learningRate);] *)
Definition train_example (h : Hook) (d : DataPoint) (net : Network.t)
    : Completion unit * Network.t :=
  match Network.forward net (input d) with
  | (Throw e, net1) => (Throw e, net1)
  | (Normal _, net1) =>
      match Network.backward net1 (input d) (target d) (confidencePenalty h) with
      | (Throw e, net2) => (Throw e, net2)
      | (Normal _, net2) => Network.step net2 (learningRate h)
      end
  end.

(** The updater that [trainStep] passes to [setTraining]. [rnd] is what
    [Math.random] returns to the unseeded constructor. *)
Definition trainStep (h : Hook) (rnd : Network.entropy) (prev : TrainingState)
    : Completion TrainingState :=
  let net := Network.new (Network.layerSizes (network prev)) None rnd in
  match js_index (steps prev) (currentStep prev) with
  | None => Throw TypeError
  | Some s =>
      let net := Network.setState net (state s) in
      match for_each (train_example h) (trainingData h) net with
      | (Throw e, _) => Throw e
      | (Normal _, net1) =>
          let newState := Network.getState net1 in
          match computeTrainLoss net1 (trainingData h) (confidencePenalty h) with
          | (Throw e, _) => Throw e
          | (Normal loss, net2) =>
              match computeCleanMetrics net2 with
              | (Throw e, _) => Throw e
              | (Normal (cleanLoss, accuracy), net3) =>
                  Normal {| network := net3;
                            steps := steps prev ++
                              [ {| step := currentStep prev + 1; state := newState;
                                   loss := loss; cleanLoss := cleanLoss;
                                   accuracy := accuracy; currentInputIdx := 0 |} ];
                            currentStep := currentStep prev + 1;
                            isPlaying := isPlaying prev;
                            selectedInputIdx := selectedInputIdx prev |}
              end
          end
      end
  end.

(** The updater that [goToStep(step)] passes to [setTraining]. *)
Definition goToStep (step : Z) (rnd : Network.entropy) (prev : TrainingState)
    : Completion TrainingState :=
  if ((step <? 0)%Z || (Z.of_nat (length (steps prev)) <=? step)%Z)%bool
  then Normal prev
  else
    let net := Network.new (Network.layerSizes (network prev)) None rnd in
    match js_index (steps prev) step with
    | None => Throw TypeError
    | Some s =>
        let net := Network.setState net (state s) in
        Normal {| network := net;
                  steps := steps prev;
                  currentStep := step;
                  isPlaying := isPlaying prev;
                  selectedInputIdx := selectedInputIdx prev |}
    end.

(** [n] calls of [trainStep] in a row, the [k]-th with the entropy
    [rnd k]. *)
Fixpoint advance (h : Hook) (rnd : nat -> Network.entropy) (n : nat)
    (st : TrainingState) : Completion TrainingState :=
  match n with
  | O => Normal st
  | S n' =>
      match advance h rnd n' st with
      | Throw e => Throw e
      | Normal st' => trainStep h (rnd n') st'
      end
  end.

(** [reset]: [setTraining(createInitialState(123))]. *)
Definition reset (h : Hook) (rnd : Network.entropy) : Completion TrainingState :=
  createInitialState h (Some 123%float) rnd.

(** [randomize]: [const randomSeed = (Date.now() % 99999) + 1;
    setTraining(createInitialState(randomSeed));], [now] being the integer
    that [Date.now()] returns. *)
Definition randomize (h : Hook) (now : Z) (rnd : Network.entropy)
    : Completion TrainingState :=
  createInitialState h (Some (of_Z (Z.rem now 99999 + 1))) rnd.

(** The updaters of [setSelectedInput(idx)] and [setIsPlaying(playing)]. *)
Definition setSelectedInput (idx : Z) (prev : TrainingState) : TrainingState :=
  {| network := network prev; steps := steps prev; currentStep := currentStep prev;
     isPlaying := isPlaying prev; selectedInputIdx := idx |}.

Definition setIsPlaying (playing : bool) (prev : TrainingState) : TrainingState :=
  {| network := network prev; steps := steps prev; currentStep := currentStep prev;
     isPlaying := playing; selectedInputIdx := selectedInputIdx prev |}.

End WithMath.
End Training.

(* ===================================================================== *)
(** * App.tsx and the tests: the callers of the hook and of the engine *)
(* ===================================================================== *)

Module App.
Import Training.
Section WithMath.
Context `{MathLib}.

(** The body of the loop of [liveAccuracy], which is also that of
    [computeAccuracy] in the tests of the network:
    [const output = net.forward(input);
     const sigmoidOutput = sigmoid(output);
     const predicted = sigmoidOutput[0] >= 0.5 ? 1 : 0;
     if (predicted === target[0]) correct++;] *)
Definition accuracy_item (d : vector * vector) (st : Z * Network.t)
    : Completion unit * (Z * Network.t) :=
  let (correct, net) := st in
  match Network.forward net (fst d) with
  | (Throw e, net') => (Throw e, (correct, net'))
  | (Normal output, net') =>
      let sigmoidOutput := Functions.sigmoid output in
      let predicted : number :=
        if (0.5 <=? hd undefined_num sigmoidOutput)%float then 1%float else 0%float in
      let correct' :=
        if (predicted =? hd undefined_num (snd d))%float
        then (correct + 1)%Z else correct in
      (Normal tt, (correct', net'))
  end.

(** [computeAccuracy(net)] of the tests: the loop over [CLEAN_XOR], then
    [return correct / CLEAN_XOR.length]. *)
Definition computeAccuracy (net : Network.t) : Completion number * Network.t :=
  match for_each accuracy_item CLEAN_XOR (0%Z, net) with
  | (Normal _, (correct, net')) =>
      (Normal (of_Z correct / of_nat (length CLEAN_XOR))%float, net')
  | (Throw e, (_, net')) => (Throw e, net')
  end.

(** [liveAccuracy]: the same loop on [training.network] and
    [cleanXorData], which is [CLEAN_XOR]. The calls of [forward] write
    into the engine held in the state. *)
Definition liveAccuracy (training : TrainingState) : Completion number * Network.t :=
  computeAccuracy (network training).

(** [liveLoss]: the text of [computeTrainLoss] on [training.network],
    [trainingData] and [confidencePenalty]. *)
Definition liveLoss (h : Hook) (training : TrainingState)
    : Completion number * Network.t :=
  computeTrainLoss (network training) (trainingData h) (confidencePenalty h).

(** [noisyCount]: [trainingData.filter(d => d.isNoisy).length]. *)
Definition noisyCount (h : Hook) : nat :=
  length (filter (fun d => isNoisy d = true) (trainingData h)).

(** The handlers that [App] passes to the controls:
    [onPrev={() => goToStep(training.currentStep - 1)}] and
    [onNext={() => { if (training.currentStep === training.steps.length - 1)
                       trainStep(); else goToStep(training.currentStep + 1); }}],
    on the state that the handler was rendered with. *)
Definition onPrev (rnd : Network.entropy) (training : TrainingState)
    : Completion TrainingState :=
  goToStep (currentStep training - 1) rnd training.

Definition onNext (h : Hook) (rnd : Network.entropy) (training : TrainingState)
    : Completion TrainingState :=
  if (currentStep training =? Z.of_nat (length (steps training)) - 1)%Z
  then trainStep h rnd training
  else goToStep (currentStep training + 1) rnd training.

(** [onTogglePlay={() => setIsPlaying(!training.isPlaying)}]. *)
Definition onTogglePlay (training : TrainingState) : TrainingState :=
  setIsPlaying (negb (isPlaying training)) training.

End WithMath.
End App.

(* ===================================================================== *)
(** * The quantities of the specification *)
(* ===================================================================== *)

(** What the statements below are written with: the shapes a topology
    gives to the parameters, the sequence of draws of a seed, and the
    formulas of the specification for the dataset, the sampled weights and
    the error signals, each written from the words of the specification
    and compared with the code in the properties. *)

Import Network.
Import Training.

(** ** Shapes *)

(** The width of layer [i] of a topology ([0] past its end). *)
Definition width (sizes : list nat) (i : nat) : nat := default 0 (sizes !! i).

(** The parameters have the shapes the topology gives them: one matrix and
    one bias vector per connection, the matrix of connection [i] with
    [width i] rows of [width (i+1)] entries, its bias vector with
    [width (i+1)] entries. *)
Record shaped (sizes : list nat) (ws : list matrix) (bs : list vector) : Prop := {
  shaped_weights : length ws = length sizes - 1;
  shaped_biases : length bs = length sizes - 1;
  shaped_matrix : forall i w, ws !! i = Some w ->
    length w = width sizes i /\ Forall (fun row : vector => length row = width sizes (S i)) w;
  shaped_vector : forall i b, bs !! i = Some b -> length b = width sizes (S i)
}.

(** An input of [k] entries passes through the topology: no layer that
    feeds a connection is empty, and the first of them has at least [k]
    nodes. *)
Definition passes (sizes : list nat) (k : nat) : Prop :=
  (forall i, S i < length sizes -> 1 <= width sizes i)
  /\ (2 <= length sizes -> k <= width sizes 0).

(** The fields that [backward] only reads. *)
Definition same_forward_fields (a b : Network.t) : Prop :=
  layerSizes a = layerSizes b /\ weights a = weights b /\ biases a = biases b
  /\ preActivations a = preActivations b /\ activations a = activations b.

(** The six arrays of an engine; the topology is not among them. *)
Definition same_arrays (a b : Network.t) : Prop :=
  weights a = weights b /\ biases a = biases b
  /\ preActivations a = preActivations b /\ activations a = activations b
  /\ weightGrads a = weightGrads b /\ biasGrads a = biasGrads b.

(** ** The draws of a seed, the dataset and the sampled weights *)

(** The [k]-th value, counted from 0, that the closure [seededRandom(seed)]
    returns. *)
Definition draw (seed : number) (k : nat) : number :=
  (Mwc.next (Nat.iter k Mwc.advance (Mwc.seededRandom seed))).1.

Definition bit (b : bool) : number := if b then 1%float else 0%float.

(** The [i]-th point as the specification describes it: two uniforms, the
    exclusive or of their comparisons with one half, a third uniform that
    decides the flip. *)
Definition labelled_point (noiseLevel seed : number) (i : nat) : DataPoint :=
  let x1 := draw seed (3 * i) in
  let x2 := draw seed (3 * i + 1) in
  let u := draw seed (3 * i + 2) in
  let trueLabel := xorb (0.5 <=? x1)%float (0.5 <=? x2)%float in
  let flipped := (u <? noiseLevel)%float in
  {| input := [x1; x2];
     target := [bit (if flipped then negb trueLabel else trueLabel)];
     trueTarget := [bit trueLabel];
     isNoisy := flipped |}.

(** The weights as the specification gives them, from the sequence [u] of
    the values the generator returns: entry [k] of row [j] of a matrix
    that starts at draw [p] takes [u1] and [u2] from the two consecutive
    draws at [p + 2 (m j + k)]. *)
Section Sampled.
Context `{MathLib} (u : nat -> number).

Definition sampled_weight (scale : number) (p : nat) : number :=
  (box_muller (u p) (u (p + 1)) * scale)%float.

Definition sampled_row (p m : nat) (scale : number) : vector :=
  (fun k => sampled_weight scale (p + 2 * k)) <$> seq 0 m.

Definition sampled_matrix (p n m : nat) (scale : number) : matrix :=
  (fun j => sampled_row (p + 2 * m * j) m scale) <$> seq 0 n.

Fixpoint sampled_layers (p : nat) (sizes : list nat) : list matrix :=
  match sizes with
  | [] => []
  | fanIn :: rest =>
      match rest with
      | [] => []
      | fanOut :: _ =>
          sampled_matrix p fanIn fanOut (Math_sqrt (2 / of_nat fanIn))
            :: sampled_layers (p + 2 * fanIn * fanOut) rest
      end
  end.
End Sampled.

(** [this.weights[i][j][k]]. *)
Definition weight_at (net : Network.t) (i j k : nat) : option number :=
  match weights net !! i with
  | Some w => match w !! j with Some row => row !! k | None => None end
  | None => None
  end.

(** ** The error signals *)

(** The quantities of the specification, written from its formulas: the
    logistic output of a raw pre-activation, the clamped probability, the
    gradient of the loss, the error signal of the output layer, and the
    error signals propagated through the connections. *)
Section Signals.
Context `{MathLib}.

Definition logistic (z : number) : number := (1 / (1 + Math_exp (- z)))%float.

Definition clamp (p : number) : number :=
  Math_max 1e-7%float (Math_min (1 - 1e-7)%float p).

(** [-y/p + (1-y)/(1-p)], plus [s * 4 * (1 - 2p)] when the penalty is on. *)
Definition loss_gradient (s y p : number) : number :=
  let grad := (- y / p + (1 - y) / (1 - p))%float in
  if (0 <? s)%float then (grad + s * 4 * (1 - 2 * p))%float else grad.

(** The error signal of one output node: the gradient of the loss at the
    clamped probability, times the logistic derivative at the logistic
    output itself. *)
Definition output_signal (s y z : number) : number :=
  let o := logistic z in
  (loss_gradient s y (clamp o) * (o * (1 - o)))%float.

Definition output_signals (s : number) (target z : vector) : vector :=
  zip_with (output_signal s) target z.

(** The error signal as C1 states it: the clamped probability also in the
    logistic derivative, and the penalty term always added. *)
Definition claimed_output_signal (s y z : number) : number :=
  let p := clamp (logistic z) in
  ((- y / p + (1 - y) / (1 - p) + s * 4 * (1 - 2 * p)) * (p * (1 - p)))%float.

End Signals.

(** [W . delta]: entry [j] is the sum over [k] of [delta[k] * W[j][k]]. *)
Definition dot (delta row : vector) : number :=
  foldl (fun acc p => acc + p.1 * p.2)%float 0%float (zip delta row).

Definition weighted (w : matrix) (delta : vector) : vector :=
  (fun row => dot delta row) <$> w.

(** The outer product of an activation with an error signal. *)
Definition outer (a delta : vector) : matrix :=
  (fun aj => (fun dk => aj * dk)%float <$> delta) <$> a.

(** The error signals of all the connections, first to last, from the
    weights, the stored pre-activations and the error signal of the output
    layer: the signal of a connection is that of the next one, weighted by
    the next weights and masked by the derivative of the rectified-linear
    activation at the pre-activation in between. *)
Fixpoint error_signals (ws : list matrix) (pres : list vector) (output : vector)
    : list vector :=
  match ws with
  | [] => []
  | _ :: ws' =>
      match ws' with
      | [] => [output]
      | w :: _ =>
          let rest := error_signals ws' (tail pres) output in
          zip_with (fun d r => d * r)%float
            (weighted w (hd [] rest)) (Functions.reluDerivative <$> hd [] pres)
            :: rest
      end
  end.

(** ** The update of a parameter *)

(** [w - learningRate * g], the new value of a parameter [w] with the
    gradient [g]. *)
Definition descent (learningRate w g : number) : number := (w - learningRate * g)%float.

(** A gradient matrix with the shape of a weight matrix. *)
Definition same_shape (w g : matrix) : Prop :=
  Forall2 (fun row grow : vector => length row = length grow) w g.

(** ** The pre-activation of a connection *)

(** Entry [k] of the pre-activation of a connection with the weights [w]
    and the biases [b] on the activation [a]:
    [(...((0 + a[0] w[0][k]) + a[1] w[1][k]) + ...) + b[k]], the products
    added in the order of the rows of [w] and the bias last. *)
Definition affine_entry (w : matrix) (b a : vector) (k : nat) : number :=
  (foldl (fun acc (p : number * vector) => acc + p.1 * default nan (p.2 !! k))
         0 (zip a w)
   + default nan (b !! k))%float.

Definition affine (w : matrix) (b a : vector) : vector :=
  affine_entry w b a <$> seq 0 (length b).

(** ** The states that the application reaches *)

(** The engine of a state replaced. *)
Definition with_network (net : Network.t) (st : TrainingState) : TrainingState :=
  {| network := net; steps := steps st; currentStep := currentStep st;
     isPlaying := isPlaying st; selectedInputIdx := selectedInputIdx st |}.

Section Reachable.
Context `{MathLib}.

(** The states of the hook that the handlers of the application lead to,
    when every handler runs on the state it was rendered with and with a
    configuration that satisfies [config]: the initial state
    ([useState(() => createInitialState(123))]), the states after [reset]
    (also the reset of the effect, when the parameters of the data
    change) and [randomize], after [onPrev], [onNext] and [goToStep],
    after the toggle of the play flag and the selection of an input; and,
    since the engine of the state is a mutable object that the components
    evaluate while they render, the states in which [forward] was called
    on the engine. *)
Inductive reachable (config : Hook -> Prop) : TrainingState -> Prop :=
| reach_initial h rnd st :
    config h -> createInitialState h (Some 123%float) rnd = Normal st ->
    reachable config st
| reach_reset h rnd st st' :
    config h -> reachable config st -> reset h rnd = Normal st' -> reachable config st'
| reach_randomize h now rnd st st' :
    config h -> reachable config st -> randomize h now rnd = Normal st' ->
    reachable config st'
| reach_onPrev rnd st st' :
    reachable config st -> App.onPrev rnd st = Normal st' -> reachable config st'
| reach_onNext h rnd st st' :
    config h -> reachable config st -> App.onNext h rnd st = Normal st' ->
    reachable config st'
| reach_goToStep k rnd st st' :
    reachable config st -> goToStep k rnd st = Normal st' -> reachable config st'
| reach_onTogglePlay st :
    reachable config st -> reachable config (App.onTogglePlay st)
| reach_setSelectedInput idx st :
    reachable config st -> reachable config (setSelectedInput idx st)
| reach_forward x st :
    reachable config st ->
    reachable config (with_network (forward (network st) x).2 st).

End Reachable.

(** ** Engines, states and configurations *)

(** The state the hook starts from: [useTraining()] with its defaults. *)
Definition default_hook : Hook :=
  {| initialLayerSizes := [2; 4; 1]; learningRate := 0.5; noiseLevel := 0;
     numSamples := 100; dataSeed := 42; confidencePenalty := 0 |}.

(** The engine [new Network([2, 4, 1], 123)]. *)
Definition xor_network : Network.t :=
  @new ReferenceMath.lib [2; 4; 1] (Some 123%float) (fun _ => 0.5%float).

(** An engine whose output saturates: one input, one output, weight 40. *)
Definition saturated_network : Network.t :=
  {| layerSizes := [1; 1]; weights := [[[40%float]]]; biases := [[0%float]];
     preActivations := []; activations := []; weightGrads := []; biasGrads := [] |}.

(** The engine [new Network([2, 4, 1], 123)] after [forward([1, 0])] and
    [backward([1, 0], [1], 0)]. *)
Definition trained_once : Network.t :=
  (@backward ReferenceMath.lib (forward xor_network [1; 0]%float).2
     [1; 0]%float [1%float] 0%float).2.

(** An engine of topology [[1, 1]] on which [setState] has installed a
    first weight matrix of two rows. *)
Definition widened_network : Network.t :=
  setState (@new ReferenceMath.lib [1; 1] (Some 123%float) (fun _ => 0.5%float))
    {| NetworkState.weights := [[[1%float]; [2%float]]];
       NetworkState.biases := [[0%float]];
       NetworkState.preActivations := []; NetworkState.activations := [];
       NetworkState.weightGrads := []; NetworkState.biasGrads := [] |}.

(** A state of the hook around [xor_network]: one snapshot, numbered 0. *)
Definition xor_state : TrainingState :=
  {| network := xor_network;
     steps := [ {| step := 0; state := getState xor_network; loss := 0; cleanLoss := 0;
                   accuracy := 0; currentInputIdx := 0 |} ];
     currentStep := 0; isPlaying := false; selectedInputIdx := 0 |}.

(** The default configuration with an empty dataset. *)
Definition hook_without_data : Hook :=
  {| initialLayerSizes := [2; 4; 1]; learningRate := 0.5; noiseLevel := 0;
     numSamples := 0; dataSeed := 42; confidencePenalty := 0 |}.

(** The default configuration with a noise level of [1]. *)
Definition hook_all_noise : Hook :=
  {| initialLayerSizes := [2; 4; 1]; learningRate := 0.5; noiseLevel := 1;
     numSamples := 100; dataSeed := 42; confidencePenalty := 0 |}.

(** The state the application starts in: [createInitialState(123)] under
    the default configuration. *)
Definition initial_state : TrainingState :=
  match @createInitialState ReferenceMath.lib default_hook (Some 123%float)
          (fun _ => 0.5%float) with
  | Normal st => st
  | Throw _ => xor_state
  end.

(** The state after one [onNext] from there: two snapshots, the second
    one current. *)
Definition second_state : TrainingState :=
  match @App.onNext ReferenceMath.lib default_hook (fun _ => 0.5%float) initial_state with
  | Normal st => st
  | Throw _ => initial_state
  end.

(* ===================================================================== *)
(** * Properties *)
(* ===================================================================== *)

(** ** Copies and loops *)

Lemma spread_id {A : Type} (a : list A) : spread a = a.
Proof. unfold spread. apply list_fmap_id. Qed.

Lemma copy_vectors_id (a : list vector) : copy_vectors a = a.
Proof.
  unfold copy_vectors. rewrite <- (list_fmap_id a) at 2.
  apply list_fmap_ext. intros. apply spread_id.
Qed.

Lemma copy_matrices_id (a : list matrix) : copy_matrices a = a.
Proof.
  unfold copy_matrices. rewrite <- (list_fmap_id a) at 2.
  apply list_fmap_ext. intros _ w _. apply (copy_vectors_id w).
Qed.

Lemma copy_sparse_id (a : list (option vector)) : copy_sparse a = a.
Proof.
  unfold copy_sparse. rewrite <- (list_fmap_id a) at 2.
  apply list_fmap_ext. intros _ [b|] _; simpl; [|done]. by rewrite spread_id.
Qed.

Lemma map_with_length f (l other : vector) : length (map_with f l other) = length l.
Proof. revert other. induction l as [|a l IH]; intros other; simpl; [done|]. by rewrite IH. Qed.

Lemma add_into_length (vals z : vector) :
  length (add_into vals z) = length vals `max` length z.
Proof.
  revert z. induction vals as [|v vals IH]; intros [|zj z]; simpl; try done.
  - by rewrite IH, Nat.max_0_r.
  - by rewrite IH.
Qed.

Section ForEach.
Context {S I : Type} (body : I -> S -> Completion unit * S).

(** What every iteration preserves, the loop preserves, however it ends. *)
Lemma for_each_preserves (P : S -> Prop) (items : list I) (s : S) :
  (forall i s, P s -> P (body i s).2) ->
  P s -> P (for_each body items s).2.
Proof.
  intros Hbody. revert s. induction items as [|i items IH]; intros s Hs; simpl; [done|].
  specialize (Hbody i s Hs). destruct (body i s) as [[[]|e] s']; simpl in *; auto.
Qed.

(** An upward loop over [a, a+1, ..., a+n-1] whose iterations end
    normally and step an indexed invariant ends normally. *)
Lemma for_each_seq_normal (body' : nat -> S -> Completion unit * S)
    (Inv : nat -> S -> Prop) (n a : nat) (s : S) :
  (forall i s, a <= i < a + n -> Inv i s ->
     exists s', body' i s = (Normal tt, s') /\ Inv (Datatypes.S i) s') ->
  Inv a s ->
  exists s', for_each body' (seq a n) s = (Normal tt, s') /\ Inv (a + n) s'.
Proof.
  revert a s. induction n as [|n IH]; intros a s Hbody Hs; simpl.
  - exists s. by rewrite Nat.add_0_r.
  - destruct (Hbody a s) as (s1 & -> & Hs1); [lia|done|].
    destruct (IH (Datatypes.S a) s1) as (s2 & Hrun & Hs2); [|done|].
    + intros i s' Hi. apply Hbody. lia.
    + exists s2. split; [done|]. by replace (a + Datatypes.S n) with (Datatypes.S a + n) by lia.
Qed.

(** The same for a downward loop over [n-1, ..., 1, 0]. *)
Lemma for_each_rev_normal (body' : nat -> S -> Completion unit * S)
    (Inv : nat -> S -> Prop) (n : nat) (s : S) :
  (forall i s, i < n -> Inv (Datatypes.S i) s ->
     exists s', body' i s = (Normal tt, s') /\ Inv i s') ->
  Inv n s ->
  exists s', for_each body' (rev (seq 0 n)) s = (Normal tt, s') /\ Inv 0 s'.
Proof.
  revert s. induction n as [|n IH]; intros s Hbody Hs.
  - exists s. done.
  - rewrite seq_S, rev_app_distr. simpl.
    destruct (Hbody n s) as (s1 & -> & Hs1); [lia|done|].
    apply IH; [|done]. intros i s' Hi. apply Hbody. lia.
Qed.

(** A loop over any list whose iterations end normally and keep an
    invariant ends normally. *)
Lemma for_each_normal (P : S -> Prop) (items : list I) (s : S) :
  (forall i s, i ∈ items -> P s -> exists s', body i s = (Normal tt, s') /\ P s') ->
  P s ->
  exists s', for_each body items s = (Normal tt, s') /\ P s'.
Proof.
  revert s. induction items as [|i items IH]; intros s Hbody Hs; simpl.
  - by exists s.
  - destruct (Hbody i s) as (s1 & -> & Hs1); [left|done|].
    apply IH; [|done]. intros j s' Hj. apply Hbody. by right.
Qed.
End ForEach.

(** Two loops over the same items whose iterations agree on related states
    end the same way, in related states. *)
Lemma for_each_related {S1 S2 I : Type} (R : S1 -> S2 -> Prop)
    (body1 : I -> S1 -> Completion unit * S1)
    (body2 : I -> S2 -> Completion unit * S2) (items : list I) (s1 : S1) (s2 : S2) :
  (forall i a b, R a b -> (body1 i a).1 = (body2 i b).1 /\ R (body1 i a).2 (body2 i b).2) ->
  R s1 s2 ->
  (for_each body1 items s1).1 = (for_each body2 items s2).1
  /\ R (for_each body1 items s1).2 (for_each body2 items s2).2.
Proof.
  intros Hbody. revert s1 s2. induction items as [|i items IH]; intros s1 s2 HR; simpl; [done|].
  destruct (Hbody i s1 s2 HR) as [Hc HR'].
  destruct (body1 i s1) as [[[]|e1] s1'], (body2 i s2) as [[[]|e2] s2']; simpl in *;
    try discriminate; auto.
Qed.

(** ** The frame of [backward] *)

Lemma backward_layer_arrays (i : nat) (a b : vector * Network.t) :
  a.1 = b.1 /\ same_arrays a.2 b.2 ->
  (backward_layer i a).1 = (backward_layer i b).1
  /\ (backward_layer i a).2.1 = (backward_layer i b).2.1
  /\ same_arrays (backward_layer i a).2.2 (backward_layer i b).2.2.
Proof.
  destruct a as [delta na], b as [delta' nb]. cbn [fst snd].
  intros (<- & Hw & Hb & Hp & Ha & Hgw & Hgb).
  unfold backward_layer. rewrite Ha, Hgw.
  destruct (activations nb !! i) as [activationIn|]; [|done].
  destruct (outer_into _ _ _) as [[[]|e] g']; cbn [fst snd].
  - unfold back_delta. cbn [weights preActivations biasGrads weightGrads
      set_biasGrads set_weightGrads]. rewrite Hw, Hp, Hgb.
    destruct (0 <? i); [|done]. destruct (back_product _ _ _); [|done].
    destruct (preActivations nb !! (i - 1)); done.
  - done.
Qed.

(** [backward] reads the weights, the biases and the stored
    pre-activations and activations, and nothing else. *)
Section Noninterference.
Context `{MathLib}.

Lemma backward_reads (net net' : Network.t) (x1 x2 target : vector) (strength : number) :
  weights net = weights net' -> biases net = biases net' ->
  preActivations net = preActivations net' -> activations net = activations net' ->
  (backward net x1 target strength).1 = (backward net' x2 target strength).1
  /\ same_arrays (backward net x1 target strength).2 (backward net' x2 target strength).2.
Proof.
  intros Hw Hb Hp Ha. unfold backward. rewrite Hw, Hb, Ha.
  match goal with |- context [for_each ?body ?items (?d, ?s1)] =>
    match goal with |- context [for_each body items (d, ?s2)] =>
      assert_fails (constr_eq s1 s2);
      pose proof (for_each_related
        (fun a b : vector * Network.t => a.1 = b.1 /\ same_arrays a.2 b.2)
        body body items (d, s1) (d, s2)) as Hloop
    end
  end.
  destruct Hloop as (Hc & _ & Harrays).
  - intros i a b HR. pose proof (backward_layer_arrays i a b HR). tauto.
  - unfold same_arrays. cbn. split_and!; done.
  - destruct (for_each _ _ (_, set_biasGrads _ (set_weightGrads _ net))) as [c1 [d1 n1]],
             (for_each _ _ (_, set_biasGrads _ (set_weightGrads _ net'))) as [c2 [d2 n2]].
    done.
Qed.
End Noninterference.

Section Frame.
Context `{MathLib}.

Lemma backward_layer_frame (net : Network.t) (i : nat) (st : vector * Network.t) :
  same_forward_fields st.2 net -> same_forward_fields (backward_layer i st).2.2 net.
Proof.
  destruct st as [delta net1]. unfold backward_layer. simpl. intros Hsame.
  destruct (activations net1 !! i) as [activationIn|]; [|done].
  destruct (outer_into _ _ _) as [[[]|e] g']; simpl; [|done].
  destruct (0 <? i); [|done].
  destruct (back_delta _ _ _ _); done.
Qed.

(** C9. [backward] writes the weight-gradients and the bias-gradients
    only: whatever the state, the targets and the penalty strength, and
    however the call ends, the weights, the biases, the pre-activations
    and the activations (and the topology) are afterwards what they were
    before. *)
Theorem backward_frame (net : Network.t) (x target : vector) (strength : number) :
  let net' := (backward net x target strength).2 in
  weights net' = weights net
  /\ biases net' = biases net
  /\ preActivations net' = preActivations net
  /\ activations net' = activations net
  /\ layerSizes net' = layerSizes net.
Proof.
  unfold backward.
  match goal with |- context [for_each ?b ?l ?s] =>
    pose proof (for_each_preserves b (fun st => same_forward_fields st.2 net) l s) as Hloop;
    destruct (for_each b l s) as [c [delta' net']] end.
  simpl in *. destruct Hloop as (? & ? & ? & ? & ?); [|done|done].
  intros i st. apply backward_layer_frame.
Qed.

(** C10. The first argument of [backward] has no effect: two calls on
    the same state with the same targets and the same penalty strength
    end the same way and leave the same state, whatever their first
    arguments are. What the call reads is what [forward] stored: on any
    state with the same weights, biases, pre-activations and activations
    it ends the same way with the same gradients. *)
Theorem backward_ignores_input (net : Network.t) (x1 x2 target : vector)
    (strength : number) :
  backward net x1 target strength = backward net x2 target strength
  /\ forall net' : Network.t,
       weights net' = weights net -> biases net' = biases net ->
       preActivations net' = preActivations net ->
       activations net' = activations net ->
       (backward net' x2 target strength).1 = (backward net x1 target strength).1
       /\ weightGrads (backward net' x2 target strength).2
          = weightGrads (backward net x1 target strength).2
       /\ biasGrads (backward net' x2 target strength).2
          = biasGrads (backward net x1 target strength).2.
Proof.
  split; [reflexivity|]. intros net' Hw Hb Hp Ha.
  destruct (backward_reads net' net x2 x1 target strength Hw Hb Hp Ha)
    as (Hc & _ & _ & _ & _ & Hgw & Hgb).
  done.
Qed.

End Frame.

(** ** The round trip of the state *)

Lemma getState_setState (e e2 : Network.t) :
  getState (setState e2 (getState e)) = getState e.
Proof.
  unfold getState, setState. simpl. by rewrite !copy_matrices_id, !copy_vectors_id, !copy_sparse_id.
Qed.

(** [forward] reads the weights and the biases only. *)
Definition same_parameters (a b : Network.t) : Prop :=
  weights a = weights b /\ biases a = biases b.

Lemma forward_layer_parameters (i : nat) (a b : vector * Network.t) :
  a.1 = b.1 /\ same_parameters a.2 b.2 ->
  (forward_layer i a).1 = (forward_layer i b).1
  /\ (forward_layer i a).2.1 = (forward_layer i b).2.1
  /\ same_parameters (forward_layer i a).2.2 (forward_layer i b).2.2.
Proof.
  destruct a as [act na], b as [act' nb]. simpl. intros (-> & Hw & Hb).
  unfold forward_layer. rewrite Hw, Hb.
  destruct (weights nb !! i) as [w|]; [|done].
  destruct (linear w (biases nb !! i) act'); done.
Qed.

Lemma forward_parameters (a b : Network.t) (x : vector) :
  same_parameters a b -> (forward a x).1 = (forward b x).1.
Proof.
  intros [Hw Hb]. unfold forward. rewrite Hw.
  pose proof (for_each_related
    (fun s1 s2 : vector * Network.t => s1.1 = s2.1 /\ same_parameters s1.2 s2.2)
    forward_layer forward_layer (seq 0 (length (weights b)))
    (spread x, set_preActivations [] (set_activations [x] a))
    (spread x, set_preActivations [] (set_activations [x] b))) as Hloop.
  destruct Hloop as (Hc & Hact & _).
  - intros i s1 s2 HR. pose proof (forward_layer_parameters i s1 s2 HR). tauto.
  - done.
  - destruct (for_each _ _ (_, set_preActivations [] (set_activations [x] a))) as [[[]|e1] [a1 n1]],
             (for_each _ _ (_, set_preActivations [] (set_activations [x] b))) as [[[]|e2] [a2 n2]];
      simpl in *; congruence.
Qed.

(** C5. Importing the exported state of an engine [e] into any engine [e2]
    makes the exported state of [e2] equal to that of [e], and [e2] then
    returns on every input what [e] returns (the same output vector, or the
    same exception). *)
Theorem state_round_trip (e e2 : Network.t) :
  let e2' := setState e2 (getState e) in
  getState e2' = getState e
  /\ forall x : vector, (forward e2' x).1 = (forward e x).1.
Proof.
  split; [apply getState_setState|].
  intros x. apply forward_parameters. unfold same_parameters, setState, getState. simpl.
  by rewrite !copy_matrices_id, !copy_vectors_id.
Qed.

(** ** The dataset generator *)

Lemma iter_0 {A : Type} (f : A -> A) (x : A) : Nat.iter 0 f x = x.
Proof. done. Qed.

Lemma iter_S {A : Type} (f : A -> A) (n : nat) (x : A) :
  Nat.iter (S n) f x = f (Nat.iter n f x).
Proof. done. Qed.

Lemma generate_loop_points (n : nat) (noiseLevel seed : number) (j : nat) :
  generate_loop n noiseLevel (Nat.iter (3 * j) Mwc.advance (Mwc.seededRandom seed))
  = labelled_point noiseLevel seed <$> seq j n.
Proof.
  revert j. induction n as [|n IH]; intros j; [done|].
  cbn [generate_loop seq fmap list_fmap]. unfold Mwc.next at 1 2 3. cbv zeta. cbn [fst snd].
  specialize (IH (S j)). replace (3 * S j) with (S (S (S (3 * j)))) in IH by lia.
  rewrite !iter_S in IH. rewrite IH. f_equal.
  unfold labelled_point, draw, Mwc.next. cbn [fst].
  replace (3 * j + 1) with (S (3 * j)) by lia.
  replace (3 * j + 2) with (S (S (3 * j))) by lia. rewrite !iter_S.
  set (r := Nat.iter (3 * j) Mwc.advance (Mwc.seededRandom seed)).
  set (x1 := (of_Z (Mwc.result (Mwc.advance r)) / _)%float).
  set (x2 := (of_Z (Mwc.result (Mwc.advance (Mwc.advance r))) / _)%float).
  set (u := (of_Z _ / _)%float).
  destruct (0.5 <=? x1)%float, (0.5 <=? x2)%float, (u <? noiseLevel)%float; reflexivity.
Qed.

(** C7. The dataset for [numSamples], [noiseLevel] and [seed] is the list
    of [numSamples] points, in the order sampled, whose [i]-th point takes
    the draws [3i] and [3i+1] of the seeded generator as its two inputs,
    their exclusive or (of the comparisons with 0.5) as its true label, and
    the draw [3i+2] to decide the flip: the stored label is the opposite of
    the true label exactly when that draw is below [noiseLevel], and the
    noise flag says so. The list is a function of the three arguments, so
    two calls with the same arguments return the same points. *)
Theorem generateNoisyData_points (numSamples : nat) (noiseLevel seed : number) :
  generateNoisyData numSamples noiseLevel seed
  = labelled_point noiseLevel seed <$> seq 0 numSamples
  /\ length (generateNoisyData numSamples noiseLevel seed) = numSamples.
Proof.
  pose proof (generate_loop_points numSamples noiseLevel seed 0) as Heq.
  replace (3 * 0) with 0 in Heq by lia. rewrite iter_0 in Heq.
  unfold generateNoisyData. rewrite Heq. split; [reflexivity|].
  rewrite length_fmap, length_seq. reflexivity.
Qed.

(** ** Navigation in the history *)

Section Navigation.
Context `{MathLib}.

(** The fields of an engine, as [getState] exports them. *)
Lemma getState_setState_fields (net : Network.t) (s : NetworkState.t) :
  getState (setState net s) = s.
Proof.
  destruct s. unfold getState, setState. simpl.
  by rewrite !copy_matrices_id, !copy_vectors_id, !copy_sparse_id.
Qed.

Lemma js_index_in_range {A : Type} (a : list A) (k : Z) :
  (0 <= k < Z.of_nat (length a))%Z ->
  exists v, a !! Z.to_nat k = Some v /\ js_index a k = Some v.
Proof.
  intros Hk. unfold js_index.
  destruct (Z.ltb_spec k 0) as [?|_]; [lia|].
  destruct (lookup_lt_is_Some_2 a (Z.to_nat k)) as [v Hv]; [lia|]. by exists v.
Qed.

(** C6. [goTo(k)] for an integer [k]: inside [[0, history.length)] the
    current index becomes [k], the engine is a new one whose exported
    state is the state stored in snapshot [k] (nothing is recomputed) and
    the history is the same; outside that range the whole state is
    returned as it was: the index is not clamped. *)
Theorem goToStep_navigation (prev : TrainingState) (k : Z) (rnd : entropy) :
  ((0 <= k < Z.of_nat (length (steps prev)))%Z ->
     exists (snapshot : TrainingStep) (next : TrainingState),
       steps prev !! Z.to_nat k = Some snapshot
       /\ goToStep k rnd prev = Normal next
       /\ currentStep next = k
       /\ getState (network next) = state snapshot
       /\ layerSizes (network next) = layerSizes (network prev)
       /\ steps next = steps prev
       /\ isPlaying next = isPlaying prev
       /\ selectedInputIdx next = selectedInputIdx prev)
  /\ (~ (0 <= k < Z.of_nat (length (steps prev)))%Z ->
        goToStep k rnd prev = Normal prev).
Proof.
  unfold goToStep. split.
  - intros Hk. destruct (js_index_in_range (steps prev) k Hk) as (s & Hs & ->).
    destruct (Z.ltb_spec k 0) as [?|_]; [lia|].
    destruct (Z.leb_spec (Z.of_nat (length (steps prev))) k) as [?|_]; [lia|]. simpl.
    eexists s, _. split; [done|]. split; [done|]. simpl.
    rewrite getState_setState_fields. unfold new.
    destruct (init_layers _ _ _) as [[ws bs] g]. done.
  - intros Hk.
    destruct (Z.ltb_spec k 0) as [?|?]; [done|].
    destruct (Z.leb_spec (Z.of_nat (length (steps prev))) k) as [?|?]; [done|lia].
Qed.

End Navigation.

(** ** Shapes *)

Section Construction.
Context `{MathLib} {G : Type} (random : G -> number * G).

Lemma init_row_length (n : nat) (scale : number) (g : G) :
  length (init_row random n scale g).1 = n.
Proof.
  revert g. induction n as [|n IH]; intros g; simpl; [done|].
  destruct (random g) as [u1 g1], (random g1) as [u2 g2].
  specialize (IH g2). destruct (init_row random n scale g2) as [row g']. simpl in *. by rewrite IH.
Qed.

Lemma init_matrix_shape (n m : nat) (scale : number) (g : G) :
  length (init_matrix random n m scale g).1 = n
  /\ Forall (fun row : vector => length row = m) (init_matrix random n m scale g).1.
Proof.
  revert g. induction n as [|n IH]; intros g; simpl; [done|].
  pose proof (init_row_length m scale g) as Hrow.
  destruct (init_row random m scale g) as [row g1].
  specialize (IH g1). destruct (init_matrix random n m scale g1) as [w g']. simpl in *.
  destruct IH as [-> ?]. split; [done|]. by constructor.
Qed.

Lemma init_layers_cons (n m : nat) (rest : list nat) (g : G) :
  init_layers random (n :: m :: rest) g
  = let (w, g1) := init_matrix random n m (Math_sqrt (2 / of_nat n)) g in
    let '(ws, bs, g') := init_layers random (m :: rest) g1 in
    (w :: ws, replicate m 0%float :: bs, g').
Proof. reflexivity. Qed.

Lemma init_layers_shaped (sizes : list nat) (g : G) :
  shaped sizes (init_layers random sizes g).1.1 (init_layers random sizes g).1.2.
Proof.
  revert g. induction sizes as [|n rest IH]; intros g.
  - split; simpl; try done; intros i ?; by rewrite lookup_nil.
  - destruct rest as [|m rest'].
    + split; simpl; try done; intros i ?; by rewrite lookup_nil.
    + rewrite init_layers_cons.
      pose proof (init_matrix_shape n m (Math_sqrt (2 / of_nat n)) g) as [Hlen Hrows].
      destruct (init_matrix random n m _ g) as [w g1].
      specialize (IH g1). destruct (init_layers random (m :: rest') g1) as [[ws bs] g'].
      simpl in *. destruct IH as [Hw Hb Hm Hv]. split; simpl.
      * simpl in *. lia.
      * simpl in *. lia.
      * intros [|i] w'; simpl.
        -- intros [= <-]. done.
        -- intros Hi. apply (Hm i w' Hi).
      * intros [|i] b; simpl.
        -- intros [= <-]. by rewrite length_replicate.
        -- intros Hi. apply (Hv i b Hi).
Qed.
End Construction.

Lemma new_shaped `{MathLib} (sizes : list nat) (seed : option number) (rnd : entropy) :
  shaped sizes (weights (new sizes seed rnd)) (biases (new sizes seed rnd)).
Proof.
  unfold new. destruct seed as [s|].
  - pose proof (init_layers_shaped Mwc.next sizes (Mwc.seededRandom s)) as Hs.
    destruct (init_layers Mwc.next sizes _) as [[ws bs] g]. done.
  - pose proof (init_layers_shaped Math_random sizes rnd) as Hs.
    destruct (init_layers Math_random sizes _) as [[ws bs] g]. done.
Qed.

(** ** [step] before any [backward] *)

(** A loop whose iterations leave the state as it is throws when one of
    them does. *)
Lemma for_each_fixed {S I : Type} (body : I -> S -> Completion unit * S)
    (items : list I) (s : S) :
  (forall i, i ∈ items -> (body i s).2 = s) ->
  (for_each body items s).2 = s
  /\ (threw (for_each body items s).1 = true
      <-> exists i, i ∈ items /\ threw (body i s).1 = true).
Proof.
  induction items as [|i items IH]; intros Hfix; simpl.
  - split; [done|]. split; [done|]. intros (i & Hi & _). by apply elem_of_nil in Hi.
  - pose proof (Hfix i (list_elem_of_here _ _)) as Hi.
    destruct IH as [IHs IHc]. { intros j Hj. apply Hfix. by right. }
    destruct (body i s) as [[[]|e] s'] eqn:Hbody; simpl in *; subst s'.
    + split; [done|]. rewrite IHc. split.
      * intros (j & Hj & Hthrew). exists j. split; [by right|done].
      * intros (j & Hj & Hthrew). apply elem_of_cons in Hj as [->|Hj].
        -- by rewrite Hbody in Hthrew.
        -- by exists j.
    + split; [done|]. split; [|done]. intros _. exists i. split; [by left|]. by rewrite Hbody.
Qed.

Lemma step_matrix_no_gradient (learningRate : number) (w : matrix) :
  (step_matrix learningRate w []).2 = w
  /\ (threw (step_matrix learningRate w []).1 = true
      <-> Exists (fun row : vector => row <> []) w).
Proof.
  induction w as [|row w [IHw IHc]]; simpl.
  - split; [done|]. split; [done|]. intros Hex. by apply Exists_nil in Hex.
  - destruct row as [|a row].
    + destruct (step_matrix learningRate w []) as [c w']. simpl in *. subst w'.
      split; [done|]. rewrite IHc, Exists_cons. split; [by right|]. by intros [?|?].
    + simpl. split; [done|]. split; [|done]. intros _. by left.
Qed.

Lemma set_weights_same (net : Network.t) : set_weights (weights net) net = net.
Proof. by destruct net. Qed.

Lemma step_layer_no_gradient (learningRate : number) (i : nat) (net : Network.t)
    (w : matrix) (b : vector) :
  weightGrads net = [] -> biasGrads net = [] ->
  weights net !! i = Some w -> biases net !! i = Some b ->
  (step_layer learningRate i net).2 = net
  /\ (threw (step_layer learningRate i net).1 = true
      <-> Exists (fun row : vector => row <> []) w \/ b <> []).
Proof.
  intros Hgw Hgb Hw Hb. unfold step_layer. rewrite Hw, Hgw, lookup_nil. simpl.
  destruct (step_matrix_no_gradient learningRate w) as [Hsame Hthrew].
  destruct (step_matrix learningRate w []) as [c w']. simpl in *. subst w'.
  rewrite (list_insert_id _ _ _ Hw), set_weights_same.
  destruct c as [[]|[]]; simpl in *.
  - rewrite Hb, Hgb, lookup_nil. destruct b as [|b0 b]; simpl.
    + split; [done|]. split; [done|]. intros [Hex|?]; [|done]. by apply Hthrew in Hex.
    + split; [done|]. split; [|done]. intros _. by right.
  - split; [done|]. split; [|done]. intros _. left. by apply Hthrew.
Qed.

Section StepBeforeBackward.
Context `{MathLib}.

Lemma new_no_gradient (sizes : list nat) (seed : option number) (rnd : entropy) :
  weightGrads (new sizes seed rnd) = [] /\ biasGrads (new sizes seed rnd) = [].
Proof.
  unfold new. destruct seed.
  - by destruct (init_layers Mwc.next sizes _) as [[ws bs] g].
  - by destruct (init_layers Math_random sizes _) as [[ws bs] g].
Qed.

(** C8, as the code has it. On an engine that was just constructed, [step]
    leaves every weight and every bias as it is, whatever the learning
    rate; but it does not end normally: the gradient arrays start empty,
    not filled with zeros, and the call throws a [TypeError] exactly when
    some layer after the input layer has a positive width. *)
Theorem step_before_backward (sizes : list nat) (seed : option number)
    (rnd : entropy) (learningRate : number) :
  let net := new sizes seed rnd in
  (Network.step net learningRate).2 = net
  /\ ((Network.step net learningRate).1 = Throw TypeError
      <-> exists i, 1 <= i /\ 0 < width sizes i).
Proof.
  intros net. unfold Network.step.
  destruct (new_no_gradient sizes seed rnd) as [Hgw Hgb]. fold net in Hgw, Hgb.
  destruct (new_shaped sizes seed rnd) as [Hlw Hlb Hm Hv]. fold net in Hlw, Hlb, Hm, Hv.
  assert (forall i, i ∈ seq 0 (length (weights net)) ->
            exists w b, weights net !! i = Some w /\ biases net !! i = Some b) as Hlayer.
  { intros i Hi. apply elem_of_seq in Hi.
    destruct (lookup_lt_is_Some_2 (weights net) i) as [w Hw]; [lia|].
    destruct (lookup_lt_is_Some_2 (biases net) i) as [b Hb]; [lia|]. by exists w, b. }
  destruct (for_each_fixed (step_layer learningRate) (seq 0 (length (weights net))) net)
    as [Hsame Hthrew].
  { intros i Hi. destruct (Hlayer i Hi) as (w & b & Hw & Hb).
    by apply (step_layer_no_gradient learningRate i net w b). }
  split; [done|].
  transitivity (threw (for_each (step_layer learningRate)
                         (seq 0 (length (weights net))) net).1 = true).
  { destruct (for_each _ _ _) as [[[]|[]] ?]; simpl; split; done. }
  rewrite Hthrew. split.
  - intros (i & Hi & Hc). destruct (Hlayer i Hi) as (w & b & Hw & Hb).
    apply (step_layer_no_gradient learningRate i net w b Hgw Hgb Hw Hb) in Hc.
    exists (S i). split; [lia|]. rewrite <- (Hv i b Hb).
    destruct Hc as [Hex|Hne].
    + destruct (Hm i w Hw) as [_ Hrows]. rewrite (Hv i b Hb).
      apply Exists_exists in Hex as (row & Hrow & Hne).
      rewrite Forall_forall in Hrows. rewrite <- (Hrows row Hrow).
      destruct row; [done|simpl; lia].
    + destruct b; [done|simpl; lia].
  - intros (j & Hj & Hpos). destruct j as [|i]; [lia|].
    assert (i < length (weights net)) as Hi.
    { rewrite Hlw. unfold width in Hpos.
      destruct (sizes !! S i) eqn:Hs; simpl in Hpos; [|lia].
      apply lookup_lt_Some in Hs. lia. }
    assert (i ∈ seq 0 (length (weights net))) as Hin by (apply elem_of_seq; lia).
    destruct (Hlayer i Hin) as (w & b & Hw & Hb).
    exists i. split; [done|].
    apply (step_layer_no_gradient learningRate i net w b Hgw Hgb Hw Hb).
    right. pose proof (Hv i b Hb). destruct b; [simpl in *; lia|done].
Qed.

End StepBeforeBackward.

(** C8 as stated fails: on the engine [new Network([2, 4, 1], 123)],
    [step(0.5)] throws. *)
Lemma step_before_backward_throws :
  (Network.step (@new ReferenceMath.lib [2; 4; 1] (Some 123%float) (fun _ => 0%float)) 0.5%float).1
  = Throw TypeError.
Proof. vm_compute. reflexivity. Qed.

(** ** The sampled parameters *)

Section Sampling.
Context `{MathLib} {G : Type} (random : G -> number * G).

(** The generator after [k] calls. *)
Definition after_draws (k : nat) (g : G) : G := Nat.iter k (fun g => (random g).2) g.

(** [u] is the sequence of the values that the generator [g] returns. *)
Context (g : G) (u : nat -> number).
Hypothesis random_after :
  forall k, random (after_draws k g) = (u k, after_draws (S k) g).

Lemma init_row_from (scale : number) (p n j : nat) :
  init_row random n scale (after_draws (p + 2 * j) g)
  = ((fun k => sampled_weight u scale (p + 2 * k)) <$> seq j n,
     after_draws (p + 2 * (j + n)) g).
Proof using random_after.
  revert j. induction n as [|n IH]; intros j.
  - cbn [init_row seq fmap list_fmap]. by rewrite Nat.add_0_r.
  - cbn [init_row]. rewrite !random_after.
    specialize (IH (S j)). replace (p + 2 * S j) with (S (S (p + 2 * j))) in IH by lia.
    rewrite IH. cbn [seq fmap list_fmap]. unfold sampled_weight at 2.
    replace (p + 2 * j + 1) with (S (p + 2 * j)) by lia.
    by replace (S j + n) with (j + S n) by lia.
Qed.

Lemma init_matrix_from (scale : number) (p m n j : nat) :
  init_matrix random n m scale (after_draws (p + 2 * m * j) g)
  = ((fun j => sampled_row u (p + 2 * m * j) m scale) <$> seq j n,
     after_draws (p + 2 * m * (j + n)) g).
Proof using random_after.
  revert j. induction n as [|n IH]; intros j.
  - cbn [init_matrix seq fmap list_fmap]. by rewrite Nat.add_0_r.
  - cbn [init_matrix].
    pose proof (init_row_from scale (p + 2 * m * j) m 0) as Hrow.
    rewrite Nat.mul_0_r, Nat.add_0_r in Hrow. rewrite Hrow. clear Hrow.
    specialize (IH (S j)).
    replace (p + 2 * m * j + 2 * (0 + m)) with (p + 2 * m * S j) by lia.
    rewrite IH. cbn [seq fmap list_fmap].
    by replace (S j + n) with (j + S n) by lia.
Qed.

Lemma init_layers_from (p : nat) (sizes : list nat) :
  (init_layers random sizes (after_draws p g)).1
  = (sampled_layers u p sizes, (fun m => replicate m 0%float) <$> tail sizes).
Proof using random_after.
  revert p. induction sizes as [|n rest IH]; intros p; [done|].
  destruct rest as [|m rest']; [done|].
  rewrite init_layers_cons.
  pose proof (init_matrix_from (Math_sqrt (2 / of_nat n)) p m n 0) as Hw.
  rewrite Nat.mul_0_r, Nat.add_0_r in Hw. rewrite Hw. clear Hw.
  specialize (IH (p + 2 * n * m)).
  replace (p + 2 * m * (0 + n)) with (p + 2 * n * m) by lia.
  destruct (init_layers random (m :: rest') _) as [[ws bs] g'].
  cbn [fst snd] in IH. injection IH as -> ->. done.
Qed.
End Sampling.

Lemma after_draws_mwc (s : Mwc.t) (k : nat) :
  after_draws Mwc.next k s = Nat.iter k Mwc.advance s.
Proof.
  unfold after_draws. induction k as [|k IH]; [reflexivity|].
  rewrite !iter_S, IH. reflexivity.
Qed.

Lemma next_after_draws (seed : number) (k : nat) :
  Mwc.next (after_draws Mwc.next k (Mwc.seededRandom seed))
  = (draw seed k, after_draws Mwc.next (S k) (Mwc.seededRandom seed)).
Proof.
  unfold draw. generalize (Mwc.seededRandom seed). intros s.
  rewrite !after_draws_mwc, iter_S. unfold Mwc.next. cbv zeta. cbn [fst]. reflexivity.
Qed.

(** C2, as the code has it. The constructor with a seed samples the weight
    [k] of row [j] of every connection as [z * sqrt(2 / fanIn)] with
    [z = sqrt(-2 ln u1) * cos(2 pi u2)], where [u1] and [u2] are two
    consecutive draws of the seeded generator, in the order of the
    connections, rows and entries, and are used as drawn: [u1] is not
    clamped. Every bias is [0]. *)
Theorem constructor_samples `{MathLib} (sizes : list nat) (seed : number) (rnd : entropy) :
  let net := new sizes (Some seed) rnd in
  weights net = sampled_layers (draw seed) 0 sizes
  /\ biases net = (fun m => replicate m 0%float) <$> tail sizes.
Proof.
  unfold new.
  pose proof (init_layers_from Mwc.next (Mwc.seededRandom seed) (draw seed)
                (next_after_draws seed) 0 sizes) as Hinit.
  unfold after_draws in Hinit. rewrite iter_0 in Hinit.
  generalize dependent (Mwc.seededRandom seed). intros g0 Hinit.
  destruct (init_layers Mwc.next sizes g0) as [[ws bs] g].
  cbn [fst snd] in *. injection Hinit as -> ->. split; reflexivity.
Qed.

(** C2 as stated fails: with the seed 2413899924 the first draw that the
    constructor takes as [u1] is exactly [0], the logarithm is taken at
    [0], and the first weight of [new Network([2, 4, 1], 2413899924)] is
    infinite. *)
Lemma constructor_takes_log_of_zero :
  draw 2413899924 0 = 0%float
  /\ weight_at (@new ReferenceMath.lib [2; 4; 1] (Some 2413899924%float) (fun _ => 0%float))
       0 0 0 = Some neg_infinity.
Proof. vm_compute. repeat split; reflexivity. Qed.

(** ** [forward] on a shaped network *)

Lemma accumulate_throws (activation : vector) (w : matrix) (z : vector) :
  length w < length activation -> accumulate activation w z = Throw TypeError.
Proof.
  revert w z. induction activation as [|a activation IH]; intros w z Hlen; simpl in *; [lia|].
  destruct w as [|row w]; [done|]. apply IH. simpl in Hlen. lia.
Qed.

Lemma accumulate_normal (m : nat) (activation : vector) (w : matrix) (z : vector) :
  length activation <= length w ->
  Forall (fun row : vector => length row = m) w ->
  length z = m ->
  exists z', accumulate activation w z = Normal z' /\ length z' = m.
Proof.
  revert w z. induction activation as [|a activation IH]; intros w z Hlen Hrows Hz; simpl in *.
  - by exists z.
  - destruct w as [|row w]; simpl in *; [lia|].
    apply Forall_cons in Hrows as [Hrow Hrows].
    apply IH; [lia|done|]. rewrite add_into_length, length_fmap. lia.
Qed.

Lemma linear_normal (m : nat) (w : matrix) (b activation : vector) :
  1 <= length w -> length activation <= length w ->
  Forall (fun row : vector => length row = m) w -> length b = m ->
  exists z, linear w (Some b) activation = Normal z /\ length z = m.
Proof.
  intros Hw Hlen Hrows Hb. unfold linear. destruct w as [|w0 w'] eqn:Ew; simpl in Hw; [lia|].
  rewrite <- Ew in *.
  assert (length w0 = m) as Hw0.
  { rewrite Ew in Hrows. by apply Forall_cons in Hrows as [? _]. }
  destruct (accumulate_normal m activation w (replicate (length w0) 0%float))
    as (z & -> & Hz); [done|done|by rewrite length_replicate|].
  eexists. split; [done|]. rewrite add_into_length. lia.
Qed.

(** What a normal run of [forward] leaves in the object. *)
Record ran_forward (sizes : list nat) (net : Network.t) (x out : vector)
    (net' : Network.t) : Prop := {
  fw_layerSizes : layerSizes net' = layerSizes net;
  fw_weights : weights net' = weights net;
  fw_biases : biases net' = biases net;
  fw_weightGrads : weightGrads net' = weightGrads net;
  fw_biasGrads : biasGrads net' = biasGrads net;
  fw_pre_count : length (preActivations net') = length (weights net);
  fw_pre : forall j p, preActivations net' !! j = Some p -> length p = width sizes (S j);
  fw_act_count : length (activations net') = S (length (weights net));
  fw_input : activations net' !! 0 = Some x;
  fw_act : forall j a, 1 <= j -> activations net' !! j = Some a -> length a = width sizes j;
  fw_output : activations net' !! length (weights net) = Some out;
  fw_output_pre : 1 <= length (weights net) ->
    preActivations net' !! (length (weights net) - 1) = Some out
}.

(** The invariant of the loop of [forward] before the layer [k]. *)
Definition forward_inv (sizes : list nat) (net : Network.t) (x : vector) (k : nat)
    (st : vector * Network.t) : Prop :=
  let (activation, net') := st in
  (layerSizes net' = layerSizes net /\ weights net' = weights net
   /\ biases net' = biases net /\ weightGrads net' = weightGrads net
   /\ biasGrads net' = biasGrads net)
  /\ length (preActivations net') = k
  /\ (forall j p, preActivations net' !! j = Some p -> length p = width sizes (S j))
  /\ length (activations net') = S k
  /\ activations net' !! 0 = Some x
  /\ (forall j a, 1 <= j -> activations net' !! j = Some a -> length a = width sizes j)
  /\ activations net' !! k = Some activation
  /\ (1 <= k -> k = length (weights net) -> preActivations net' !! (k - 1) = Some activation).

Lemma forward_layer_step (sizes : list nat) (net : Network.t) (x : vector) (k : nat)
    (st : vector * Network.t) :
  shaped sizes (weights net) (biases net) ->
  passes sizes (length x) ->
  k < length (weights net) ->
  forward_inv sizes net x k st ->
  exists st', forward_layer k st = (Normal tt, st') /\ forward_inv sizes net x (S k) st'.
Proof.
  intros [Hlw Hlb Hm Hv] [Hpos Hfirst] Hk. destruct st as [activation net'].
  intros ((Hls & Hw & Hb & Hgw & Hgb) & Hpre_len & Hpre & Hact_len & Hact0 & Hact & Hlast & _).
  unfold forward_layer. rewrite Hw, Hb.
  destruct (lookup_lt_is_Some_2 (weights net) k) as [w Ew]; [lia|].
  destruct (lookup_lt_is_Some_2 (biases net) k) as [b Eb]; [lia|].
  rewrite Ew, Eb. destruct (Hm k w Ew) as [Hrows_n Hrows]. pose proof (Hv k b Eb) as Hblen.
  assert (length activation <= length w) as Hfit.
  { rewrite Hrows_n. destruct k as [|k'].
    - rewrite Hact0 in Hlast. injection Hlast as <-. apply Hfirst. lia.
    - rewrite (Hact (S k') activation); [done|lia|done]. }
  destruct (linear_normal (width sizes (S k)) w b activation) as (z & -> & Hz);
    [rewrite Hrows_n; apply Hpos; lia|done|done|done|].
  eexists. split; [reflexivity|]. simpl.
  set (activation' := if k =? length (weights net) - 1 then z
                      else (fun val => Math_max 0 val) <$> z).
  assert (length activation' = width sizes (S k)) as Hlen'.
  { unfold activation'. destruct (k =? _); [done|by rewrite length_fmap]. }
  repeat split; try done.
  - rewrite length_app. simpl. lia.
  - intros j p [[_ Hj]|[-> <-]]%lookup_snoc_Some; [by apply Hpre|]. by rewrite Hpre_len.
  - rewrite length_app. simpl. lia.
  - rewrite lookup_app, Hact0. done.
  - intros j a Hj [[_ Ha]|[-> <-]]%lookup_snoc_Some; [by apply Hact|]. by rewrite Hact_len.
  - apply lookup_snoc_Some. right. split; [lia|done].
  - intros _ HSk. apply lookup_snoc_Some. right. split; [lia|].
    unfold activation'. by rewrite (proj2 (Nat.eqb_eq k (length (weights net) - 1))) by lia.
Qed.

Lemma forward_normal (sizes : list nat) (net : Network.t) (x : vector) :
  shaped sizes (weights net) (biases net) ->
  passes sizes (length x) ->
  exists out net', forward net x = (Normal out, net') /\ ran_forward sizes net x out net'.
Proof.
  intros Hshaped Hpasses. unfold forward.
  destruct (for_each_seq_normal forward_layer (forward_inv sizes net x)
              (length (weights net)) 0
              (spread x, set_preActivations [] (set_activations [x] net)))
    as ([out net'] & -> & Hinv).
  - intros i st Hi. apply forward_layer_step; [done|done|lia].
  - rewrite spread_id. simpl. repeat split; try done.
    + intros [|j] a Hj; [lia|]. done.
    + lia.
  - exists out, net'. split; [done|]. simpl in Hinv.
    destruct Hinv as ((? & ? & ? & ? & ?) & ? & ? & ? & ? & ? & ? & Hout).
    split; try done. intros HL. apply Hout; [done|done].
Qed.

Lemma forward_no_row (net : Network.t) (x : vector) (w : matrix) :
  weights net !! 0 = Some w ->
  length w < length x ->
  (forward net x).1 = Throw TypeError.
Proof.
  intros Ew Hx. unfold forward.
  destruct (length (weights net)) as [|L] eqn:EL.
  { apply lookup_lt_Some in Ew. lia. }
  cbn [seq for_each]. unfold forward_layer at 1. simpl. rewrite Ew.
  assert (linear w (biases net !! 0) (spread x) = Throw TypeError) as ->; [|done].
  unfold linear. destruct w as [|w0 w']; [done|].
  rewrite accumulate_throws; [done|]. by rewrite spread_id.
Qed.

(** ** [backward] and [step] in a training cycle *)

(** The gradients that [step] reads are there: for every connection, a
    gradient matrix with a row for every row of the weights, and a bias
    gradient. *)
Definition gradients_ready (sizes : list nat) (net : Network.t) : Prop :=
  forall i, S i < length sizes ->
    exists g gb, weightGrads net !! i = Some g /\ width sizes i <= length g
                 /\ biasGrads net !! i = Some (Some gb).

Lemma outer_into_normal (activationIn delta : vector) (g : matrix) :
  length activationIn <= length g ->
  exists g', outer_into activationIn delta g = (Normal tt, g') /\ length g' = length g.
Proof.
  revert g. induction activationIn as [|a activationIn IH]; intros g Hlen; simpl in *.
  - by exists g.
  - destruct delta as [|d delta]; [by exists g|].
    destruct g as [|row g]; simpl in *; [lia|].
    destruct (IH g) as (g' & Hrun & Hg'); [lia|].
    simpl in Hrun. rewrite Hrun. eexists. split; [done|]. simpl. by rewrite Hg'.
Qed.

Lemma back_product_normal (activationIn delta : vector) (w : matrix) :
  length activationIn <= length w ->
  exists d, back_product activationIn w delta = Normal d /\ length d = length activationIn.
Proof.
  revert w. induction activationIn as [|a activationIn IH]; intros w Hlen; simpl in *.
  - by exists [].
  - destruct delta as [|d0 delta].
    + eexists. split; [done|]. simpl. by rewrite length_replicate.
    + destruct w as [|row w]; simpl in *; [lia|].
      destruct (IH w) as (d & Hrun & Hd); [lia|].
      simpl in Hrun. rewrite Hrun. eexists. split; [done|]. simpl. by rewrite Hd.
Qed.

Lemma js_set_in_range {A : Type} (i : nat) (v : A) (a : list (option A)) :
  i < length a -> js_set i v a = <[i := Some v]> a.
Proof. intros Hi. unfold js_set. by rewrite (proj2 (Nat.ltb_lt i (length a)) Hi). Qed.

Section Cycle.
Context `{MathLib}.

(** The invariant of the loop of [backward] when the layers from [n] on are
    done, on the object [net1] that [forward] left. *)
Definition backward_inv (sizes : list nat) (net1 : Network.t) (n : nat)
    (st : vector * Network.t) : Prop :=
  let (delta, net') := st in
  same_forward_fields net' net1
  /\ length (weightGrads net') = length (weights net1)
  /\ (forall i g, weightGrads net' !! i = Some g -> length g = width sizes i)
  /\ length (biasGrads net') = length (weights net1)
  /\ (forall i gb, biasGrads net' !! i = Some gb -> is_Some gb).

Lemma backward_layer_step (sizes : list nat) (net net1 : Network.t) (x out : vector)
    (i : nat) (st : vector * Network.t) :
  shaped sizes (weights net) (biases net) ->
  passes sizes (length x) ->
  ran_forward sizes net x out net1 ->
  i < length (weights net) ->
  backward_inv sizes net1 (S i) st ->
  exists st', backward_layer i st = (Normal tt, st') /\ backward_inv sizes net1 i st'.
Proof.
  intros [Hlw Hlb Hm Hv] [Hpos Hfirst] Hfw Hi. destruct st as [delta net'].
  intros ((Hls & Hw & Hb & Hpre & Hact) & Hgw_len & Hgw & Hgb_len & Hgb).
  destruct Hfw as [_ Hw1 _ _ _ Hpre_n _ Hact_n Hact0 Hact_j _ _].
  unfold backward_layer. rewrite Hact.
  destruct (lookup_lt_is_Some_2 (activations net1) i) as [a Ea]; [lia|]. rewrite Ea.
  destruct (lookup_lt_is_Some_2 (weightGrads net') i) as [g Eg]; [rewrite Hgw_len, Hw1; lia|].
  rewrite Eg. simpl.
  assert (length a <= width sizes i) as Ha.
  { destruct i as [|i'].
    - rewrite Hact0 in Ea. injection Ea as <-. apply Hfirst. lia.
    - rewrite (Hact_j (S i') a); [done|lia|done]. }
  destruct (outer_into_normal a delta g) as (g' & -> & Hg'); [by rewrite (Hgw i g Eg)|].
  assert (backward_inv sizes net1 i
            (delta, set_biasGrads (js_set i (spread delta)
                      (biasGrads (set_weightGrads (<[i:=g']> (weightGrads net')) net')))
                      (set_weightGrads (<[i:=g']> (weightGrads net')) net'))) as Hinv.
  { simpl. rewrite js_set_in_range by (rewrite Hgb_len, Hw1; lia).
    repeat split; try done.
    - by rewrite length_insert.
    - intros j gj [[<- [<- _]]|[_ Hj]]%list_lookup_insert_Some.
      + by rewrite Hg', (Hgw i g Eg).
      + by apply (Hgw j).
    - by rewrite length_insert.
    - intros j gb [[<- [<- _]]|[_ Hj]]%list_lookup_insert_Some; [done|]. by apply (Hgb j). }
  destruct (0 <? i) eqn:Ei; [|by eexists].
  apply Nat.ltb_lt in Ei. unfold back_delta. simpl. rewrite Hw, Hpre, Hw1.
  destruct (lookup_lt_is_Some_2 (weights net) i) as [w Ew]; [lia|]. rewrite Ew. simpl.
  destruct (back_product_normal a delta w) as (d & -> & Hd).
  { destruct (Hm i w Ew) as [-> _]. done. }
  destruct (lookup_lt_is_Some_2 (preActivations net1) (i - 1)) as [p Ep]; [lia|].
  rewrite Ep. eexists. split; [done|]. destruct Hinv as (? & ? & ? & ? & ?). done.
Qed.

Lemma backward_normal (sizes : list nat) (net net1 : Network.t) (x out x' target : vector)
    (strength : number) :
  shaped sizes (weights net) (biases net) ->
  passes sizes (length x) ->
  ran_forward sizes net x out net1 ->
  exists net2, backward net1 x' target strength = (Normal tt, net2)
    /\ same_forward_fields net2 net1
    /\ gradients_ready sizes net2.
Proof.
  intros Hshaped Hpasses Hfw. unfold backward.
  pose proof Hshaped as [Hlw Hlb Hm Hv].
  pose proof Hfw as [_ Hw1 Hb1 _ _ _ _ _ _ _ _ _].
  match goal with |- context [for_each backward_layer _ ?s] => set (st0 := s) end.
  destruct (for_each_rev_normal backward_layer (backward_inv sizes net1)
              (length (weights net1)) st0) as ([delta net2] & -> & Hinv).
  - intros i st Hi. apply (backward_layer_step sizes net net1 x out); try done.
    by rewrite <- Hw1.
  - unfold st0. simpl. repeat split; try done.
    + by rewrite length_fmap.
    + intros i g. rewrite list_lookup_fmap, Hw1.
      destruct (weights net !! i) as [w|] eqn:Ew; [|done]. simpl. intros [= <-].
      rewrite length_fmap. by destruct (Hm i w Ew).
    + rewrite length_fmap, Hb1, Hw1. lia.
    + intros i gb. rewrite list_lookup_fmap. destruct (biases net1 !! i); [|done].
      simpl. by intros [= <-].
  - exists net2. split; [done|]. simpl in Hinv.
    destruct Hinv as (Hsame & Hgw_len & Hgw & Hgb_len & Hgb). split; [done|].
    intros i Hi.
    destruct (lookup_lt_is_Some_2 (weightGrads net2) i) as [g Eg]; [rewrite Hgw_len, Hw1; lia|].
    destruct (lookup_lt_is_Some_2 (biasGrads net2) i) as [gb Egb]; [rewrite Hgb_len, Hw1; lia|].
    destruct (Hgb i gb Egb) as [v ->].
    exists g, v. split; [done|]. split; [|done]. by rewrite (Hgw i g Eg).
Qed.

End Cycle.

Lemma step_matrix_normal (learningRate : number) (w g : matrix) :
  length w <= length g ->
  exists w', step_matrix learningRate w g = (Normal tt, w')
    /\ length w' = length w
    /\ forall m, Forall (fun row : vector => length row = m) w ->
                 Forall (fun row : vector => length row = m) w'.
Proof.
  revert g. induction w as [|row w IH]; intros g Hlen.
  - exists []. done.
  - cbn [step_matrix]. destruct row as [|r row].
    + destruct (IH (tl g)) as (w' & -> & Hw' & Hrows).
      { destruct g; simpl in *; lia. }
      eexists. split; [done|]. split; [simpl; by rewrite Hw'|].
      intros m [Hm Hall]%Forall_cons. constructor; [done|]. by apply Hrows.
    + destruct g as [|grow g]; [simpl in Hlen; lia|].
      destruct (IH g) as (w' & -> & Hw' & Hrows); [simpl in Hlen; lia|].
      eexists. split; [done|]. split; [simpl; by rewrite Hw'|].
      intros m [Hm Hall]%Forall_cons. constructor; [|by apply Hrows].
      by rewrite map_with_length.
Qed.

Lemma shaped_insert_weights (sizes : list nat) (ws : list matrix) (bs : list vector)
    (i : nat) (w w' : matrix) :
  shaped sizes ws bs -> ws !! i = Some w ->
  length w' = length w ->
  (forall m, Forall (fun row : vector => length row = m) w ->
             Forall (fun row : vector => length row = m) w') ->
  shaped sizes (<[i := w']> ws) bs.
Proof.
  intros [Hlw Hlb Hm Hv] Hw Hlen Hrows. split; try done.
  - by rewrite length_insert.
  - intros j wj [[<- [<- _]]|[_ Hj]]%list_lookup_insert_Some; [|by apply Hm].
    destruct (Hm i w Hw) as [Hn Hr]. split; [by rewrite Hlen|]. by apply Hrows.
Qed.

Lemma shaped_insert_biases (sizes : list nat) (ws : list matrix) (bs : list vector)
    (i : nat) (b b' : vector) :
  shaped sizes ws bs -> bs !! i = Some b -> length b' = length b ->
  shaped sizes ws (<[i := b']> bs).
Proof.
  intros [Hlw Hlb Hm Hv] Hb Hlen. split; try done.
  - by rewrite length_insert.
  - intros j bj [[<- [<- _]]|[_ Hj]]%list_lookup_insert_Some; [|by apply Hv].
    rewrite Hlen. by apply Hv.
Qed.

(** What [step] keeps when it ends normally. *)
Definition step_inv (sizes : list nat) (net net' : Network.t) : Prop :=
  shaped sizes (weights net') (biases net')
  /\ layerSizes net' = layerSizes net
  /\ weightGrads net' = weightGrads net
  /\ biasGrads net' = biasGrads net.

Lemma step_layer_normal (sizes : list nat) (learningRate : number) (net net' : Network.t)
    (i : nat) :
  gradients_ready sizes net -> S i < length sizes ->
  step_inv sizes net net' ->
  exists net'', step_layer learningRate i net' = (Normal tt, net'')
    /\ step_inv sizes net net''.
Proof.
  intros Hready Hi (Hshaped & Hls & Hgw & Hgb).
  pose proof Hshaped as [Hlw Hlb Hm Hv].
  destruct (Hready i Hi) as (g & gb & Eg & Hg & Egb).
  unfold step_layer.
  destruct (lookup_lt_is_Some_2 (weights net') i) as [w Ew]; [lia|]. rewrite Ew, Hgw, Eg. simpl.
  destruct (step_matrix_normal learningRate w g) as (w' & -> & Hw' & Hrows).
  { by destruct (Hm i w Ew) as [-> _]. }
  simpl.
  destruct (lookup_lt_is_Some_2 (biases net') i) as [b Eb]; [lia|]. rewrite Eb.
  pose proof (shaped_insert_weights sizes _ _ i w w' Hshaped Ew Hw' Hrows) as Hshaped'.
  destruct b as [|b0 b].
  - eexists. split; [done|]. done.
  - rewrite Hgb, Egb. eexists. split; [done|]. split; [|done].
    cbn [set_biases set_weights weights biases].
    apply (shaped_insert_biases sizes _ _ i (b0 :: b)); [done|done|].
    apply map_with_length.
Qed.

Lemma step_normal (sizes : list nat) (net : Network.t) (learningRate : number) :
  shaped sizes (weights net) (biases net) ->
  gradients_ready sizes net ->
  exists net', Network.step net learningRate = (Normal tt, net') /\ step_inv sizes net net'.
Proof.
  intros Hshaped Hready. unfold Network.step.
  destruct (for_each_seq_normal (step_layer learningRate) (fun _ => step_inv sizes net)
              (length (weights net)) 0 net) as (net' & Hrun & Hinv).
  - intros i net' Hi Hinv. apply (step_layer_normal sizes); [done| |done].
    destruct Hshaped as [Hlw _ _ _]. lia.
  - done.
  - by exists net'.
Qed.

(** ** The history of the orchestrator *)

Lemma trainingData_inputs (h : Hook) (d : DataPoint) :
  d ∈ trainingData h -> length (input d) = 2.
Proof.
  unfold trainingData, generateNoisyData.
  pose proof (generate_loop_points (numSamples h) (noiseLevel h) (dataSeed h) 0) as Heq.
  replace (3 * 0) with 0 in Heq by lia. rewrite iter_0 in Heq. rewrite Heq.
  intros (i & -> & _)%list_elem_of_fmap. reflexivity.
Qed.

Section Orchestrator.
Context `{MathLib}.

Lemma train_example_normal (sizes : list nat) (h : Hook) (d : DataPoint) (net : Network.t) :
  passes sizes (length (input d)) ->
  shaped sizes (weights net) (biases net) ->
  exists net', train_example h d net = (Normal tt, net')
    /\ shaped sizes (weights net') (biases net').
Proof.
  intros Hpasses Hshaped. unfold train_example.
  destruct (forward_normal sizes net (input d) Hshaped Hpasses) as (out & net1 & -> & Hfw).
  destruct (backward_normal sizes net net1 (input d) out (input d) (target d)
              (confidencePenalty h) Hshaped Hpasses Hfw)
    as (net2 & -> & (_ & Hw & Hb & _) & Hready).
  destruct (step_normal sizes net2 (learningRate h)) as (net3 & -> & Hshaped3 & _).
  - rewrite Hw, Hb. destruct Hfw as [_ -> -> _ _ _ _ _ _ _ _ _]. done.
  - done.
  - by exists net3.
Qed.

Lemma shaped_same_parameters (sizes : list nat) (net net' : Network.t) :
  same_parameters net' net -> shaped sizes (weights net) (biases net) ->
  shaped sizes (weights net') (biases net').
Proof. by intros [-> ->]. Qed.

Lemma train_loss_item_normal (sizes : list nat) (strength : number) (d : DataPoint)
    (net : Network.t) (st : number * Network.t) :
  passes sizes (length (input d)) ->
  shaped sizes (weights net) (biases net) ->
  same_parameters st.2 net ->
  exists st', train_loss_item strength d st = (Normal tt, st')
    /\ same_parameters st'.2 net.
Proof.
  destruct st as [total net0]. simpl. intros Hpasses Hshaped Hsame. unfold train_loss_item.
  pose proof (shaped_same_parameters sizes net net0 Hsame Hshaped) as Hshaped0.
  destruct (forward_normal sizes net0 (input d) Hshaped0 Hpasses) as (out & net1 & -> & Hfw).
  eexists. split; [done|]. unfold same_parameters in *. simpl.
  destruct Hsame as [Hw Hb], Hfw as [_ Hw1 Hb1 _ _ _ _ _ _ _ _ _]. split; congruence.
Qed.

Lemma computeTrainLoss_normal (sizes : list nat) (net : Network.t) (data : list DataPoint)
    (strength : number) :
  (forall d, d ∈ data -> passes sizes (length (input d))) ->
  shaped sizes (weights net) (biases net) ->
  exists loss net', computeTrainLoss net data strength = (Normal loss, net')
    /\ same_parameters net' net.
Proof.
  intros Hdata Hshaped. unfold computeTrainLoss.
  destruct (for_each_normal (train_loss_item strength)
              (fun st => same_parameters st.2 net) data (0%float, net))
    as ([total net'] & -> & Hsame).
  - intros d st Hd. apply (train_loss_item_normal sizes); [by apply Hdata|done].
  - done.
  - by eexists _, net'.
Qed.

Lemma clean_item_normal (sizes : list nat) (d : vector * vector) (net : Network.t)
    (st : number * Z * Network.t) :
  passes sizes (length d.1) ->
  shaped sizes (weights net) (biases net) ->
  same_parameters st.2 net ->
  exists st', clean_item d st = (Normal tt, st') /\ same_parameters st'.2 net.
Proof.
  destruct st as [[total correct] net0]. simpl. intros Hpasses Hshaped Hsame. unfold clean_item.
  pose proof (shaped_same_parameters sizes net net0 Hsame Hshaped) as Hshaped0.
  destruct (forward_normal sizes net0 d.1 Hshaped0 Hpasses) as (out & net1 & -> & Hfw).
  eexists. split; [done|]. unfold same_parameters in *. simpl.
  destruct Hsame as [Hw Hb], Hfw as [_ Hw1 Hb1 _ _ _ _ _ _ _ _ _]. split; congruence.
Qed.

Lemma computeCleanMetrics_normal (sizes : list nat) (net : Network.t) :
  passes sizes 2 ->
  shaped sizes (weights net) (biases net) ->
  exists metrics net', computeCleanMetrics net = (Normal metrics, net')
    /\ same_parameters net' net.
Proof.
  intros Hpasses Hshaped. unfold computeCleanMetrics.
  destruct (for_each_normal clean_item
              (fun st => same_parameters st.2 net) CLEAN_XOR (0%float, 0%Z, net))
    as ([[total correct] net'] & -> & Hsame).
  - intros d st Hd. apply (clean_item_normal sizes); [|done].
    unfold CLEAN_XOR in Hd. repeat (apply elem_of_cons in Hd as [->|Hd]; [done|]).
    by apply elem_of_nil in Hd.
  - done.
  - by eexists _, net'.
Qed.

(** The snapshots of a history hold parameters of the shapes of the
    topology. *)
Definition snapshots_shaped (sizes : list nat) (st : TrainingState) : Prop :=
  forall i s, steps st !! i = Some s ->
    shaped sizes (NetworkState.weights (state s)) (NetworkState.biases (state s)).

Lemma getState_shaped (sizes : list nat) (net : Network.t) :
  shaped sizes (weights net) (biases net) ->
  shaped sizes (NetworkState.weights (getState net)) (NetworkState.biases (getState net)).
Proof. unfold getState. simpl. by rewrite copy_matrices_id, copy_vectors_id. Qed.

Lemma createInitialState_normal (h : Hook) (seed : option number) (rnd : entropy) :
  passes (initialLayerSizes h) 2 ->
  exists st0 s0, createInitialState h seed rnd = Normal st0
    /\ steps st0 = [s0] /\ step s0 = 0%Z /\ currentStep st0 = 0%Z
    /\ NetworkState.weights (state s0) = weights (new (initialLayerSizes h) seed rnd)
    /\ NetworkState.biases (state s0) = biases (new (initialLayerSizes h) seed rnd)
    /\ snapshots_shaped (initialLayerSizes h) st0.
Proof.
  intros Hpasses. unfold createInitialState.
  pose proof (new_shaped (initialLayerSizes h) seed rnd) as Hshaped.
  set (net := new (initialLayerSizes h) seed rnd) in *.
  assert (forall d, d ∈ trainingData h -> passes (initialLayerSizes h) (length (input d))) as Hdata.
  { intros d Hd. by rewrite (trainingData_inputs h d Hd). }
  destruct (computeTrainLoss_normal (initialLayerSizes h) net (trainingData h)
              (confidencePenalty h) Hdata Hshaped) as (loss & net1 & -> & Hsame1).
  pose proof (shaped_same_parameters _ _ _ Hsame1 Hshaped) as Hshaped1.
  destruct (computeCleanMetrics_normal (initialLayerSizes h) net1 Hpasses Hshaped1)
    as ([cleanLoss acc] & net2 & -> & Hsame2).
  pose proof (shaped_same_parameters _ _ _ Hsame2 Hshaped1) as Hshaped2.
  eexists _, _. split; [done|]. cbn [steps step state currentStep].
  destruct Hsame1 as [Hw1 Hb1], Hsame2 as [Hw2 Hb2].
  split_and!; try done.
  - unfold getState. cbn [NetworkState.weights]. by rewrite copy_matrices_id, Hw2, Hw1.
  - unfold getState. cbn [NetworkState.biases]. by rewrite copy_vectors_id, Hb2, Hb1.
  - intros i s [-> <-]%list_lookup_singleton_Some. cbn [state]. by apply getState_shaped.
Qed.

(** The state of the orchestrator after [n] advances from the initial
    state: [n + 1] snapshots numbered by their positions, the last one
    current. *)
Definition history_inv (sizes : list nat) (n : nat) (st : TrainingState) : Prop :=
  length (steps st) = S n
  /\ currentStep st = Z.of_nat n
  /\ (forall i s, steps st !! i = Some s -> step s = Z.of_nat i)
  /\ snapshots_shaped sizes st.

Lemma epoch_normal (sizes : list nat) (h : Hook) (net : Network.t) :
  passes sizes 2 ->
  shaped sizes (weights net) (biases net) ->
  exists net', for_each (train_example h) (trainingData h) net = (Normal tt, net')
    /\ shaped sizes (weights net') (biases net').
Proof.
  intros Hpasses Hshaped.
  apply (for_each_normal (train_example h)
           (fun net => shaped sizes (weights net) (biases net))); [|done].
  intros d net0 Hd. apply train_example_normal. by rewrite (trainingData_inputs h d Hd).
Qed.

Lemma trainStep_normal (h : Hook) (rnd : entropy) (n : nat) (prev : TrainingState) :
  passes (initialLayerSizes h) 2 ->
  history_inv (initialLayerSizes h) n prev ->
  exists next s, trainStep h rnd prev = Normal next
    /\ steps next = steps prev ++ [s]
    /\ history_inv (initialLayerSizes h) (S n) next.
Proof.
  intros Hpasses (Hlen & Hcur & Hnum & Hsnap). unfold trainStep.
  destruct (js_index_in_range (steps prev) (currentStep prev)) as (s & Hs & ->); [lia|].
  set (net := setState _ (state s)).
  assert (shaped (initialLayerSizes h) (weights net) (biases net)) as Hshaped.
  { unfold net, setState. cbn [weights biases].
    rewrite copy_matrices_id, copy_vectors_id. by apply (Hsnap _ s Hs). }
  destruct (epoch_normal (initialLayerSizes h) h net Hpasses Hshaped) as (net1 & -> & Hshaped1).
  assert (forall d, d ∈ trainingData h -> passes (initialLayerSizes h) (length (input d))) as Hdata.
  { intros d Hd. by rewrite (trainingData_inputs h d Hd). }
  destruct (computeTrainLoss_normal (initialLayerSizes h) net1 (trainingData h)
              (confidencePenalty h) Hdata Hshaped1) as (loss & net2 & -> & Hsame2).
  pose proof (shaped_same_parameters _ _ _ Hsame2 Hshaped1) as Hshaped2.
  destruct (computeCleanMetrics_normal (initialLayerSizes h) net2 Hpasses Hshaped2)
    as ([cleanLoss acc] & net3 & -> & Hsame3).
  eexists _, _. split; [done|]. cbn [steps currentStep]. split; [done|].
  unfold history_inv. cbn [steps currentStep]. split_and!.
  - rewrite length_app. simpl. lia.
  - lia.
  - intros i s' [[_ Hi]|[-> <-]]%lookup_snoc_Some; [by apply Hnum|]. cbn [step]. lia.
  - intros i s' [[_ Hi]|[-> <-]]%lookup_snoc_Some; [by apply (Hsnap i)|].
    cbn [state]. by apply getState_shaped.
Qed.

Lemma advance_normal (h : Hook) (rnd : nat -> entropy) (n : nat) (st0 : TrainingState) :
  passes (initialLayerSizes h) 2 ->
  history_inv (initialLayerSizes h) 0 st0 ->
  exists stn, advance h rnd n st0 = Normal stn
    /\ history_inv (initialLayerSizes h) n stn
    /\ forall m, m <= n ->
         exists stm, advance h rnd m st0 = Normal stm
           /\ steps stm = take (S m) (steps stn).
Proof.
  intros Hpasses Hinv0. induction n as [|n (stn & Hrun & Hinv & Hprefix)].
  - exists st0. split; [done|]. split; [done|]. intros m Hm. replace m with 0 by lia.
    exists st0. split; [done|]. destruct Hinv0 as (Hlen & _).
    by rewrite take_ge by lia.
  - cbn [advance]. rewrite Hrun.
    destruct (trainStep_normal h (rnd n) n stn Hpasses Hinv) as (next & s & Hnext & Hsteps & Hinv').
    exists next. split; [done|]. split; [done|]. intros m Hm.
    destruct (decide (m = S n)) as [->|Hne].
    + exists next. cbn [advance]. rewrite Hrun. split; [done|].
      destruct Hinv' as (Hlen & _). by rewrite take_ge by lia.
    + destruct (Hprefix m) as (stm & Hrunm & Hstepsm); [lia|].
      exists stm. split; [done|]. rewrite Hstepsm, Hsteps.
      destruct Hinv as (Hlen & _). by rewrite take_app_le by lia.
Qed.

End Orchestrator.

Lemma passes_default (k : nat) : k <= 2 -> passes [2; 4; 1] k.
Proof.
  intros Hk. split.
  - intros [|[|i]] Hi; simpl in *; unfold width; simpl; lia.
  - intros _. unfold width. simpl. lia.
Qed.

Section History.
Context `{MathLib}.

(** C4. With a topology that the samples pass through (no empty layer
    before the output, at least two input nodes), the initial state
    exists, and its history is the single snapshot numbered 0 of the
    parameters of the network just constructed, with current index 0.
    After [n] advances from it the history has [n + 1] snapshots, the
    snapshot at position [i] is numbered [i], the current index is [n], and
    the history after [m <= n] advances is the first [m + 1] snapshots of
    the history after [n]: advancing only appends. *)
Theorem history_grows (h : Hook) (seed : option number) (rnd0 : entropy)
    (rnd : nat -> entropy) (n : nat) :
  passes (initialLayerSizes h) 2 ->
  exists (st0 : TrainingState) (s0 : TrainingStep) (stn : TrainingState),
    createInitialState h seed rnd0 = Normal st0
    /\ steps st0 = [s0] /\ step s0 = 0%Z /\ currentStep st0 = 0%Z
    /\ NetworkState.weights (state s0) = weights (new (initialLayerSizes h) seed rnd0)
    /\ NetworkState.biases (state s0) = biases (new (initialLayerSizes h) seed rnd0)
    /\ advance h rnd n st0 = Normal stn
    /\ length (steps stn) = S n
    /\ currentStep stn = Z.of_nat n
    /\ (forall i s, steps stn !! i = Some s -> step s = Z.of_nat i)
    /\ (forall m, m <= n ->
          exists stm, advance h rnd m st0 = Normal stm
            /\ steps stm = take (S m) (steps stn)).
Proof.
  intros Hpasses.
  destruct (createInitialState_normal h seed rnd0 Hpasses)
    as (st0 & s0 & Hinit & Hsteps & Hstep & Hcur & Hw & Hb & Hsnap).
  assert (history_inv (initialLayerSizes h) 0 st0) as Hinv0.
  { unfold history_inv. rewrite Hsteps. split_and!; try done.
    intros i s [-> <-]%list_lookup_singleton_Some. done. }
  destruct (advance_normal h rnd n st0 Hpasses Hinv0)
    as (stn & Hrun & (Hlen & Hcurn & Hnum & _) & Hprefix).
  exists st0, s0, stn. split_and!; done.
Qed.

End History.

Lemma history_grows_witness :
  passes (initialLayerSizes default_hook) 2
  /\ exists (st0 : TrainingState) (s0 : TrainingStep) (stn : TrainingState),
       @createInitialState ReferenceMath.lib default_hook (Some 123%float) (fun _ => 0.5%float)
         = Normal st0
       /\ steps st0 = [s0] /\ step s0 = 0%Z /\ currentStep st0 = 0%Z
       /\ NetworkState.weights (state s0)
          = weights (@new ReferenceMath.lib [2; 4; 1] (Some 123%float) (fun _ => 0.5%float))
       /\ NetworkState.biases (state s0)
          = biases (@new ReferenceMath.lib [2; 4; 1] (Some 123%float) (fun _ => 0.5%float))
       /\ @advance ReferenceMath.lib default_hook (fun _ _ => 0.5%float) 3 st0 = Normal stn
       /\ length (steps stn) = 4
       /\ currentStep stn = 3%Z
       /\ (forall i s, steps stn !! i = Some s -> step s = Z.of_nat i)
       /\ (forall m, m <= 3 ->
             exists stm, @advance ReferenceMath.lib default_hook (fun _ _ => 0.5%float) m st0
                           = Normal stm
               /\ steps stm = take (S m) (steps stn)).
Proof.
  split; [apply passes_default; lia|].
  apply (@history_grows ReferenceMath.lib default_hook (Some 123%float) (fun _ => 0.5%float)
           (fun _ _ => 0.5%float) 3).
  apply passes_default. lia.
Defined.

(** ** Inputs of the wrong length *)

(** C3, as the code has it. [forward] does not compare the length of its
    input with the width of the input layer: what the input meets is the
    first weight matrix. On every engine, an input with more entries than
    the first weight matrix has rows makes [forward] throw a [TypeError]
    (there is no row for the extra entries). So, on an engine with at
    least one connection whose weights and biases have the shapes of its
    topology, as the constructor builds them, an input longer than the
    input layer makes [forward] throw a [TypeError]; an input shorter than
    the input layer is not rejected: when moreover no layer before the
    output is empty, the call returns normally an output of the width of
    the output layer, having stored the short input as it is. *)
Theorem forward_length_mismatch (net : Network.t) (x : vector) :
  (forall w, weights net !! 0 = Some w -> length w < length x ->
     (forward net x).1 = Throw TypeError)
  /\ (shaped (layerSizes net) (weights net) (biases net) ->
      2 <= length (layerSizes net) ->
      (width (layerSizes net) 0 < length x -> (forward net x).1 = Throw TypeError)
      /\ (length x < width (layerSizes net) 0 ->
          (forall i, S i < length (layerSizes net) -> 1 <= width (layerSizes net) i) ->
          exists out net',
            forward net x = (Normal out, net')
            /\ length out = width (layerSizes net) (length (layerSizes net) - 1)
            /\ activations net' !! 0 = Some x)).
Proof.
  split.
  - intros w Ew Hx. by apply (forward_no_row net x w).
  - intros Hshaped Hsizes. split.
    + intros Hx. destruct Hshaped as [Hlw _ Hm _].
      destruct (lookup_lt_is_Some_2 (weights net) 0) as [w Ew]; [lia|].
      apply (forward_no_row net x w Ew). destruct (Hm 0 w Ew) as [-> _]. done.
    + intros Hx Hpos.
      destruct (forward_normal (layerSizes net) net x Hshaped) as (out & net' & Hrun & Hfw).
      { split; [done|]. lia. }
      exists out, net'. split; [done|].
      destruct Hshaped as [Hlw _ _ _].
      destruct Hfw as [_ _ _ _ _ _ _ _ Hin Hact Hout _]. split; [|done].
      rewrite <- Hlw. apply Hact; [lia|done].
Qed.

Lemma forward_length_mismatch_witness :
  (forward widened_network [1; 1; 1]%float).1 = Throw TypeError
  /\ (forward xor_network [1; 0; 1]%float).1 = Throw TypeError
  /\ exists out net', forward xor_network [1%float] = (Normal out, net')
       /\ length out = 1 /\ activations net' !! 0 = Some [1%float].
Proof.
  split.
  - apply (proj1 (forward_length_mismatch widened_network [1; 1; 1]%float)
             [[1%float]; [2%float]]); [reflexivity|simpl; lia].
  - set (net := xor_network).
    assert (shaped (layerSizes net) (weights net) (biases net)) as Hshaped.
    { apply (@new_shaped ReferenceMath.lib). }
    assert (2 <= length (layerSizes net)) as Hsizes by (vm_compute; lia).
    split.
    + apply (proj2 (forward_length_mismatch net [1; 0; 1]%float) Hshaped Hsizes).
      vm_compute. lia.
    + apply (proj2 (forward_length_mismatch net [1%float]) Hshaped Hsizes).
      * vm_compute. lia.
      * intros i Hi. apply (passes_default 0); [lia|done].
Defined.

(** The shapes are a condition of the second part: [setState] installs
    matrices of any shape, and on [widened_network], whose input layer has
    one node and whose first weight matrix has two rows, [forward([1, 1])]
    returns [[3]]. *)
Lemma forward_on_widened_network :
  layerSizes widened_network = [1; 1]
  /\ (forward widened_network [1; 1]%float).1 = Normal [3%float].
Proof. vm_compute. split; reflexivity. Qed.

(** C3 as stated fails: on [new Network([2, 4, 1], 123)], whose input layer
    has two nodes, [forward([1])] does not fail. *)
Lemma forward_accepts_short_input :
  threw (forward xor_network [1%float]).1 = false.
Proof. vm_compute. reflexivity. Qed.

(** ** The gradients that [backward] computes *)

Lemma error_signals_cons (w0 w : matrix) (ws : list matrix) (pres : list vector)
    (output : vector) :
  error_signals (w0 :: w :: ws) pres output
  = zip_with (fun d r => d * r)%float
      (weighted w (hd [] (error_signals (w :: ws) (tail pres) output)))
      (Functions.reluDerivative <$> hd [] pres)
      :: error_signals (w :: ws) (tail pres) output.
Proof. reflexivity. Qed.

Lemma error_signals_length (ws : list matrix) (pres : list vector) (output : vector) :
  length (error_signals ws pres output) = length ws.
Proof.
  revert pres. induction ws as [|w0 ws IH]; intros pres; [done|].
  destruct ws as [|w ws]; [done|]. rewrite error_signals_cons. cbn [length]. by rewrite IH.
Qed.

Lemma error_signals_last (ws : list matrix) (pres : list vector) (output : vector) :
  1 <= length ws ->
  error_signals ws pres output !! (length ws - 1) = Some output.
Proof.
  revert pres. induction ws as [|w0 ws IH]; intros pres Hlen; simpl in Hlen; [lia|].
  destruct ws as [|w ws]; [done|]. rewrite error_signals_cons.
  specialize (IH (tail pres)). cbn [length] in *.
  replace (S (S (length ws)) - 1) with (S (S (length ws) - 1)) by lia.
  change ((?a :: ?l) !! S ?i) with (l !! i). apply IH. lia.
Qed.

Lemma hd_lookup {A : Type} (l : list A) (d x : A) : l !! 0 = Some x -> hd d l = x.
Proof. destruct l; [done|]. simpl. by intros [= ->]. Qed.

Lemma error_signals_step (ws : list matrix) (pres : list vector) (output : vector)
    (i : nat) (w : matrix) (p d : vector) :
  ws !! S i = Some w -> pres !! i = Some p ->
  error_signals ws pres output !! S i = Some d ->
  error_signals ws pres output !! i
  = Some (zip_with (fun d r => d * r)%float (weighted w d) (Functions.reluDerivative <$> p)).
Proof.
  revert pres i. induction ws as [|w0 ws IH]; intros pres i Hw Hp Hd; [done|].
  destruct ws as [|w1 ws]; [done|]. rewrite error_signals_cons in *.
  set (rest := error_signals (w1 :: ws) (tail pres) output) in *.
  destruct i as [|i].
  - change (rest !! 0 = Some d) in Hd. change (Some w1 = Some w) in Hw.
    injection Hw as ->. rewrite (hd_lookup rest [] d Hd), (hd_lookup pres [] p Hp). done.
  - change (rest !! S i = Some d) in Hd.
    change ((?a :: rest) !! S i) with (rest !! i).
    apply IH; [done| |done]. by destruct pres.
Qed.

Lemma map_with_zip_with (f : number -> number -> number) (l other : vector) :
  length l <= length other -> map_with f l other = zip_with f l other.
Proof.
  revert other. induction l as [|a l IH]; intros [|b other] Hlen; simpl in *; try done; [lia|].
  rewrite IH by lia. done.
Qed.

Lemma dot_into_dot (delta row : vector) (acc : number) :
  length delta <= length row ->
  dot_into delta row acc = foldl (fun acc p => acc + p.1 * p.2)%float acc (zip delta row).
Proof.
  revert row acc. induction delta as [|d delta IH]; intros [|r row] acc Hlen; simpl in *;
    try done; [lia|].
  apply IH. lia.
Qed.

Lemma set_prefix_all (vals row : vector) :
  length row = length vals -> set_prefix vals row = vals.
Proof.
  intros Hlen. unfold set_prefix. rewrite drop_ge by lia. apply app_nil_r.
Qed.

Lemma outer_into_exact (a delta : vector) (g : matrix) :
  length g = length a ->
  Forall (fun row : vector => length row = length delta) g ->
  outer_into a delta g = (Normal tt, outer a delta).
Proof.
  revert g. induction a as [|a0 a IH]; intros g Hlen Hrows.
  - destruct g; [done|simpl in Hlen; lia].
  - destruct g as [|row g]; [simpl in Hlen; lia|].
    apply Forall_cons in Hrows as [Hrow Hrows]. simpl in Hlen.
    cbn [outer_into]. destruct delta as [|d delta].
    + unfold outer. cbn [fmap list_fmap]. f_equal.
      destruct row; [|simpl in Hrow; lia]. f_equal.
      specialize (IH g ltac:(lia) Hrows). destruct a; [by destruct g|].
      cbn [outer_into] in IH. by injection IH.
    + set (dl := d :: delta) in *. rewrite (IH g) by (done || lia).
      rewrite set_prefix_all by (by rewrite length_fmap). done.
Qed.

Lemma dot_nil (row : vector) : dot [] row = 0%float.
Proof. done. Qed.

Lemma back_product_exact (a delta : vector) (w : matrix) :
  length w = length a ->
  Forall (fun row : vector => length delta <= length row) w ->
  back_product a w delta = Normal (weighted w delta).
Proof.
  revert w. induction a as [|a0 a IH]; intros w Hlen Hrows.
  - destruct w; [done|simpl in Hlen; lia].
  - destruct w as [|row w]; [simpl in Hlen; lia|].
    apply Forall_cons in Hrows as [Hrow Hrows]. simpl in Hlen.
    cbn [back_product]. destruct delta as [|d delta].
    + f_equal. unfold weighted. cbn [fmap list_fmap length replicate]. f_equal.
      specialize (IH w ltac:(lia) Hrows). destruct a.
      * by destruct w.
      * cbn [back_product] in IH. by injection IH.
    + set (dl := d :: delta) in *. rewrite (IH w) by (done || lia).
      rewrite dot_into_dot by done. done.
Qed.

Lemma output_delta_signals `{MathLib} (s : number) (target z : vector) :
  length target <= length z ->
  output_delta (Functions.sigmoid z) target s = output_signals s target z.
Proof.
  unfold output_delta, output_signals, Functions.sigmoid.
  revert z. induction target as [|y target IH]; intros [|z0 z] Hlen; simpl in *;
    try done; [lia|].
  f_equal. apply IH. lia.
Qed.

Section Gradients.
Context `{MathLib}.
Context (sizes : list nat) (net net1 : Network.t) (x out target : vector) (strength : number).
Hypothesis shaped_net : shaped sizes (weights net) (biases net).
Hypothesis connected : 2 <= length sizes.
Hypothesis input_fits : length x = width sizes 0.
Hypothesis target_fits : length target = width sizes (length sizes - 1).
Hypothesis forwarded : ran_forward sizes net x out net1.

(** The error signals for the state that [forward] left. *)
Definition signals : list vector :=
  error_signals (weights net1) (preActivations net1) (output_signals strength target out).

Lemma connections : length (weights net) = length sizes - 1.
Proof using All. by destruct shaped_net. Qed.

Lemma signals_length : length signals = length (weights net).
Proof using All.
  unfold signals. rewrite error_signals_length. by destruct forwarded as [_ -> _ _ _ _ _ _ _ _ _ _].
Qed.

Lemma activation_length (i : nat) (a : vector) :
  activations net1 !! i = Some a -> length a = width sizes i.
Proof using All.
  destruct forwarded as [_ _ _ _ _ _ _ _ Hin Hact _ _]. destruct i as [|i].
  - rewrite Hin. by intros [= <-].
  - apply Hact. lia.
Qed.

Lemma output_length : length out = width sizes (length sizes - 1).
Proof using All.
  apply activation_length. rewrite <- connections. by destruct forwarded.
Qed.

Lemma signals_last :
  signals !! (length (weights net) - 1) = Some (output_signals strength target out).
Proof using All.
  unfold signals. pose proof connections as HL.
  destruct forwarded as [_ Hw _ _ _ _ _ _ _ _ _ _]. rewrite <- Hw.
  apply error_signals_last. rewrite Hw. lia.
Qed.

Lemma signals_step (i : nat) (w : matrix) (p d : vector) :
  weights net !! S i = Some w -> preActivations net1 !! i = Some p ->
  signals !! S i = Some d ->
  signals !! i
  = Some (zip_with (fun d r => d * r)%float (weighted w d) (Functions.reluDerivative <$> p)).
Proof using All.
  intros Hw Hp Hd. apply error_signals_step; [|done|done].
  by destruct forwarded as [_ -> _ _ _ _ _ _ _ _ _ _].
Qed.

Lemma signal_length (i : nat) (d : vector) :
  signals !! i = Some d -> length d = width sizes (S i).
Proof using All.
  intros Hd. pose proof connections as HL. pose proof signals_length as Hsl.
  pose proof (lookup_lt_Some _ _ _ Hd) as Hi.
  destruct (decide (S i = length (weights net))) as [Hlast|Hmid].
  - replace i with (length (weights net) - 1) in Hd by lia.
    rewrite signals_last in Hd. injection Hd as <-.
    unfold output_signals. rewrite length_zip_with, target_fits, output_length.
    replace (S i) with (length sizes - 1) by lia. lia.
  - destruct (lookup_lt_is_Some_2 signals (S i)) as [d' Hd']; [lia|].
    destruct (lookup_lt_is_Some_2 (weights net) (S i)) as [w Hw]; [lia|].
    destruct forwarded as [_ _ _ _ _ Hpre_n Hpre _ _ _ _ _].
    destruct (lookup_lt_is_Some_2 (preActivations net1) i) as [p Hp]; [lia|].
    rewrite (signals_step i w p d' Hw Hp Hd') in Hd. injection Hd as <-.
    pose proof shaped_net as [_ _ Hm _]. destruct (Hm (S i) w Hw) as [Hrows _].
    unfold weighted. rewrite length_zip_with, !length_fmap, Hrows, (Hpre i p Hp). lia.
Qed.

(** The invariant of the loop of [backward] when the connections from [n]
    on are done: their gradients are the outer products and the error
    signals, the gradients before [n] still have the shapes of the
    weights, and the current [delta] is the error signal of connection
    [n - 1]. *)
Definition gradients_inv (n : nat) (st : vector * Network.t) : Prop :=
  let (delta, net') := st in
  same_forward_fields net' net1
  /\ length (weightGrads net') = length (weights net)
  /\ length (biasGrads net') = length (weights net)
  /\ (forall i g, i < n -> weightGrads net' !! i = Some g ->
        length g = width sizes i
        /\ Forall (fun row : vector => length row = width sizes (S i)) g)
  /\ (forall i, n <= i ->
        weightGrads net' !! i = zip_with outer (activations net1) signals !! i)
  /\ (forall i, n <= i -> biasGrads net' !! i = (Some <$> signals) !! i)
  /\ (1 <= n -> signals !! (n - 1) = Some delta).

Lemma gradients_layer_step (i : nat) (st : vector * Network.t) :
  i < length (weights net) ->
  gradients_inv (S i) st ->
  exists st', backward_layer i st = (Normal tt, st') /\ gradients_inv i st'.
Proof using All.
  intros Hi. destruct st as [delta net'].
  intros ((Hls & Hw & Hb & Hpre & Hact) & Hgw_len & Hgb_len & Hzero & Hgw & Hgb & Hdelta).
  pose proof connections as HL.
  specialize (Hdelta ltac:(lia)). replace (S i - 1) with i in Hdelta by lia.
  pose proof (signal_length i delta Hdelta) as Hdelta_len.
  pose proof forwarded as [_ Hw1 _ _ _ Hpre_n Hpre1 Hact_n _ _ _ _].
  unfold backward_layer. rewrite Hact.
  destruct (lookup_lt_is_Some_2 (activations net1) i) as [a Ea]; [lia|]. rewrite Ea.
  pose proof (activation_length i a Ea) as Ha.
  destruct (lookup_lt_is_Some_2 (weightGrads net') i) as [g Eg]; [lia|].
  rewrite Eg. change (default [] (Some g)) with g.
  destruct (Hzero i g ltac:(lia) Eg) as [Hg Hrows].
  rewrite (outer_into_exact a delta g) by (by rewrite ?Hdelta_len; lia || done).
  cbn [biasGrads weightGrads set_weightGrads].
  rewrite js_set_in_range by lia. rewrite spread_id.
  set (net2 := set_biasGrads _ _).
  assert (forall delta', (1 <= i -> signals !! (i - 1) = Some delta') ->
            gradients_inv i (delta', net2)) as Hinv.
  { intros delta' Hdelta'. unfold net2. cbn. split_and!; try done.
    - by rewrite length_insert.
    - by rewrite length_insert.
    - intros j gj Hj. rewrite list_lookup_insert_ne by lia. apply Hzero. lia.
    - intros j Hj. destruct (decide (j = i)) as [->|Hne].
      + rewrite list_lookup_insert_eq by lia.
        rewrite lookup_zip_with, Ea, Hdelta. done.
      + rewrite list_lookup_insert_ne by done. apply Hgw. lia.
    - intros j Hj. destruct (decide (j = i)) as [->|Hne].
      + rewrite list_lookup_insert_eq by lia. by rewrite list_lookup_fmap, Hdelta.
      + rewrite list_lookup_insert_ne by done. apply Hgb. lia. }
  destruct (0 <? i) eqn:Ei.
  - apply Nat.ltb_lt in Ei. unfold back_delta.
    replace (weights net2) with (weights net) by (unfold net2; cbn; congruence).
    replace (preActivations net2) with (preActivations net1) by (unfold net2; cbn; congruence).
    destruct (lookup_lt_is_Some_2 (weights net) i) as [w Ew]; [lia|]. rewrite Ew. change (default [] (Some w)) with w.
    pose proof shaped_net as [_ _ Hm _]. destruct (Hm i w Ew) as [Hw_n Hw_rows].
    rewrite (back_product_exact a delta w).
    + destruct (lookup_lt_is_Some_2 (preActivations net1) (i - 1)) as [p Ep]; [lia|].
      rewrite Ep. eexists. split; [done|]. apply Hinv. intros _.
      rewrite (signals_step (i - 1) w p delta); [| |done|].
      * f_equal. rewrite map_with_zip_with; [done|].
        unfold weighted. rewrite !length_fmap, Hw_n.
        rewrite (Hpre1 (i - 1) p Ep). replace (S (i - 1)) with i by lia. done.
      * by replace (S (i - 1)) with i by lia.
      * by replace (S (i - 1)) with i by lia.
    + lia.
    + eapply Forall_impl; [exact Hw_rows|]. intros row ->. lia.
  - apply Nat.ltb_ge in Ei. eexists. split; [done|]. apply Hinv. lia.
Qed.

Lemma backward_exact (x' : vector) :
  exists net2,
    backward net1 x' target strength = (Normal tt, net2)
    /\ same_forward_fields net2 net1
    /\ weightGrads net2 = zip_with outer (activations net1) signals
    /\ biasGrads net2 = Some <$> signals.
Proof using All.
  pose proof connections as HL. pose proof signals_length as Hsl.
  pose proof forwarded as [_ Hw1 Hb1 _ _ Hpre_n Hpre1 Hact_n _ _ Hout _].
  pose proof shaped_net as [_ Hlb Hm Hv].
  pose proof output_length as Hout_len.
  unfold backward.
  assert (default [undefined_num] (last (activations net1)) = out) as ->.
  { rewrite last_lookup, Hact_n. cbn [pred]. by rewrite Hout. }
  assert (length target <= length out) as Hfit by (rewrite target_fits, Hout_len; lia).
  rewrite (output_delta_signals strength target out Hfit).
  match goal with |- context [for_each backward_layer _ ?s] => set (st0 := s) end.
  destruct (for_each_rev_normal backward_layer gradients_inv (length (weights net1)) st0)
    as ([delta net2] & -> & Hinv).
  - intros i st Hi. apply gradients_layer_step. by rewrite <- Hw1.
  - unfold st0. cbn. rewrite Hw1. split_and!; try done.
    + by rewrite length_fmap.
    + rewrite length_fmap, Hb1. lia.
    + intros i g Hi. rewrite list_lookup_fmap.
      destruct (weights net !! i) as [w|] eqn:Ew; [|done]. cbn. intros [= <-].
      destruct (Hm i w Ew) as [Hn Hrows]. rewrite length_fmap. split; [done|].
      apply Forall_fmap. eapply Forall_impl; [exact Hrows|].
      intros row Hrow. cbn. by rewrite length_replicate.
    + intros i Hi. rewrite (lookup_ge_None_2 (_ <$> _)) by (rewrite length_fmap; lia).
      symmetry. apply lookup_ge_None_2. rewrite length_zip_with. lia.
    + intros i Hi. rewrite !lookup_ge_None_2; [done| |]; rewrite length_fmap, ?Hb1; lia.
    + intros _. apply signals_last.
  - exists net2. cbn in Hinv.
    destruct Hinv as (Hsame & Hgw_len & Hgb_len & _ & Hgw & Hgb & _).
    split_and!; try done.
    + apply list_eq. intros i. apply Hgw. lia.
    + apply list_eq. intros i. apply Hgb. lia.
Qed.

End Gradients.

(** C1, as the code has it. On an engine with shaped parameters, at least
    one connection and no empty layer before the output, [forward] on an
    input of the width of the input layer ends normally and leaves the raw
    pre-activation [z] of the last layer as its output; [backward] with
    targets of the width of the output layer then ends normally, and
    - the error signal of the output layer is, per node,
      [(-y/p + (1-y)/(1-p)) * o (1 - o)] with [o] the logistic output of
      [z] and [p] that output clamped into [[1e-7, 1 - 1e-7]]: the clamped
      value enters the gradient of the loss only, the logistic derivative
      takes the unclamped output; [s * 4 * (1 - 2p)] is added to the
      gradient of the loss when the penalty strength [s] is positive;
    - the weight-gradient of connection [i] is the outer product of the
      stored input activation of layer [i] with the error signal of
      connection [i], and its bias-gradient is that error signal;
    - the error signal of connection [i - 1] is [W_i . delta_i] times,
      entry by entry, the derivative of the rectified-linear activation at
      the stored pre-activation [i - 1]. *)
Theorem backward_gradients `{MathLib} (net : Network.t) (x x' target : vector)
    (strength : number) :
  shaped (layerSizes net) (weights net) (biases net) ->
  2 <= length (layerSizes net) ->
  (forall i, S i < length (layerSizes net) -> 1 <= width (layerSizes net) i) ->
  length x = width (layerSizes net) 0 ->
  length target = width (layerSizes net) (length (layerSizes net) - 1) ->
  exists (z : vector) (net1 net2 : Network.t),
    forward net x = (Normal z, net1)
    /\ last (preActivations net1) = Some z
    /\ backward net1 x' target strength = (Normal tt, net2)
    /\ weightGrads net2
       = zip_with outer (activations net1)
           (error_signals (weights net1) (preActivations net1)
              (output_signals strength target z))
    /\ biasGrads net2
       = Some <$> error_signals (weights net1) (preActivations net1)
                    (output_signals strength target z).
Proof.
  intros Hshaped Hsizes Hpos Hx Htarget.
  destruct (forward_normal (layerSizes net) net x Hshaped) as (z & net1 & Hrun & Hfw).
  { split; [done|]. intros _. lia. }
  destruct (backward_exact (layerSizes net) net net1 x z target strength
              Hshaped Hsizes Hx Htarget Hfw x') as (net2 & Hback & _ & Hgw & Hgb).
  exists z, net1, net2. split_and!; try done.
  destruct Hfw as [_ _ _ _ _ Hpre_n _ _ _ _ _ Hlast]. destruct Hshaped as [Hlw _ _ _].
  rewrite last_lookup, Hpre_n. replace (pred (length (weights net))) with (length (weights net) - 1) by lia.
  apply Hlast. lia.
Qed.

Lemma backward_gradients_witness :
  exists (z : vector) (net1 net2 : Network.t),
    forward xor_network [1; 0]%float = (Normal z, net1)
    /\ last (preActivations net1) = Some z
    /\ @backward ReferenceMath.lib net1 [1; 0]%float [1%float] 0%float = (Normal tt, net2)
    /\ weightGrads net2
       = zip_with outer (activations net1)
           (error_signals (weights net1) (preActivations net1)
              (@output_signals ReferenceMath.lib 0%float [1%float] z))
    /\ biasGrads net2
       = Some <$> error_signals (weights net1) (preActivations net1)
                    (@output_signals ReferenceMath.lib 0%float [1%float] z).
Proof.
  apply (@backward_gradients ReferenceMath.lib xor_network [1; 0]%float [1; 0]%float
           [1%float] 0%float).
  - apply (@new_shaped ReferenceMath.lib).
  - vm_compute. lia.
  - intros i Hi. apply (passes_default 0); [lia|done].
  - reflexivity.
  - reflexivity.
Defined.

(** C1 as stated fails. After [forward([1])] on the saturated engine, whose
    raw output is 40 and whose logistic output is 1 in binary64,
    [backward] with the target 0 and no penalty computes the error signal 0
    (the logistic derivative [1 * (1 - 1)] of the unclamped output), where
    the formula of C1, with the clamped probability in the derivative,
    gives 0.9999999. *)
Lemma output_signal_is_not_clamped :
  biasGrads (@backward ReferenceMath.lib (forward saturated_network [1%float]).2
               [1%float] [0%float] 0%float).2
  = [Some [0%float]]
  /\ @claimed_output_signal ReferenceMath.lib 0 0 40 = 0.99999990000000005%float.
Proof. vm_compute. split; reflexivity. Qed.

(* ===================================================================== *)
(** * Further properties of the code *)
(* ===================================================================== *)

(** ** Signs of binary64 values *)

(** A value that is not below zero: no negative number and not [-Infinity]
    ([NaN] and both zeros are not below zero). *)
Definition not_negative (f : spec_float) : Prop :=
  match f with
  | S754_finite true _ _ | S754_infinity true => False
  | _ => True
  end.

Lemma binary_round_aux_not_negative (m e : Z) (l : location) :
  not_negative (binary_round_aux prec emax false m e l).
Proof.
  unfold binary_round_aux.
  destruct (shr_fexp prec emax m e l) as [mrs' e'].
  destruct (shr_fexp prec emax _ e' loc_Exact) as [mrs'' e''].
  destruct (shr_m mrs''); [done| |done].
  destruct (e'' <=? emax - prec)%Z; done.
Qed.

Lemma of_uint63_not_negative (n : int) : not_negative (Prim2SF (of_uint63 n)).
Proof.
  rewrite FloatAxioms.of_uint63_spec. pose proof (Uint63.to_Z_bounded n) as [Hn _].
  unfold binary_normalize. destruct (Uint63.to_Z n) as [|p|p]; [done| |lia].
  unfold binary_round. destruct (shl_align _ _ _) as [mz ez].
  apply binary_round_aux_not_negative.
Qed.

Lemma div_not_negative (x y : float) (m : positive) (e : Z) :
  Prim2SF y = S754_finite false m e ->
  not_negative (Prim2SF x) -> not_negative (Prim2SF (x / y)).
Proof.
  intros Hy. rewrite FloatAxioms.div_spec, Hy. unfold SF64div, SFdiv.
  destruct (Prim2SF x) as [[|]| [|] | |[|] mx ex]; try done; intros _; cbn [xorb].
  destruct (SFdiv_core_binary prec emax (Z.pos mx) ex (Z.pos m) e) as [[mz ez] lz].
  apply binary_round_aux_not_negative.
Qed.

Lemma ltb_zero_not_negative (x : float) :
  not_negative (Prim2SF x) -> (x <? 0)%float = false.
Proof.
  rewrite FloatAxioms.ltb_spec. change (Prim2SF 0) with (S754_zero false).
  unfold SFltb, SFcompare. destruct (Prim2SF x) as [[|]|[|]| |[|] m e]; done.
Qed.

Lemma of_Z_not_negative (z : Z) : (0 <= z)%Z -> not_negative (Prim2SF (of_Z z)).
Proof.
  intros Hz. unfold of_Z. destruct (Z.ltb_spec z 0) as [?|_]; [lia|].
  apply of_uint63_not_negative.
Qed.

Lemma draw_sign (seed : number) (k : nat) : not_negative (Prim2SF (draw seed k)).
Proof.
  unfold draw, Mwc.next. cbv zeta. cbn [fst].
  eapply div_not_negative; [reflexivity|].
  apply of_Z_not_negative. unfold Mwc.result, ToUint32.
  apply Z.mod_pos_bound. done.
Qed.

(** ** What [forward] writes and reads *)

Lemma forward_layer_keeps (x : vector) (net : Network.t) (i : nat) (st : vector * Network.t) :
  (same_parameters st.2 net /\ layerSizes st.2 = layerSizes net
   /\ weightGrads st.2 = weightGrads net /\ biasGrads st.2 = biasGrads net
   /\ activations st.2 !! 0 = Some x) ->
  (same_parameters (forward_layer i st).2.2 net
   /\ layerSizes (forward_layer i st).2.2 = layerSizes net
   /\ weightGrads (forward_layer i st).2.2 = weightGrads net
   /\ biasGrads (forward_layer i st).2.2 = biasGrads net
   /\ activations (forward_layer i st).2.2 !! 0 = Some x).
Proof.
  destruct st as [activation net1]. unfold forward_layer. cbn [fst snd].
  intros (Hp & Hls & Hgw & Hgb & Hx).
  destruct (weights net1 !! i) as [w|]; [|done].
  destruct (linear w (biases net1 !! i) activation) as [z|e]; [|done].
  cbn. split_and!; try done. by rewrite lookup_app, Hx.
Qed.

Lemma forward_loop_keeps (net : Network.t) (x : vector) (items : list nat)
    (st : vector * Network.t) :
  (same_parameters st.2 net /\ layerSizes st.2 = layerSizes net
   /\ weightGrads st.2 = weightGrads net /\ biasGrads st.2 = biasGrads net
   /\ activations st.2 !! 0 = Some x) ->
  (same_parameters (for_each forward_layer items st).2.2 net
   /\ layerSizes (for_each forward_layer items st).2.2 = layerSizes net
   /\ weightGrads (for_each forward_layer items st).2.2 = weightGrads net
   /\ biasGrads (for_each forward_layer items st).2.2 = biasGrads net
   /\ activations (for_each forward_layer items st).2.2 !! 0 = Some x).
Proof.
  apply (for_each_preserves forward_layer
    (fun st => same_parameters st.2 net /\ layerSizes st.2 = layerSizes net
               /\ weightGrads st.2 = weightGrads net /\ biasGrads st.2 = biasGrads net
               /\ activations st.2 !! 0 = Some x)).
  intros i st'. apply forward_layer_keeps.
Qed.

Lemma forward_keeps (net : Network.t) (x : vector) :
  layerSizes (forward net x).2 = layerSizes net
  /\ weights (forward net x).2 = weights net
  /\ biases (forward net x).2 = biases net
  /\ weightGrads (forward net x).2 = weightGrads net
  /\ biasGrads (forward net x).2 = biasGrads net
  /\ activations (forward net x).2 !! 0 = Some x.
Proof.
  unfold forward.
  pose proof (forward_loop_keeps net x (seq 0 (length (weights net)))
                (spread x, set_preActivations [] (set_activations [x] net))) as Hloop.
  destruct (for_each forward_layer _ _) as [[[]|e] [activation net']];
    cbn [fst snd] in *; by destruct Hloop as ([? ?] & ? & ? & ? & ?).
Qed.

(** X1. [forward] writes the stored activations and pre-activations and nothing
    else: the topology, the weights, the biases and both gradients are
    afterwards what they were, however the call ends; and the first stored
    activation is the input of the call, also when the call throws. *)
Theorem forward_frame (net : Network.t) (x : vector) :
  let net' := (forward net x).2 in
  layerSizes net' = layerSizes net
  /\ weights net' = weights net
  /\ biases net' = biases net
  /\ weightGrads net' = weightGrads net
  /\ biasGrads net' = biasGrads net
  /\ activations net' !! 0 = Some x.
Proof.
  unfold forward.
  pose proof (forward_loop_keeps net x (seq 0 (length (weights net)))
                (spread x, set_preActivations [] (set_activations [x] net))) as Hloop.
  destruct (for_each forward_layer _ _) as [[[]|e] [activation net']]; cbn [fst snd] in *.
  - destruct Hloop as ([Hw Hb] & Hls & Hgw & Hgb & Hx); [done|]. split_and!; done.
  - destruct Hloop as ([Hw Hb] & Hls & Hgw & Hgb & Hx); [done|]. split_and!; done.
Qed.

Lemma forward_reads (a b : Network.t) (x : vector) :
  layerSizes a = layerSizes b -> weights a = weights b -> biases a = biases b ->
  weightGrads a = weightGrads b -> biasGrads a = biasGrads b ->
  forward a x = forward b x.
Proof.
  intros Hls Hw Hb Hgw Hgb. unfold forward.
  replace (set_preActivations [] (set_activations [x] a))
    with (set_preActivations [] (set_activations [x] b)).
  - by rewrite Hw.
  - unfold set_preActivations, set_activations. cbn. congruence.
Qed.

(** X2. The result of [forward] does not depend on the calls of [forward]
    before it: the intermediate values that an earlier call stored are
    overwritten, not read. A call after a call on any input [y] returns
    what it returns without it, and leaves the same object. *)
Theorem forward_forgets_earlier_calls (net : Network.t) (y x : vector) :
  forward (forward net y).2 x = forward net x.
Proof.
  destruct (forward_keeps net y) as (Hls & Hw & Hb & Hgw & Hgb & _).
  by apply forward_reads.
Qed.

(** ** The object that the constructor builds *)

Lemma init_layers_biases `{MathLib} {G : Type} (random : G -> number * G)
    (sizes : list nat) (g : G) :
  (init_layers random sizes g).1.2 = (fun m => replicate m 0%float) <$> tail sizes.
Proof.
  revert g. induction sizes as [|n rest IH]; intros g; [done|].
  destruct rest as [|m rest']; [done|]. rewrite init_layers_cons.
  destruct (init_matrix random n m _ g) as [w g1].
  specialize (IH g1). destruct (init_layers random (m :: rest') g1) as [[ws bs] g'].
  cbn [fst snd] in *. rewrite IH. done.
Qed.

Lemma new_biases `{MathLib} (sizes : list nat) (seed : option number) (rnd : entropy) :
  biases (new sizes seed rnd) = (fun m => replicate m 0%float) <$> tail sizes.
Proof.
  unfold new. destruct seed as [s|].
  - pose proof (init_layers_biases Mwc.next sizes (Mwc.seededRandom s)) as Hb.
    destruct (init_layers Mwc.next sizes _) as [[ws bs] g]. done.
  - pose proof (init_layers_biases Math_random sizes rnd) as Hb.
    destruct (init_layers Math_random sizes _) as [[ws bs] g]. done.
Qed.

Lemma new_fields `{MathLib} (sizes : list nat) (seed : option number) (rnd : entropy) :
  layerSizes (new sizes seed rnd) = sizes
  /\ preActivations (new sizes seed rnd) = [] /\ activations (new sizes seed rnd) = []
  /\ weightGrads (new sizes seed rnd) = [] /\ biasGrads (new sizes seed rnd) = [].
Proof.
  unfold new. destruct seed.
  - by destruct (init_layers Mwc.next sizes _) as [[ws bs] g].
  - by destruct (init_layers Math_random sizes _) as [[ws bs] g].
Qed.

(** X4. Whatever the topology and with or without a seed, the constructor
    stores the topology, builds one weight matrix and one bias vector per
    pair of consecutive layers, of the shapes of the topology, every bias
    being [0], and leaves the four other arrays empty. *)
Theorem constructor_shapes `{MathLib} (sizes : list nat) (seed : option number)
    (rnd : entropy) :
  let net := new sizes seed rnd in
  layerSizes net = sizes
  /\ length (weights net) = length sizes - 1
  /\ length (biases net) = length sizes - 1
  /\ (forall i w, weights net !! i = Some w ->
        length w = width sizes i
        /\ Forall (fun row : vector => length row = width sizes (S i)) w)
  /\ (forall i b, biases net !! i = Some b -> b = replicate (width sizes (S i)) 0%float)
  /\ preActivations net = [] /\ activations net = []
  /\ weightGrads net = [] /\ biasGrads net = [].
Proof.
  intros net. destruct (new_shaped sizes seed rnd) as [Hlw Hlb Hm Hv].
  destruct (new_fields sizes seed rnd) as (Hls & Hpre & Hact & Hgw & Hgb).
  split_and!; try done.
  intros i b. unfold net. rewrite new_biases, list_lookup_fmap.
  unfold width. rewrite lookup_tail.
  destruct (sizes !! S i) as [m|]; [|done]. cbn. by intros [= <-].
Qed.

(** ** An engine without connections *)

(** X5. With a topology of fewer than two layers the engine has no connection:
    [forward] returns its input as it is, whatever its length, and
    [backward] and [step] end normally and leave no gradient and no
    parameter. *)
Theorem no_connection_is_identity `{MathLib} (sizes : list nat) (seed : option number)
    (rnd : entropy) (x target : vector) (strength learningRate : number) :
  length sizes <= 1 ->
  let net := new sizes seed rnd in
  weights net = [] /\ biases net = []
  /\ (forward net x).1 = Normal x
  /\ activations (forward net x).2 = [x]
  /\ preActivations (forward net x).2 = []
  /\ (backward (forward net x).2 x target strength).1 = Normal tt
  /\ weightGrads (backward (forward net x).2 x target strength).2 = []
  /\ (Network.step (backward (forward net x).2 x target strength).2 learningRate).1 = Normal tt.
Proof.
  intros Hsizes net. destruct (new_shaped sizes seed rnd) as [Hlw Hlb _ _].
  fold net in Hlw, Hlb.
  assert (weights net = []) as Hw by (apply length_zero_iff_nil; lia).
  assert (biases net = []) as Hb by (apply length_zero_iff_nil; lia).
  unfold forward, backward, Network.step. rewrite Hw. cbn. rewrite Hw, Hb. cbn.
  rewrite Hw. cbn. by rewrite spread_id.
Qed.

Lemma no_connection_is_identity_witness :
  (@forward (@new ReferenceMath.lib [3] None (fun _ => 0.5%float)) [1; 2]%float).1
  = Normal [1; 2]%float.
Proof.
  apply (@no_connection_is_identity ReferenceMath.lib [3] None (fun _ => 0.5%float)
           [1; 2]%float [] 0%float 0%float).
  simpl. lia.
Defined.

(** ** [backward] before any [forward] *)

Lemma rev_seq_S (n : nat) : rev (seq 0 (S n)) = n :: rev (seq 0 n).
Proof. rewrite seq_S, rev_app_distr. reflexivity. Qed.

Lemma backward_layer_no_activation `{MathLib} (i : nat) (delta : vector) (net : Network.t) :
  activations net = [] ->
  backward_layer i (delta, net) = (Throw TypeError, (delta, net)).
Proof. intros Hact. unfold backward_layer. by rewrite Hact, lookup_nil. Qed.

(** X6. On an engine that was just constructed, [backward] first resets both
    gradients to zeros of the shapes of the parameters; then, with no
    stored activation to read, it throws a [TypeError] at the last
    connection, exactly when there is a connection at all. The zeros stay
    written. *)
Theorem backward_before_forward `{MathLib} (sizes : list nat) (seed : option number)
    (rnd : entropy) (x target : vector) (strength : number) :
  let net := new sizes seed rnd in
  let after := backward net x target strength in
  (after.1 = Throw TypeError <-> 2 <= length sizes)
  /\ (after.1 = Normal tt <-> length sizes <= 1)
  /\ weightGrads after.2
     = (fun w : matrix => (fun row : vector => replicate (length row) 0%float) <$> w)
         <$> weights net
  /\ biasGrads after.2
     = (fun b : vector => Some (replicate (length b) 0%float)) <$> biases net.
Proof.
  intros net after. unfold after, backward.
  destruct (new_shaped sizes seed rnd) as [Hlw _ _ _].
  destruct (new_fields sizes seed rnd) as (_ & _ & Hact & _ & _). fold net in Hlw, Hact.
  destruct (length (weights net)) as [|n] eqn:HL.
  - cbn. split_and!; try done; split; (done || lia).
  - rewrite rev_seq_S. cbn [for_each].
    rewrite backward_layer_no_activation by done.
    cbn. split_and!; try done; split; (done || lia).
Qed.

(** ** What [step] writes *)

Lemma step_matrix_length (learningRate : number) (w g : matrix) :
  length (step_matrix learningRate w g).2 = length w.
Proof.
  revert g. induction w as [|row w IH]; intros g; [done|]. cbn [step_matrix].
  destruct row as [|r row].
  - specialize (IH (tl g)). destruct (step_matrix learningRate w (tl g)) as [c w'].
    cbn in *. by rewrite IH.
  - destruct g as [|grow g]; [done|].
    specialize (IH g). destruct (step_matrix learningRate w g) as [c w'].
    cbn in *. by rewrite IH.
Qed.

Lemma step_layer_keeps (learningRate : number) (net : Network.t) (i : nat)
    (net1 : Network.t) :
  (layerSizes net1 = layerSizes net /\ preActivations net1 = preActivations net
   /\ activations net1 = activations net /\ weightGrads net1 = weightGrads net
   /\ biasGrads net1 = biasGrads net
   /\ length (weights net1) = length (weights net)
   /\ length (biases net1) = length (biases net)) ->
  (layerSizes (step_layer learningRate i net1).2 = layerSizes net
   /\ preActivations (step_layer learningRate i net1).2 = preActivations net
   /\ activations (step_layer learningRate i net1).2 = activations net
   /\ weightGrads (step_layer learningRate i net1).2 = weightGrads net
   /\ biasGrads (step_layer learningRate i net1).2 = biasGrads net
   /\ length (weights (step_layer learningRate i net1).2) = length (weights net)
   /\ length (biases (step_layer learningRate i net1).2) = length (biases net)).
Proof.
  intros (Hls & Hpre & Hact & Hgw & Hgb & Hlw & Hlb). unfold step_layer.
  destruct (weights net1 !! i) as [w|]; [|done].
  destruct (step_matrix learningRate w _) as [[[]|e] w']; cbn [snd].
  - cbn [biases set_weights biasGrads].
    destruct (biases net1 !! i) as [[|b0 b]|]; cbn; rewrite ?length_insert; try done.
    destruct (biasGrads net1 !! i) as [[gb|]|]; cbn; rewrite ?length_insert; done.
  - cbn. by rewrite length_insert.
Qed.

(** X7. [step] writes the weights and the biases and nothing else: the
    topology, the stored intermediate values and both gradients are
    afterwards what they were, and there are as many weight matrices and
    bias vectors as before, however the call ends. In particular [step]
    does not clear the gradients. *)
Theorem step_frame (net : Network.t) (learningRate : number) :
  let net' := (Network.step net learningRate).2 in
  layerSizes net' = layerSizes net
  /\ preActivations net' = preActivations net
  /\ activations net' = activations net
  /\ weightGrads net' = weightGrads net
  /\ biasGrads net' = biasGrads net
  /\ length (weights net') = length (weights net)
  /\ length (biases net') = length (biases net).
Proof.
  unfold Network.step.
  apply (for_each_preserves (step_layer learningRate)
    (fun net1 => layerSizes net1 = layerSizes net /\ preActivations net1 = preActivations net
       /\ activations net1 = activations net /\ weightGrads net1 = weightGrads net
       /\ biasGrads net1 = biasGrads net
       /\ length (weights net1) = length (weights net)
       /\ length (biases net1) = length (biases net))); [|done].
  intros i net1. apply step_layer_keeps.
Qed.

(** ** The update of [step] *)

Lemma step_matrix_exact (learningRate : number) (w g : matrix) :
  same_shape w g ->
  step_matrix learningRate w g
  = (Normal tt, zip_with (zip_with (descent learningRate)) w g).
Proof.
  induction 1 as [|row grow w g Hrow Hrest IH]; [done|].
  cbn [step_matrix]. destruct row as [|r row].
  - cbn [tl]. rewrite IH. done.
  - rewrite IH. rewrite map_with_zip_with by lia. done.
Qed.

Section StepUpdate.
Context (learningRate : number) (net : Network.t) (gbs : list vector).
Hypothesis weights_shape : Forall2 same_shape (weights net) (weightGrads net).
Hypothesis biases_count : length (biases net) = length (weights net).
Hypothesis bias_gradients : biasGrads net = Some <$> gbs.
Hypothesis biases_shape :
  Forall2 (fun b gb : vector => length b = length gb) (biases net) gbs.

(** The parameters after the connections before [i] were updated. *)
Definition updated_weights : list matrix :=
  zip_with (zip_with (zip_with (descent learningRate))) (weights net) (weightGrads net).
Definition updated_biases : list vector :=
  zip_with (zip_with (descent learningRate)) (biases net) gbs.

Definition step_update_inv (i : nat) (net1 : Network.t) : Prop :=
  layerSizes net1 = layerSizes net /\ preActivations net1 = preActivations net
  /\ activations net1 = activations net /\ weightGrads net1 = weightGrads net
  /\ biasGrads net1 = biasGrads net
  /\ length (weights net1) = length (weights net)
  /\ length (biases net1) = length (biases net)
  /\ (forall j, j < i -> weights net1 !! j = updated_weights !! j)
  /\ (forall j, i <= j -> weights net1 !! j = weights net !! j)
  /\ (forall j, j < i -> biases net1 !! j = updated_biases !! j)
  /\ (forall j, i <= j -> biases net1 !! j = biases net !! j).

Lemma step_layer_update (i : nat) (net1 : Network.t) :
  i < length (weights net) ->
  step_update_inv i net1 ->
  exists net2, step_layer learningRate i net1 = (Normal tt, net2)
    /\ step_update_inv (S i) net2.
Proof using All.
  intros Hi (Hls & Hpre & Hact & Hgw & Hgb & Hlw & Hlb & Hwlt & Hwge & Hblt & Hbge).
  destruct (lookup_lt_is_Some_2 (weights net) i) as [w Ew]; [lia|].
  destruct (lookup_lt_is_Some_2 (weightGrads net) i) as [g Eg].
  { rewrite <- (Forall2_length _ _ _ weights_shape). lia. }
  destruct (lookup_lt_is_Some_2 (biases net) i) as [b Eb]; [lia|].
  destruct (lookup_lt_is_Some_2 gbs i) as [gb Egb].
  { rewrite <- (Forall2_length _ _ _ biases_shape). lia. }
  pose proof (Forall2_lookup_lr _ _ _ _ _ _ weights_shape Ew Eg) as Hshape.
  pose proof (Forall2_lookup_lr _ _ _ _ _ _ biases_shape Eb Egb) as Hblen.
  unfold step_layer. rewrite (Hwge i) by lia. rewrite Ew, Hgw, Eg.
  change (default [] (Some g)) with g. rewrite (step_matrix_exact learningRate w g Hshape).
  cbn [biases set_weights biasGrads]. rewrite (Hbge i) by lia. rewrite Eb, Hgb, bias_gradients.
  rewrite list_lookup_fmap, Egb. cbn [fmap option_fmap option_map].
  assert (updated_weights !! i = Some (zip_with (zip_with (descent learningRate)) w g)) as Huw.
  { unfold updated_weights. by rewrite lookup_zip_with, Ew, Eg. }
  assert (updated_biases !! i = Some (zip_with (descent learningRate) b gb)) as Hub.
  { unfold updated_biases. by rewrite lookup_zip_with, Eb, Egb. }
  assert (forall bs' : list vector,
            length bs' = length (biases net) ->
            (forall j, j < S i -> bs' !! j = updated_biases !! j) ->
            (forall j, S i <= j -> bs' !! j = biases net !! j) ->
            step_update_inv (S i)
              (set_biases bs'
                 (set_weights (<[i:=zip_with (zip_with (descent learningRate)) w g]>
                                 (weights net1)) net1))) as Hinv.
  { intros bs' Hlen' Hlt Hge. unfold step_update_inv. cbn. split_and!; try done.
    - by rewrite length_insert.
    - intros j Hj. destruct (decide (j = i)) as [->|Hne].
      + rewrite list_lookup_insert_eq by lia. done.
      + rewrite list_lookup_insert_ne by done. apply Hwlt. lia.
    - intros j Hj. rewrite list_lookup_insert_ne by lia. apply Hwge. lia. }
  destruct b as [|b0 b].
  - eexists. split; [reflexivity|].
    replace (set_weights _ net1) with (set_biases (biases net1) (set_weights
      (<[i:=zip_with (zip_with (descent learningRate)) w g]> (weights net1)) net1))
      by (by destruct net1).
    apply Hinv; [done| |].
    + intros j Hj. destruct (decide (j = i)) as [->|Hne].
      * rewrite (Hbge i) by lia. rewrite Eb, Hub. done.
      * apply Hblt. lia.
    + intros j Hj. apply Hbge. lia.
  - eexists. split; [reflexivity|]. cbn [biases set_weights].
    rewrite map_with_zip_with by lia. apply Hinv.
    + by rewrite length_insert.
    + intros j Hj. destruct (decide (j = i)) as [->|Hne].
      * rewrite list_lookup_insert_eq by lia. done.
      * rewrite list_lookup_insert_ne by done. apply Hblt. lia.
    + intros j Hj. rewrite list_lookup_insert_ne by lia. apply Hbge. lia.
Qed.

Lemma step_exact :
  exists net',
    Network.step net learningRate = (Normal tt, net')
    /\ weights net' = updated_weights
    /\ biases net' = updated_biases
    /\ layerSizes net' = layerSizes net
    /\ preActivations net' = preActivations net
    /\ activations net' = activations net
    /\ weightGrads net' = weightGrads net
    /\ biasGrads net' = biasGrads net.
Proof using All.
  unfold Network.step.
  destruct (for_each_seq_normal (step_layer learningRate) step_update_inv
              (length (weights net)) 0 net) as (net' & Hrun & Hinv).
  - intros i net1 Hi. apply step_layer_update. lia.
  - unfold step_update_inv. split_and!; try done; intros j Hj; lia.
  - exists net'. split; [done|]. cbn in Hinv.
    destruct Hinv as (Hls & Hpre & Hact & Hgw & Hgb & Hlw & Hlb & Hwlt & _ & Hblt & _).
    split_and!; try done.
    + apply list_eq. intros j. destruct (decide (j < length (weights net))) as [Hj|Hj].
      * by apply Hwlt.
      * rewrite !lookup_ge_None_2; [done| |lia].
        unfold updated_weights. rewrite length_zip_with. lia.
    + apply list_eq. intros j. destruct (decide (j < length (weights net))) as [Hj|Hj].
      * by apply Hblt.
      * rewrite !lookup_ge_None_2; [done| |lia].
        unfold updated_biases. rewrite length_zip_with. lia.
Qed.
End StepUpdate.

(** X8. When every gradient has the shape of its parameter (as after
    [backward]), [step] ends normally and replaces every weight [w] by
    [w - learningRate * g] and every bias likewise, [g] being the gradient
    entry at the same indices; nothing else changes. *)
Theorem step_applies_gradients (net : Network.t) (learningRate : number)
    (gbs : list vector) :
  Forall2 same_shape (weights net) (weightGrads net) ->
  length (biases net) = length (weights net) ->
  biasGrads net = Some <$> gbs ->
  Forall2 (fun b gb : vector => length b = length gb) (biases net) gbs ->
  exists net',
    Network.step net learningRate = (Normal tt, net')
    /\ weights net'
       = zip_with (zip_with (zip_with (descent learningRate)))
           (weights net) (weightGrads net)
    /\ biases net' = zip_with (zip_with (descent learningRate)) (biases net) gbs
    /\ weightGrads net' = weightGrads net
    /\ biasGrads net' = biasGrads net.
Proof.
  intros Hw Hcount Hgb Hb.
  destruct (step_exact learningRate net gbs Hw Hcount Hgb Hb)
    as (net' & Hrun & Hws & Hbs & _ & _ & _ & Hgw' & Hgb').
  exists net'. split_and!; done.
Qed.

Lemma step_applies_gradients_witness :
  exists net',
    Network.step trained_once 0.5%float = (Normal tt, net')
    /\ weights net'
       = zip_with (zip_with (zip_with (descent 0.5%float)))
           (weights trained_once) (weightGrads trained_once)
    /\ biases net'
       = zip_with (zip_with (descent 0.5%float)) (biases trained_once)
           (default [] <$> biasGrads trained_once)
    /\ weightGrads net' = weightGrads trained_once
    /\ biasGrads net' = biasGrads trained_once.
Proof.
  apply (step_applies_gradients trained_once 0.5%float
           (default [] <$> biasGrads trained_once)).
  - vm_compute. repeat constructor.
  - reflexivity.
  - vm_compute. reflexivity.
  - vm_compute. repeat constructor.
Defined.

(** ** One training example *)

Lemma same_shape_rows (m : nat) (w g : matrix) :
  length w = length g ->
  Forall (fun row : vector => length row = m) w ->
  Forall (fun row : vector => length row = m) g ->
  same_shape w g.
Proof.
  intros Hlen Hw Hg. apply Forall2_same_length_lookup_2; [done|].
  intros i row grow Hrow Hgrow.
  rewrite Forall_lookup in Hw. rewrite Forall_lookup in Hg.
  rewrite (Hw i row Hrow), (Hg i grow Hgrow). done.
Qed.

Lemma outer_shape (a delta : vector) :
  length (outer a delta) = length a
  /\ Forall (fun row : vector => length row = length delta) (outer a delta).
Proof.
  unfold outer. split; [by rewrite length_fmap|].
  apply Forall_fmap, Forall_forall. intros aj _. cbn. by rewrite length_fmap.
Qed.

(** X9. One example of an epoch is one step of gradient descent. On an engine
    with shaped parameters, at least one connection and no empty layer
    before the output, [forward], [backward] and [step] on an example whose
    input and target have the widths of the input and output layers end
    normally, and every weight [W_i[j][k]] becomes
    [W_i[j][k] - learningRate * a_i[j] * delta_i[k]] and every bias
    [b_i[k]] becomes [b_i[k] - learningRate * delta_i[k]], with [a_i] the
    activations that [forward] stored and [delta_i] the error signals of
    the connections. *)
Theorem train_example_descends `{MathLib} (h : Hook) (d : DataPoint) (net : Network.t) :
  shaped (layerSizes net) (weights net) (biases net) ->
  2 <= length (layerSizes net) ->
  (forall i, S i < length (layerSizes net) -> 1 <= width (layerSizes net) i) ->
  length (input d) = width (layerSizes net) 0 ->
  length (target d) = width (layerSizes net) (length (layerSizes net) - 1) ->
  exists (z : vector) (net1 net3 : Network.t),
    forward net (input d) = (Normal z, net1)
    /\ train_example h d net = (Normal tt, net3)
    /\ weights net3
       = zip_with (zip_with (zip_with (descent (learningRate h)))) (weights net)
           (zip_with outer (activations net1)
              (error_signals (weights net) (preActivations net1)
                 (output_signals (confidencePenalty h) (target d) z)))
    /\ biases net3
       = zip_with (zip_with (descent (learningRate h))) (biases net)
           (error_signals (weights net) (preActivations net1)
              (output_signals (confidencePenalty h) (target d) z)).
Proof.
  intros Hshaped Hsizes Hpos Hx Htarget.
  destruct (forward_normal (layerSizes net) net (input d) Hshaped) as (z & net1 & Hrun & Hfw).
  { split; [done|]. intros _. lia. }
  destruct (backward_exact (layerSizes net) net net1 (input d) z (target d)
              (confidencePenalty h) Hshaped Hsizes Hx Htarget Hfw (input d))
    as (net2 & Hback & (_ & Hw2 & Hb2 & _ & _) & Hgw & Hgb).
  pose proof Hfw as [_ Hw1 Hb1 _ _ _ _ Hact_n _ _ _ _].
  pose proof Hshaped as [Hlw Hlb Hm Hv].
  set (sig := signals net1 z (target d) (confidencePenalty h)) in *.
  pose proof (signals_length (layerSizes net) net net1 (input d) z (target d)
                (confidencePenalty h) Hshaped Hsizes Hx Htarget Hfw) as Hsl.
  fold sig in Hsl.
  destruct (step_exact (learningRate h) net2 sig) as (net3 & Hstep & Hw3 & Hb3 & _).
  - rewrite Hw2, Hw1, Hgw. apply Forall2_same_length_lookup_2.
    + rewrite length_zip_with. lia.
    + intros i w g Ew. rewrite lookup_zip_with.
      destruct (activations net1 !! i) as [a|] eqn:Ea; [|done]. cbn.
      destruct (sig !! i) as [dl|] eqn:Ed; [|done]. cbn. intros [= <-].
      pose proof (activation_length (layerSizes net) net net1 (input d) z (target d)
                    (confidencePenalty h) Hshaped Hsizes Hx Htarget Hfw i a Ea) as Ha.
      pose proof (signal_length (layerSizes net) net net1 (input d) z (target d)
                    (confidencePenalty h) Hshaped Hsizes Hx Htarget Hfw i dl Ed) as Hd.
      destruct (Hm i w Ew) as [Hn Hrows]. destruct (outer_shape a dl) as [Hon Horows].
      apply (same_shape_rows (width (layerSizes net) (S i))); [lia|done|].
      by rewrite <- Hd.
  - rewrite Hb2, Hb1, Hw2, Hw1. lia.
  - done.
  - rewrite Hb2, Hb1. apply Forall2_same_length_lookup_2; [lia|].
    intros i b dl Eb Ed. rewrite (Hv i b Eb).
    symmetry. apply (signal_length (layerSizes net) net net1 (input d) z (target d)
                       (confidencePenalty h) Hshaped Hsizes Hx Htarget Hfw i dl Ed).
  - exists z, net1, net3. split; [done|]. unfold train_example. rewrite Hrun, Hback.
    split; [done|]. rewrite Hw3, Hb3. unfold updated_weights, updated_biases.
    rewrite Hw2, Hb2, Hw1, Hb1, Hgw.
    unfold sig, signals. rewrite Hw1. done.
Qed.

Lemma train_example_descends_witness :
  exists (z : vector) (net1 net3 : Network.t),
    forward xor_network [1; 0]%float = (Normal z, net1)
    /\ @train_example ReferenceMath.lib default_hook
         {| input := [1; 0]%float; target := [1%float]; trueTarget := [1%float];
            isNoisy := false |} xor_network = (Normal tt, net3)
    /\ weights net3
       = zip_with (zip_with (zip_with (descent 0.5%float))) (weights xor_network)
           (zip_with outer (activations net1)
              (error_signals (weights xor_network) (preActivations net1)
                 (@output_signals ReferenceMath.lib 0%float [1%float] z)))
    /\ biases net3
       = zip_with (zip_with (descent 0.5%float)) (biases xor_network)
           (error_signals (weights xor_network) (preActivations net1)
              (@output_signals ReferenceMath.lib 0%float [1%float] z)).
Proof.
  apply (@train_example_descends ReferenceMath.lib default_hook
           {| input := [1; 0]%float; target := [1%float]; trueTarget := [1%float];
              isNoisy := false |} xor_network).
  - apply (@new_shaped ReferenceMath.lib).
  - vm_compute. lia.
  - intros i Hi. apply (passes_default 0); [lia|done].
  - reflexivity.
  - reflexivity.
Defined.

(** ** The values that [forward] computes *)

Lemma list_of_lookups {A : Type} (d : A) (l : list A) :
  l = (fun k => default d (l !! k)) <$> seq 0 (length l).
Proof.
  apply list_eq. intros k. rewrite list_lookup_fmap.
  destruct (decide (k < length l)) as [Hk|Hk].
  - rewrite lookup_seq_lt by done. cbn.
    destruct (lookup_lt_is_Some_2 l k Hk) as [v ->]. done.
  - rewrite lookup_seq_ge by lia. cbn. apply lookup_ge_None_2. lia.
Qed.

Lemma fmap_seq_ext {A : Type} (f g : nat -> A) (n : nat) :
  (forall k, k < n -> f k = g k) -> f <$> seq 0 n = g <$> seq 0 n.
Proof.
  intros Hfg. apply list_fmap_ext. intros i k Hk.
  apply lookup_seq in Hk as [-> Hk]. by apply Hfg.
Qed.

Lemma add_into_zip_with (vals z : vector) :
  length vals = length z -> add_into vals z = zip_with (fun zj v => zj + v)%float z vals.
Proof.
  revert z. induction vals as [|v vals IH]; intros [|zj z] Hlen; simpl in *; try done.
  rewrite IH by lia. done.
Qed.

Lemma accumulate_exact (m : nat) (activation : vector) (w : matrix) (z : vector) :
  length activation <= length w ->
  Forall (fun row : vector => length row = m) w ->
  length z = m ->
  accumulate activation w z
  = Normal ((fun k =>
               foldl (fun acc (p : number * vector) =>
                        acc + p.1 * default nan (p.2 !! k))%float
                     (default nan (z !! k)) (zip activation w)) <$> seq 0 m).
Proof.
  revert w z. induction activation as [|a activation IH]; intros w z Hlen Hrows Hz.
  - cbn [accumulate zip zip_with foldl]. f_equal. rewrite <- Hz. apply list_of_lookups.
  - destruct w as [|row w]; [simpl in Hlen; lia|].
    apply Forall_cons in Hrows as [Hrow Hrows]. cbn [accumulate].
    rewrite (IH w) by (simpl in Hlen; rewrite ?add_into_length, ?length_fmap; (lia || done)).
    f_equal. apply fmap_seq_ext. intros k Hk. cbn [zip zip_with foldl fst snd]. f_equal.
    rewrite add_into_zip_with by (rewrite length_fmap; lia).
    rewrite lookup_zip_with, list_lookup_fmap.
    destruct (lookup_lt_is_Some_2 z k) as [zk ->]; [lia|].
    destruct (lookup_lt_is_Some_2 row k) as [rk ->]; [lia|]. done.
Qed.

Lemma linear_exact (w : matrix) (b activation : vector) :
  1 <= length w -> length activation <= length w ->
  Forall (fun row : vector => length row = length b) w ->
  linear w (Some b) activation = Normal (affine w b activation).
Proof.
  intros Hw Hlen Hrows. unfold linear. destruct w as [|w0 w'] eqn:Ew; [simpl in Hw; lia|].
  rewrite <- Ew in *.
  assert (length w0 = length b) as ->.
  { rewrite Ew in Hrows. by apply Forall_cons in Hrows as [? _]. }
  rewrite (accumulate_exact (length b)) by (done || by rewrite length_replicate).
  f_equal. rewrite add_into_zip_with by by rewrite length_fmap, length_seq.
  unfold affine. rewrite (list_of_lookups nan (zip_with _ _ _)).
  rewrite length_zip_with, length_fmap, length_seq, Nat.min_id.
  apply fmap_seq_ext. intros k Hk.
  destruct (lookup_lt_is_Some_2 b k Hk) as [bk Ebk].
  unfold affine_entry. rewrite lookup_zip_with, list_lookup_fmap, Ebk.
  rewrite lookup_seq_lt by done. cbn [fmap option_fmap option_map mbind option_bind default Nat.add].
  rewrite lookup_replicate_2 by done. done.
Qed.

Section ForwardValues.
Context `{MathLib} (sizes : list nat) (net : Network.t) (x : vector).
Hypothesis shaped_net : shaped sizes (weights net) (biases net).
Hypothesis input_passes : passes sizes (length x).

(** What [forward] has stored for the connections before [k]. *)
Definition stored_values (k : nat) (net' : Network.t) : Prop :=
  forall i w b a, i < k ->
    weights net !! i = Some w -> biases net !! i = Some b ->
    activations net' !! i = Some a ->
    preActivations net' !! i = Some (affine w b a)
    /\ activations net' !! S i
       = Some (if i =? length (weights net) - 1 then affine w b a
               else Functions.relu (affine w b a)).

Lemma forward_layer_values (k : nat) (st : vector * Network.t) :
  k < length (weights net) ->
  forward_inv sizes net x k st /\ stored_values k st.2 ->
  exists st', forward_layer k st = (Normal tt, st')
    /\ forward_inv sizes net x (S k) st' /\ stored_values (S k) st'.2.
Proof using All.
  intros Hk [Hinv Hvals].
  destruct (forward_layer_step sizes net x k st shaped_net input_passes Hk Hinv)
    as (st' & Hrun & Hinv').
  exists st'. split; [done|]. split; [done|].
  destruct st as [activation net1]. cbn [snd] in *.
  pose proof shaped_net as [Hlw Hlb Hm Hv]. pose proof input_passes as [Hpos Hfirst].
  destruct Hinv as ((Hls & Hw & Hb & Hgw & Hgb) & Hpre_len & Hpre & Hact_len & Hact0
                    & Hact & Hlast & _).
  destruct (lookup_lt_is_Some_2 (weights net) k) as [w Ew]; [lia|].
  destruct (lookup_lt_is_Some_2 (biases net) k) as [b Eb]; [lia|].
  destruct (Hm k w Ew) as [Hrows_n Hrows]. pose proof (Hv k b Eb) as Hblen.
  assert (length activation <= length w) as Hfit.
  { rewrite Hrows_n. destruct k as [|k'].
    - rewrite Hact0 in Hlast. injection Hlast as <-. apply Hfirst. lia.
    - rewrite (Hact (S k') activation); [done|lia|done]. }
  unfold forward_layer in Hrun. rewrite Hw, Hb, Ew, Eb in Hrun.
  rewrite linear_exact in Hrun.
  2: { rewrite Hrows_n. apply Hpos. lia. }
  2: done.
  2: { by rewrite Hblen. }
  injection Hrun as <-. unfold stored_values. cbn -[affine Functions.relu].
  intros i w' b' a Hi Ew' Eb' Ea.
  destruct (decide (i = k)) as [->|Hne].
  - rewrite Ew in Ew'. rewrite Eb in Eb'. injection Ew' as <-. injection Eb' as <-.
    rewrite lookup_app_l in Ea by lia. rewrite Hlast in Ea. injection Ea as <-.
    split.
    + rewrite lookup_app_r by lia. by rewrite Hpre_len, Nat.sub_diag.
    + rewrite lookup_app_r by lia. by rewrite Hact_len, Nat.sub_diag.
  - rewrite lookup_app_l in Ea by lia.
    destruct (Hvals i w' b' a) as [Hp Ha]; [lia|done|done|done|].
    split.
    + rewrite lookup_app_l by lia. done.
    + rewrite lookup_app_l by lia. done.
Qed.

Lemma forward_exact :
  exists out net',
    forward net x = (Normal out, net')
    /\ ran_forward sizes net x out net'
    /\ stored_values (length (weights net)) net'.
Proof using All.
  unfold forward.
  destruct (for_each_seq_normal forward_layer
              (fun k st => forward_inv sizes net x k st /\ stored_values k st.2)
              (length (weights net)) 0
              (spread x, set_preActivations [] (set_activations [x] net)))
    as ([out net'] & -> & Hinv & Hvals).
  - intros i st Hi. apply forward_layer_values. lia.
  - split.
    + rewrite spread_id. simpl. repeat split; try done.
      * intros [|j] a Hj; [lia|]. done.
      * lia.
    + intros i w b a Hi. lia.
  - exists out, net'. split; [done|]. split; [|done]. simpl in Hinv.
    destruct Hinv as ((? & ? & ? & ? & ?) & ? & ? & ? & ? & ? & ? & Hout).
    split; try done. intros HL. apply Hout; [done|done].
Qed.
End ForwardValues.

(** X3. On an engine with shaped parameters and no empty layer before the
    output, [forward] on an input no longer than the input layer ends
    normally and stores, for every connection [i] with weights [W], biases
    [b] and stored input activation [a]: the pre-activation [a . W + b]
    (each sum taken in the order of the rows of [W], the bias added last)
    and, as the next activation, that pre-activation itself for the last
    connection and its rectification [max(0, .)] for the others. The value
    returned is the last stored activation: the raw output, to which no
    logistic function has been applied. *)
Theorem forward_computes `{MathLib} (net : Network.t) (x : vector) :
  shaped (layerSizes net) (weights net) (biases net) ->
  passes (layerSizes net) (length x) ->
  exists (out : vector) (net' : Network.t),
    forward net x = (Normal out, net')
    /\ activations net' !! 0 = Some x
    /\ length (activations net') = S (length (weights net))
    /\ length (preActivations net') = length (weights net)
    /\ last (activations net') = Some out
    /\ forall i w b a,
         weights net !! i = Some w -> biases net !! i = Some b ->
         activations net' !! i = Some a ->
         preActivations net' !! i = Some (affine w b a)
         /\ activations net' !! S i
            = Some (if i =? length (weights net) - 1 then affine w b a
                    else Functions.relu (affine w b a)).
Proof.
  intros Hshaped Hpasses.
  destruct (forward_exact (layerSizes net) net x Hshaped Hpasses)
    as (out & net' & Hrun & Hfw & Hvals).
  exists out, net'. destruct Hfw as [_ _ _ _ _ Hpre_n _ Hact_n Hin _ Hout _].
  split_and!; try done.
  - rewrite last_lookup, Hact_n. done.
  - intros i w b a Ew Eb Ea. apply Hvals; try done. by apply lookup_lt_Some in Ew.
Qed.

Lemma forward_computes_witness :
  exists (out : vector) (net' : Network.t),
    forward xor_network [1; 0]%float = (Normal out, net')
    /\ activations net' !! 0 = Some [1; 0]%float
    /\ length (activations net') = S (length (weights xor_network))
    /\ length (preActivations net') = length (weights xor_network)
    /\ last (activations net') = Some out
    /\ forall i w b a,
         weights xor_network !! i = Some w -> biases xor_network !! i = Some b ->
         activations net' !! i = Some a ->
         preActivations net' !! i = Some (affine w b a)
         /\ activations net' !! S i
            = Some (if i =? length (weights xor_network) - 1 then affine w b a
                    else Functions.relu (affine w b a)).
Proof.
  apply (@forward_computes ReferenceMath.lib xor_network [1; 0]%float).
  - apply (@new_shaped ReferenceMath.lib).
  - apply (passes_default 2). lia.
Defined.

Lemma ltb_not_negative_not_positive (u level : float) :
  not_negative (Prim2SF u) -> (0 <? level)%float = false -> (u <? level)%float = false.
Proof.
  rewrite !FloatAxioms.ltb_spec. change (Prim2SF 0) with (S754_zero false).
  unfold SFltb, SFcompare.
  destruct (Prim2SF u) as [[|]|[|]| |[|] m e], (Prim2SF level) as [[|]|[|]| |[|] m' e'];
    done.
Qed.

(** ** A dataset without noise *)

Lemma generateNoisyData_clean (numSamples : nat) (noiseLevel seed : number) :
  (0 <? noiseLevel)%float = false ->
  forall d, d ∈ generateNoisyData numSamples noiseLevel seed ->
    isNoisy d = false /\ target d = trueTarget d.
Proof.
  intros Hlevel d. unfold generateNoisyData.
  pose proof (generate_loop_points numSamples noiseLevel seed 0) as Heq.
  replace (3 * 0) with 0 in Heq by lia. rewrite iter_0 in Heq. rewrite Heq.
  intros (i & -> & _)%list_elem_of_fmap.
  assert ((draw seed (3 * i + 2) <? noiseLevel)%float = false) as Hu.
  { apply ltb_not_negative_not_positive; [|done]. apply draw_sign. }
  unfold labelled_point. cbn [isNoisy target trueTarget]. rewrite Hu. done.
Qed.

Lemma filter_none {A : Type} (P : A -> Prop) `{forall x, Decision (P x)} (l : list A) :
  (forall x, x ∈ l -> ~ P x) -> filter P l = [].
Proof.
  induction l as [|x l IH]; intros Hl; [done|].
  rewrite filter_cons_False by (apply Hl; by left). apply IH.
  intros y Hy. apply Hl. by right.
Qed.

(** X11. With a noise level that is not positive ([0], the default of the
    hook, a negative number or [NaN]) no label is flipped: every point of
    the training data carries its true label and is not marked noisy,
    whatever the seed and the number of samples; and the count of noisy
    points that the application shows is [0]. *)
Theorem trainingData_without_noise (h : Hook) :
  (0 <? noiseLevel h)%float = false ->
  (forall d, d ∈ trainingData h -> isNoisy d = false /\ target d = trueTarget d)
  /\ App.noisyCount h = 0.
Proof.
  intros Hlevel.
  pose proof (generateNoisyData_clean (numSamples h) (noiseLevel h) (dataSeed h) Hlevel)
    as Hclean.
  split; [exact Hclean|].
  unfold App.noisyCount. rewrite filter_none; [done|].
  intros d Hd. destruct (Hclean d Hd) as [-> _]. done.
Qed.

Lemma trainingData_without_noise_witness :
  (forall d, d ∈ trainingData default_hook -> isNoisy d = false /\ target d = trueTarget d)
  /\ App.noisyCount default_hook = 0.
Proof. apply (trainingData_without_noise default_hook). reflexivity. Defined.

(** ** [NaN] in binary64 arithmetic *)

Lemma is_nan_spec (x : float) : Prim2SF x = S754_nan -> x = nan.
Proof. intros Hx. apply Prim2SF_inj. by rewrite Hx. Qed.

Lemma add_nan_l (x : float) : (nan + x)%float = nan.
Proof. apply is_nan_spec. rewrite FloatAxioms.add_spec. reflexivity. Qed.

Lemma add_nan_r (x : float) : (x + nan)%float = nan.
Proof.
  apply is_nan_spec. rewrite FloatAxioms.add_spec. change (Prim2SF nan) with S754_nan.
  unfold SF64add, SFadd. by destruct (Prim2SF x) as [[|]|[|]| |[|] m e].
Qed.

Lemma mul_nan_l (x : float) : (nan * x)%float = nan.
Proof. apply is_nan_spec. rewrite FloatAxioms.mul_spec. reflexivity. Qed.

Lemma mul_nan_r (x : float) : (x * nan)%float = nan.
Proof.
  apply is_nan_spec. rewrite FloatAxioms.mul_spec. change (Prim2SF nan) with S754_nan.
  unfold SF64mul, SFmul. by destruct (Prim2SF x) as [[|]|[|]| |[|] m e].
Qed.

Lemma div_nan_l (x : float) : (nan / x)%float = nan.
Proof. apply is_nan_spec. rewrite FloatAxioms.div_spec. reflexivity. Qed.

(** ** The losses of [functions.ts] at their edges *)

Section Losses.
Context `{MathLib}.

Lemma bce_sum_nan (predicted target : vector) :
  Functions.bce_sum predicted target nan = nan.
Proof.
  revert target. induction predicted as [|pr predicted IH]; intros target; [done|].
  cbn [Functions.bce_sum]. rewrite add_nan_l. apply IH.
Qed.

Lemma bce_sum_missing_target (predicted target : vector) (sum : number) :
  length target < length predicted ->
  Functions.bce_sum predicted target sum = nan.
Proof.
  revert target sum. induction predicted as [|pr predicted IH]; intros target sum Hlen;
    [simpl in Hlen; lia|].
  cbn [Functions.bce_sum]. destruct target as [|y target].
  - cbn [hd tl]. unfold undefined_num. rewrite mul_nan_l, add_nan_l.
    change (- nan)%float with nan. rewrite add_nan_r. apply bce_sum_nan.
  - cbn [hd tl]. apply IH. simpl in Hlen. lia.
Qed.

(** X12. [binaryCrossEntropy] reads the targets at the indices of the
    predictions and no others: targets past the last prediction do not
    matter. *)
Theorem binaryCrossEntropy_reads_leading_targets (predicted target : vector) :
  Functions.binaryCrossEntropy predicted target
  = Functions.binaryCrossEntropy predicted (take (length predicted) target).
Proof.
  unfold Functions.binaryCrossEntropy. f_equal. generalize 0%float as sum.
  revert target. induction predicted as [|pr predicted IH]; intros target sum; [done|].
  destruct target as [|y target]; [done|].
  cbn [Functions.bce_sum length take hd tl]. apply IH.
Qed.

(** X13. With fewer targets than predictions, [binaryCrossEntropy] does not
    fail: the missing target is read as [undefined], and the loss is
    [NaN]. *)
Theorem binaryCrossEntropy_missing_target (predicted target : vector) :
  length target < length predicted ->
  Functions.binaryCrossEntropy predicted target = nan.
Proof.
  intros Hlen. unfold Functions.binaryCrossEntropy.
  rewrite bce_sum_missing_target by done. apply div_nan_l.
Qed.

(** X14. On no prediction at all, the three losses are [0 / 0], that is [NaN],
    whatever the targets and the strength of the penalty. *)
Theorem losses_of_no_prediction (target : vector) (penaltyStrength : option number) :
  Functions.binaryCrossEntropy [] target = nan
  /\ Functions.confidencePenalty [] = nan
  /\ Functions.bceWithConfidencePenalty [] target penaltyStrength = nan.
Proof.
  assert (Functions.binaryCrossEntropy [] target = nan) as Hbce by reflexivity.
  assert (Functions.confidencePenalty [] = nan) as Hcp by reflexivity.
  split_and!; [done|done|].
  unfold Functions.bceWithConfidencePenalty. rewrite Hbce. apply add_nan_l.
Qed.

End Losses.

Lemma binaryCrossEntropy_missing_target_witness :
  @Functions.binaryCrossEntropy ReferenceMath.lib [0.5; 0.5]%float [1%float] = nan.
Proof.
  apply (@binaryCrossEntropy_missing_target ReferenceMath.lib). simpl. lia.
Defined.

(** ** The rectifier *)

(** X15. [relu] keeps the positive entries, maps [NaN] to [NaN] and every other
    entry to [+0], the negative zero and [-Infinity] included; so
    [reluDerivative] is [1] exactly at the entries that [relu] keeps. *)
Theorem relu_values (x : vector) :
  Functions.relu x
  = (fun val => if is_nan val then nan
                else if (0 <? val)%float then val else 0%float) <$> x.
Proof.
  unfold Functions.relu. apply list_fmap_ext. intros _ val _.
  unfold Math_max. change (is_nan 0) with false. cbn [orb].
  destruct (is_nan val); [done|]. destruct (0 <? val)%float; [done|].
  change (get_sign 0) with false. by destruct (val <? 0)%float.
Qed.

(** ** The state of the seeded generator *)

Lemma ToInt32_range (z : Z) : (- 2 ^ 31 <= ToInt32 z < 2 ^ 31)%Z.
Proof. unfold ToInt32. pose proof (Z.mod_pos_bound (z + 2 ^ 31) (2 ^ 32)). lia. Qed.

Lemma ToInt32_small (z : Z) : (- 2 ^ 31 <= z < 2 ^ 31)%Z -> ToInt32 z = z.
Proof. intros Hz. unfold ToInt32. rewrite Z.mod_small by lia. lia. Qed.

(** The lane with the multiplier [36969] does not reach zero from a
    non-zero value. *)
Lemma lane_z_not_zero (m : Z) : ToInt32 m <> 0%Z -> Mwc.lane 36969 m <> 0%Z.
Proof.
  intros Hm. unfold Mwc.lane. pose proof (ToInt32_range m) as Hv.
  set (v := ToInt32 m) in *.
  change 65535%Z with (Z.ones 16). rewrite Z.land_ones by lia.
  rewrite Z.shiftr_div_pow2 by lia.
  pose proof (Z.div_mod v (2 ^ 16) ltac:(lia)) as Hdm.
  pose proof (Z.mod_pos_bound v (2 ^ 16) ltac:(lia)) as Hlo.
  set (lo := (v mod 2 ^ 16)%Z) in *. set (hi := (v / 2 ^ 16)%Z) in *.
  assert (- 2 ^ 15 <= hi < 2 ^ 15)%Z as Hhi by lia.
  unfold ToInt32.
  pose proof (Z.div_mod (36969 * lo + hi + 2 ^ 31) (2 ^ 32) ltac:(lia)) as Hdm'.
  pose proof (Z.mod_pos_bound (36969 * lo + hi + 2 ^ 31) (2 ^ 32) ltac:(lia)) as Hr.
  set (q := ((36969 * lo + hi + 2 ^ 31) / 2 ^ 32)%Z) in *.
  set (r := ((36969 * lo + hi + 2 ^ 31) mod 2 ^ 32)%Z) in *.
  intros Hzero. assert (r = 2 ^ 31)%Z as Hr' by lia.
  assert (q = 0)%Z as Hq by lia. lia.
Qed.

Lemma seeded_m_z (seed : number) : ToInt32 (Mwc.m_z (Mwc.seeded seed)) <> 0%Z.
Proof.
  unfold Mwc.seeded. cbn [Mwc.m_z]. unfold ToUint32.
  set (z := truncate _).
  pose proof (Z.mod_pos_bound z (2 ^ 32) ltac:(lia)) as Hr.
  assert (forall m, 1 <= m < 2 ^ 32 -> ToInt32 m <> 0)%Z as Hlive.
  { intros m Hm. unfold ToInt32.
    destruct (Z_lt_ge_dec m (2 ^ 31)).
    - rewrite Z.mod_small by lia. lia.
    - replace (m + 2 ^ 31)%Z with (m - 2 ^ 31 + 1 * 2 ^ 32)%Z by lia.
      rewrite Z.mod_add by lia. rewrite Z.mod_small by lia. lia. }
  destruct (Z.eqb_spec (z mod 2 ^ 32) 0) as [_|Hne]; apply Hlive; lia.
Qed.

(** X10. The guard [if (m_z === 0) m_z = 1] of the seeding holds for good: from
    every seed and after any number of calls of the generator, the
    variable [m_z] is not zero, so the generator is never in the all-zero
    state from which it would return [0] forever. *)
Theorem generator_m_z_never_zero (seed : number) (k : nat) :
  Mwc.m_z (Nat.iter k Mwc.advance (Mwc.seeded seed)) <> 0%Z.
Proof.
  assert (ToInt32 (Mwc.m_z (Nat.iter k Mwc.advance (Mwc.seeded seed))) <> 0%Z) as Hlive.
  { induction k as [|k IH]; [apply seeded_m_z|].
    rewrite iter_S. generalize dependent (Nat.iter k Mwc.advance (Mwc.seeded seed)).
    intros s IH. cbn [Mwc.advance Mwc.m_z].
    rewrite ToInt32_small by apply ToInt32_range. by apply lane_z_not_zero. }
  intros Hzero. rewrite Hzero in Hlive. by apply Hlive.
Qed.

(** ** The metrics *)

Section Metrics.
Context `{MathLib}.

(** The fields that the evaluation of a metric leaves alone. *)
Definition same_training (a b : Network.t) : Prop :=
  layerSizes a = layerSizes b /\ weights a = weights b /\ biases a = biases b
  /\ weightGrads a = weightGrads b /\ biasGrads a = biasGrads b.

Lemma forward_same_training (net net0 : Network.t) (x : vector) :
  same_training net0 net -> same_training (forward net0 x).2 net.
Proof.
  intros (Hls & Hw & Hb & Hgw & Hgb).
  destruct (forward_keeps net0 x) as (? & ? & ? & ? & ? & _).
  unfold same_training. split_and!; congruence.
Qed.

Lemma train_loss_item_keeps (net : Network.t) (strength : number) (d : DataPoint)
    (st : number * Network.t) :
  same_training st.2 net -> same_training (train_loss_item strength d st).2.2 net.
Proof.
  destruct st as [total net0]. cbn [snd]. intros Hsame. unfold train_loss_item.
  pose proof (forward_same_training net net0 (input d) Hsame) as Hfw.
  destruct (forward net0 (input d)) as [[output|e] net1]; done.
Qed.

Lemma clean_item_keeps (net : Network.t) (d : vector * vector)
    (st : number * Z * Network.t) :
  same_training st.2 net -> same_training (clean_item d st).2.2 net.
Proof.
  destruct st as [[total correct] net0]. cbn [snd]. intros Hsame. unfold clean_item.
  pose proof (forward_same_training net net0 d.1 Hsame) as Hfw.
  destruct (forward net0 d.1) as [[output|e] net1]; done.
Qed.

Lemma accuracy_item_keeps (net : Network.t) (d : vector * vector) (st : Z * Network.t) :
  same_training st.2 net -> same_training (App.accuracy_item d st).2.2 net.
Proof.
  destruct st as [correct net0]. cbn [snd]. intros Hsame. unfold App.accuracy_item.
  pose proof (forward_same_training net net0 d.1 Hsame) as Hfw.
  destruct (forward net0 d.1) as [[output|e] net1]; done.
Qed.

Lemma computeTrainLoss_keeps (net : Network.t) (data : list DataPoint) (strength : number) :
  same_training (computeTrainLoss net data strength).2 net.
Proof.
  unfold computeTrainLoss.
  pose proof (for_each_preserves (train_loss_item strength)
                (fun st => same_training st.2 net) data (0%float, net)) as Hloop.
  destruct (for_each _ data _) as [[[]|e] [total net']]; apply Hloop; try done;
    intros d st; apply train_loss_item_keeps.
Qed.

Lemma computeCleanMetrics_keeps (net : Network.t) :
  same_training (computeCleanMetrics net).2 net.
Proof.
  unfold computeCleanMetrics.
  pose proof (for_each_preserves clean_item
                (fun st => same_training st.2 net) CLEAN_XOR (0%float, 0%Z, net)) as Hloop.
  destruct (for_each _ CLEAN_XOR _) as [[[]|e] [[total correct] net']]; apply Hloop; try done;
    intros d st; apply clean_item_keeps.
Qed.

Lemma computeAccuracy_keeps (net : Network.t) :
  same_training (App.computeAccuracy net).2 net.
Proof.
  unfold App.computeAccuracy.
  pose proof (for_each_preserves App.accuracy_item
                (fun st => same_training st.2 net) CLEAN_XOR (0%Z, net)) as Hloop.
  destruct (for_each _ CLEAN_XOR _) as [[[]|e] [correct net']]; apply Hloop; try done;
    intros d st; apply accuracy_item_keeps.
Qed.

(** X16. Measuring does not train. [computeTrainLoss], [computeCleanMetrics]
    and the accuracy loop of the application and of the tests call
    [forward] on the engine, which overwrites its stored intermediate
    values, but they leave its topology, weights, biases and gradients as
    they were, on every dataset and however they end. *)
Theorem metrics_do_not_train (net : Network.t) (data : list DataPoint)
    (strength : number) :
  same_training (computeTrainLoss net data strength).2 net
  /\ same_training (computeCleanMetrics net).2 net
  /\ same_training (App.computeAccuracy net).2 net.
Proof.
  split_and!; [apply computeTrainLoss_keeps|apply computeCleanMetrics_keeps
              |apply computeAccuracy_keeps].
Qed.

(** *** The metrics are functions of the parameters *)

Lemma forward_same_parameters (a b : Network.t) (x : vector) :
  same_parameters a b ->
  (forward a x).1 = (forward b x).1 /\ same_parameters (forward a x).2 (forward b x).2.
Proof.
  intros Hsame. split; [by apply forward_parameters|].
  destruct Hsame as [Hw Hb].
  destruct (forward_keeps a x) as (_ & Hwa & Hba & _).
  destruct (forward_keeps b x) as (_ & Hwb & Hbb & _).
  split; congruence.
Qed.

Lemma computeTrainLoss_parameters (a b : Network.t) (data : list DataPoint)
    (strength : number) :
  same_parameters a b ->
  (computeTrainLoss a data strength).1 = (computeTrainLoss b data strength).1.
Proof.
  intros Hsame. unfold computeTrainLoss.
  destruct (for_each_related
    (fun s1 s2 : number * Network.t => s1.1 = s2.1 /\ same_parameters s1.2 s2.2)
    (train_loss_item strength) (train_loss_item strength) data (0%float, a) (0%float, b))
    as (Hc & Htotal & _).
  - intros d [t1 n1] [t2 n2] [Ht Hn]. cbn [fst snd] in *. subst t2. unfold train_loss_item.
    destruct (forward_same_parameters n1 n2 (input d) Hn) as [Hout Hn'].
    destruct (forward n1 (input d)) as [[o1|[]] m1], (forward n2 (input d)) as [[o2|[]] m2];
      cbn [fst snd] in *; try done. by injection Hout as ->.
  - done.
  - destruct (for_each _ data (_, a)) as [[[]|e1] [t1 n1]],
             (for_each _ data (_, b)) as [[[]|e2] [t2 n2]];
      cbn [fst snd] in *; try done; congruence.
Qed.

Lemma computeCleanMetrics_parameters (a b : Network.t) :
  same_parameters a b -> (computeCleanMetrics a).1 = (computeCleanMetrics b).1.
Proof.
  intros Hsame. unfold computeCleanMetrics.
  destruct (for_each_related
    (fun s1 s2 : number * Z * Network.t => s1.1 = s2.1 /\ same_parameters s1.2 s2.2)
    clean_item clean_item CLEAN_XOR (0%float, 0%Z, a) (0%float, 0%Z, b))
    as (Hc & Htotal & _).
  - intros d [[t1 c1] n1] [[t2 c2] n2] [Ht Hn]. cbn [fst snd] in *.
    injection Ht as -> ->. unfold clean_item.
    destruct (forward_same_parameters n1 n2 d.1 Hn) as [Hout Hn'].
    destruct (forward n1 d.1) as [[o1|[]] m1], (forward n2 d.1) as [[o2|[]] m2];
      cbn [fst snd] in *; try done. by injection Hout as ->.
  - done.
  - destruct (for_each _ CLEAN_XOR (_, a)) as [[[]|e1] [[t1 c1] n1]],
             (for_each _ CLEAN_XOR (_, b)) as [[[]|e2] [[t2 c2] n2]];
      cbn [fst snd] in *; try done; congruence.
Qed.

(** X17. The losses and the accuracy are functions of the weights and the
    biases: two engines with the same weights and biases get the same
    training loss on every dataset and the same clean metrics, or fail the
    same way, whatever else they hold. So an engine rebuilt from a
    snapshot measures what the engine of the snapshot measured. *)
Theorem metrics_depend_on_parameters (a b : Network.t) (data : list DataPoint)
    (strength : number) :
  weights a = weights b -> biases a = biases b ->
  (computeTrainLoss a data strength).1 = (computeTrainLoss b data strength).1
  /\ (computeCleanMetrics a).1 = (computeCleanMetrics b).1.
Proof.
  intros Hw Hb. split.
  - by apply computeTrainLoss_parameters.
  - by apply computeCleanMetrics_parameters.
Qed.

(** *** The accuracy *)

Lemma accuracy_loop_clean (items : list (vector * vector)) (net : Network.t)
    (total : number) (correct : Z) :
  (for_each App.accuracy_item items (correct, net)).1
  = (for_each clean_item items (total, correct, net)).1
  /\ (for_each App.accuracy_item items (correct, net)).2.1
     = (for_each clean_item items (total, correct, net)).2.1.2
  /\ (for_each App.accuracy_item items (correct, net)).2.2
     = (for_each clean_item items (total, correct, net)).2.2.
Proof.
  apply (for_each_related
    (fun (s1 : Z * Network.t) (s2 : number * Z * Network.t) =>
       s1.1 = s2.1.2 /\ s1.2 = s2.2)
    App.accuracy_item clean_item items (correct, net) (total, correct, net)); [|done].
  intros d [c1 n1] [[t2 c2] n2] [Hcn Hn]. cbn [fst snd] in *. subst c2 n2.
  unfold App.accuracy_item, clean_item.
  destruct (forward n1 d.1) as [[o|e] m]; done.
Qed.

Lemma computeAccuracy_clean (net : Network.t) :
  App.computeAccuracy net
  = match computeCleanMetrics net with
    | (Normal (_, accuracy), net') => (Normal accuracy, net')
    | (Throw e, net') => (Throw e, net')
    end.
Proof.
  unfold App.computeAccuracy, computeCleanMetrics.
  destruct (accuracy_loop_clean CLEAN_XOR net 0%float 0%Z) as (Hc & Hcorrect & Hnet).
  destruct (for_each _ CLEAN_XOR (0%Z, net)) as [[[]|e1] [c1 n1]],
           (for_each _ CLEAN_XOR (_, net)) as [[[]|e2] [[t2 c2] n2]];
    cbn [fst snd] in *; try done; congruence.
Qed.

(** X18. The accuracy that the tests ([computeAccuracy]) and the application
    ([liveAccuracy]) compute is the accuracy of [computeCleanMetrics] on
    the same engine: the two loops count the same points, fail at the same
    point, and leave the same engine. *)
Theorem computeAccuracy_agrees (net : Network.t) :
  App.computeAccuracy net
  = match computeCleanMetrics net with
    | (Normal (_, accuracy), net') => (Normal accuracy, net')
    | (Throw e, net') => (Throw e, net')
    end
  /\ (App.liveAccuracy {| network := net; steps := []; currentStep := 0;
                           isPlaying := false; selectedInputIdx := 0 |}).1
     = match (computeCleanMetrics net).1 with
       | Normal (_, accuracy) => Normal accuracy
       | Throw e => Throw e
       end.
Proof.
  assert (App.computeAccuracy net
          = match computeCleanMetrics net with
            | (Normal (_, accuracy), net') => (Normal accuracy, net')
            | (Throw e, net') => (Throw e, net')
            end) as Hsame.
  { unfold App.computeAccuracy, computeCleanMetrics.
    destruct (accuracy_loop_clean CLEAN_XOR net 0%float 0%Z) as (Hc & Hcorrect & Hnet).
    destruct (for_each _ CLEAN_XOR (0%Z, net)) as [[[]|e1] [c1 n1]],
             (for_each _ CLEAN_XOR (_, net)) as [[[]|e2] [[t2 c2] n2]];
      cbn [fst snd] in *; try done; congruence. }
  split; [exact Hsame|].
  unfold App.liveAccuracy. cbn [network]. rewrite Hsame.
  by destruct (computeCleanMetrics net) as [[[cl acc]|e] net'].
Qed.

Lemma clean_item_counts (d : vector * vector) (st st' : number * Z * Network.t) :
  clean_item d st = (Normal tt, st') ->
  st'.1.2 = st.1.2 \/ st'.1.2 = (st.1.2 + 1)%Z.
Proof.
  destruct st as [[total correct] net0]. unfold clean_item.
  destruct (forward net0 d.1) as [[output|e] net1]; [|done].
  intros [= <-]. cbn [fst snd].
  destruct (_ =? _)%float; [by right|by left].
Qed.

(** X19. The accuracy is the fraction of four points: when the clean metrics
    are computed, the accuracy is one of [0], [0.25], [0.5], [0.75] and
    [1]. *)
Theorem accuracy_is_a_quarter_fraction (net : Network.t) (cleanLoss accuracy : number) :
  (computeCleanMetrics net).1 = Normal (cleanLoss, accuracy) ->
  accuracy ∈ [0; 0.25; 0.5; 0.75; 1]%float.
Proof.
  unfold computeCleanMetrics, CLEAN_XOR. cbn [for_each].
  destruct (clean_item _ (0%float, 0%Z, net)) as [[[]|e1] [[t1 c1] n1]] eqn:E1; [|done].
  destruct (clean_item _ (t1, c1, n1)) as [[[]|e2] [[t2 c2] n2]] eqn:E2; [|done].
  destruct (clean_item _ (t2, c2, n2)) as [[[]|e3] [[t3 c3] n3]] eqn:E3; [|done].
  destruct (clean_item _ (t3, c3, n3)) as [[[]|e4] [[t4 c4] n4]] eqn:E4; [|done].
  apply clean_item_counts in E1, E2, E3, E4. cbn [fst snd] in *.
  intros [= _ <-].
  assert (c4 = 0 \/ c4 = 1 \/ c4 = 2 \/ c4 = 3 \/ c4 = 4)%Z as Hc by lia.
  destruct Hc as [->|[->|[->|[->| ->]]]]; vm_compute;
    repeat first [apply list_elem_of_here | apply list_elem_of_further].
Qed.

End Metrics.

Lemma accuracy_is_a_quarter_fraction_witness :
  exists cleanLoss accuracy : number,
    (@computeCleanMetrics ReferenceMath.lib xor_network).1 = Normal (cleanLoss, accuracy)
    /\ accuracy ∈ [0; 0.25; 0.5; 0.75; 1]%float.
Proof.
  eexists _, _. split; [vm_compute; reflexivity|].
  eapply (@accuracy_is_a_quarter_fraction ReferenceMath.lib xor_network).
  vm_compute. reflexivity.
Defined.

Lemma metrics_depend_on_parameters_witness :
  (@computeTrainLoss ReferenceMath.lib trained_once (trainingData default_hook) 0%float).1
  = (@computeTrainLoss ReferenceMath.lib xor_network (trainingData default_hook) 0%float).1
  /\ (@computeCleanMetrics ReferenceMath.lib trained_once).1
     = (@computeCleanMetrics ReferenceMath.lib xor_network).1.
Proof.
  apply (@metrics_depend_on_parameters ReferenceMath.lib trained_once xor_network).
  - vm_compute. reflexivity.
  - vm_compute. reflexivity.
Defined.

(** ** The updaters of the hook *)

Section Updaters.
Context `{MathLib}.

(** The engine that [trainStep] and [goToStep] rebuild from a snapshot:
    [new Network(layerSizes)] followed by [setState] keeps nothing of what
    the constructor drew. *)
Lemma setState_new (sizes : list nat) (seed : option number) (rnd : entropy)
    (s : NetworkState.t) :
  setState (new sizes seed rnd) s
  = {| layerSizes := sizes;
       weights := NetworkState.weights s; biases := NetworkState.biases s;
       preActivations := NetworkState.preActivations s;
       activations := NetworkState.activations s;
       weightGrads := NetworkState.weightGrads s;
       biasGrads := NetworkState.biasGrads s |}.
Proof.
  unfold setState. destruct (new_fields sizes seed rnd) as (-> & _).
  by rewrite !copy_matrices_id, !copy_vectors_id, !copy_sparse_id.
Qed.

Lemma goToStep_in_range (k : Z) (rnd : entropy) (prev : TrainingState) (s : TrainingStep) :
  (0 <= k)%Z -> steps prev !! Z.to_nat k = Some s ->
  goToStep k rnd prev
  = Normal {| network := setState (new (layerSizes (network prev)) None rnd) (state s);
              steps := steps prev; currentStep := k;
              isPlaying := isPlaying prev; selectedInputIdx := selectedInputIdx prev |}.
Proof.
  intros Hk Hs. unfold goToStep. pose proof (lookup_lt_Some _ _ _ Hs) as Hlt.
  destruct (Z.ltb_spec k 0) as [?|_]; [lia|].
  destruct (Z.leb_spec (Z.of_nat (length (steps prev))) k) as [?|_]; [lia|]. cbn [orb].
  unfold js_index. destruct (Z.ltb_spec k 0) as [?|_]; [lia|]. by rewrite Hs.
Qed.

Lemma goToStep_out_of_range (k : Z) (rnd : entropy) (prev : TrainingState) :
  ~ (0 <= k < Z.of_nat (length (steps prev)))%Z -> goToStep k rnd prev = Normal prev.
Proof.
  intros Hk. unfold goToStep.
  destruct (Z.ltb_spec k 0) as [?|?]; [done|].
  destruct (Z.leb_spec (Z.of_nat (length (steps prev))) k) as [?|?]; [done|lia].
Qed.

Lemma goToStep_cases (k : Z) (rnd : entropy) (prev : TrainingState) :
  (exists s, (0 <= k)%Z /\ steps prev !! Z.to_nat k = Some s)
  \/ ~ (0 <= k < Z.of_nat (length (steps prev)))%Z.
Proof.
  destruct (decide (0 <= k < Z.of_nat (length (steps prev)))%Z) as [Hk|Hk]; [left|by right].
  destruct (lookup_lt_is_Some_2 (steps prev) (Z.to_nat k)) as [s Hs]; [lia|].
  exists s. split; [lia|done].
Qed.

(** X20. Navigation has no memory and no chance in it. The indices here are
    integers, as the type of [goToStep] has them; a number that is no
    integer is outside this statement. For every integer [k], in the range
    of the history or not, [goToStep] on [k] does not throw; going to [k]
    a second time changes nothing; and going to an integer index [j] of
    the history after going to [k] gives the state that going to [j]
    directly gives, whatever [k] is and whatever [Math.random] returned to
    the constructors: the random weights of the rebuilt engine never
    show. *)
Theorem goToStep_composes (prev : TrainingState) (k j : Z) (rnd1 rnd2 rnd3 : entropy) :
  exists mid : TrainingState,
    goToStep k rnd1 prev = Normal mid
    /\ goToStep k rnd2 mid = Normal mid
    /\ ((0 <= j < Z.of_nat (length (steps prev)))%Z ->
        goToStep j rnd2 mid = goToStep j rnd3 prev).
Proof.
  destruct (goToStep_cases k rnd1 prev) as [(s & Hk & Hs)|Hk].
  - rewrite (goToStep_in_range k rnd1 prev s Hk Hs). eexists. split; [done|]. split.
    + rewrite (goToStep_in_range k rnd2 _ s Hk) by done.
      cbn [network steps isPlaying selectedInputIdx]. by rewrite !setState_new.
    + intros Hj. destruct (goToStep_cases j rnd3 prev) as [(sj & Hj' & Hsj)|Hj']; [|done].
      rewrite (goToStep_in_range j rnd3 prev sj Hj' Hsj).
      rewrite (goToStep_in_range j rnd2 _ sj Hj') by done.
      cbn [network steps isPlaying selectedInputIdx]. by rewrite !setState_new.
  - rewrite (goToStep_out_of_range k rnd1 prev Hk). exists prev. split; [done|]. split.
    + by apply goToStep_out_of_range.
    + intros Hj. destruct (goToStep_cases j rnd3 prev) as [(sj & Hj' & Hsj)|Hj']; [|done].
      rewrite (goToStep_in_range j rnd3 prev sj Hj' Hsj).
      rewrite (goToStep_in_range j rnd2 prev sj Hj' Hsj). by rewrite !setState_new.
Qed.

End Updaters.

(** ** One epoch *)

Section Epoch.
Context `{MathLib}.

Lemma backward_keeps (net : Network.t) (x target : vector) (strength : number) :
  same_forward_fields (backward net x target strength).2 net.
Proof.
  unfold backward.
  match goal with |- context [for_each ?b ?l ?s] =>
    pose proof (for_each_preserves b (fun st => same_forward_fields st.2 net) l s) as Hloop;
    destruct (for_each b l s) as [c [delta' net']] end.
  cbn [fst snd] in *. apply Hloop; [|done].
  intros i st. apply backward_layer_frame.
Qed.

Lemma step_keeps (net : Network.t) (learningRate : number) :
  layerSizes (Network.step net learningRate).2 = layerSizes net.
Proof.
  unfold Network.step.
  apply (for_each_preserves (step_layer learningRate)
    (fun net1 => layerSizes net1 = layerSizes net /\ preActivations net1 = preActivations net
       /\ activations net1 = activations net /\ weightGrads net1 = weightGrads net
       /\ biasGrads net1 = biasGrads net
       /\ length (weights net1) = length (weights net)
       /\ length (biases net1) = length (biases net))); [|done].
  intros i net1. apply step_layer_keeps.
Qed.

Lemma train_example_layerSizes (h : Hook) (d : DataPoint) (net : Network.t) :
  layerSizes (train_example h d net).2 = layerSizes net.
Proof.
  unfold train_example.
  destruct (forward_keeps net (input d)) as (Hls1 & _).
  destruct (forward net (input d)) as [[out|e] net1]; [|done]. cbn [snd] in Hls1.
  destruct (backward_keeps net1 (input d) (target d) (confidencePenalty h)) as (Hls2 & _).
  destruct (backward net1 _ _ _) as [[[]|e] net2]; cbn [snd] in *; [|congruence].
  rewrite step_keeps. congruence.
Qed.

Lemma epoch_layerSizes (h : Hook) (data : list DataPoint) (net : Network.t) :
  layerSizes (for_each (train_example h) data net).2 = layerSizes net.
Proof.
  apply (for_each_preserves (train_example h)
           (fun net1 => layerSizes net1 = layerSizes net)); [|done].
  intros d net1 Hls. by rewrite train_example_layerSizes.
Qed.

(** What [trainStep] does from a snapshot [s] with shaped parameters: the
    epoch from the state of [s], the export, then the two metrics, which
    leave the parameters and the gradients that were exported. *)
Lemma trainStep_from (sizes : list nat) (h : Hook) (rnd : entropy) (prev : TrainingState)
    (s : TrainingStep) :
  passes sizes 2 ->
  (0 <= currentStep prev)%Z ->
  steps prev !! Z.to_nat (currentStep prev) = Some s ->
  shaped sizes (NetworkState.weights (state s)) (NetworkState.biases (state s)) ->
  exists (net1 net3 : Network.t) (loss cleanLoss accuracy : number),
    for_each (train_example h) (trainingData h)
      (setState (new (layerSizes (network prev)) None rnd) (state s)) = (Normal tt, net1)
    /\ shaped sizes (weights net1) (biases net1)
    /\ layerSizes net1 = layerSizes (network prev)
    /\ (computeTrainLoss net1 (trainingData h) (confidencePenalty h)).1 = Normal loss
    /\ (computeCleanMetrics net1).1 = Normal (cleanLoss, accuracy)
    /\ same_training net3 net1
    /\ trainStep h rnd prev
       = Normal {| network := net3;
                   steps := steps prev ++
                     [ {| step := currentStep prev + 1; state := getState net1;
                          loss := loss; cleanLoss := cleanLoss; accuracy := accuracy;
                          currentInputIdx := 0 |} ];
                   currentStep := currentStep prev + 1;
                   isPlaying := isPlaying prev;
                   selectedInputIdx := selectedInputIdx prev |}.
Proof.
  intros Hpasses Hcur Hs Hshaped. unfold trainStep, js_index.
  destruct (Z.ltb_spec (currentStep prev) 0) as [?|_]; [lia|]. rewrite Hs.
  set (net := setState _ (state s)).
  assert (shaped sizes (weights net) (biases net)) as Hshaped0.
  { unfold net, setState. cbn [weights biases]. by rewrite copy_matrices_id, copy_vectors_id. }
  destruct (epoch_normal sizes h net Hpasses Hshaped0) as (net1 & Hrun & Hshaped1).
  pose proof (epoch_layerSizes h (trainingData h) net) as Hls. rewrite Hrun in Hls.
  cbn [snd] in Hls. rewrite Hrun.
  assert (forall d, d ∈ trainingData h -> passes sizes (length (input d))) as Hdata.
  { intros d Hd. by rewrite (trainingData_inputs h d Hd). }
  destruct (computeTrainLoss_normal sizes net1 (trainingData h) (confidencePenalty h)
              Hdata Hshaped1) as (loss & net2 & Hloss & Hsame2).
  pose proof (computeTrainLoss_keeps net1 (trainingData h) (confidencePenalty h)) as Hkeep2.
  rewrite Hloss in Hkeep2 |- *. cbn [snd] in Hkeep2.
  pose proof (shaped_same_parameters _ _ _ Hsame2 Hshaped1) as Hshaped2.
  destruct (computeCleanMetrics_normal sizes net2 Hpasses Hshaped2)
    as ([cleanLoss acc] & net3 & Hclean & Hsame3).
  pose proof (computeCleanMetrics_keeps net2) as Hkeep3.
  rewrite Hclean in Hkeep3 |- *. cbn [snd] in Hkeep3.
  exists net1, net3, loss, cleanLoss, acc. split_and!; try done.
  - rewrite Hls. unfold net. by rewrite setState_new.
  - by rewrite Hloss.
  - pose proof (computeCleanMetrics_parameters net2 net1 Hsame2) as E.
    rewrite Hclean in E. done.
  - destruct Hkeep2 as (? & ? & ? & ? & ?), Hkeep3 as (? & ? & ? & ? & ?).
    unfold same_training. split_and!; congruence.
Qed.

End Epoch.

Section TrainStep.
Context `{MathLib}.


(** X22. What [trainStep] reads of the state it is given: the history, the
    current index, the two flags, and of the engine its topology only.
    What the engine holds otherwise, and what [Math.random] returns to the
    constructor, has no effect on the result: the engine is rebuilt from
    the current snapshot. *)
Theorem trainStep_reads (h : Hook) (rnd rnd' : entropy) (prev prev' : TrainingState) :
  layerSizes (network prev) = layerSizes (network prev') ->
  steps prev = steps prev' ->
  currentStep prev = currentStep prev' ->
  isPlaying prev = isPlaying prev' ->
  selectedInputIdx prev = selectedInputIdx prev' ->
  trainStep h rnd prev = trainStep h rnd' prev'.
Proof.
  intros Hls Hsteps Hcur Hplay Hsel. unfold trainStep.
  rewrite Hsteps, Hcur, Hplay, Hsel, Hls.
  destruct (js_index (steps prev') (currentStep prev')) as [s|]; [|done].
  by rewrite !setState_new.
Qed.

Lemma generateNoisyData_nothing (noiseLevel seed : number) :
  generateNoisyData 0 noiseLevel seed = [].
Proof. reflexivity. Qed.

(** X23. With no sample in the dataset an epoch changes nothing: [trainStep]
    appends a snapshot whose state is the state of the current snapshot,
    gradients and stored activations included, and whose training loss is
    [0 / 0], that is [NaN]. *)
Theorem trainStep_without_data (sizes : list nat) (h : Hook) (rnd : entropy)
    (prev : TrainingState) (s : TrainingStep) :
  numSamples h = 0 ->
  passes sizes 2 ->
  (0 <= currentStep prev)%Z ->
  steps prev !! Z.to_nat (currentStep prev) = Some s ->
  shaped sizes (NetworkState.weights (state s)) (NetworkState.biases (state s)) ->
  exists (next : TrainingState) (s' : TrainingStep),
    trainStep h rnd prev = Normal next
    /\ steps next = steps prev ++ [s']
    /\ state s' = state s
    /\ loss s' = nan.
Proof.
  intros Hnone Hpasses Hcur Hs Hshaped.
  destruct (trainStep_from sizes h rnd prev s Hpasses Hcur Hs Hshaped)
    as (net1 & net3 & loss & cleanLoss & acc & Hepoch & _ & _ & Hloss & _ & _ & ->).
  assert (trainingData h = []) as Hdata.
  { unfold trainingData. rewrite Hnone. apply generateNoisyData_nothing. }
  rewrite Hdata in Hepoch, Hloss. cbn [for_each] in Hepoch. injection Hepoch as <-.
  eexists _, _. split; [reflexivity|]. cbn [steps state Training.loss].
  split; [done|]. split.
  - apply getState_setState_fields.
  - unfold computeTrainLoss in Hloss. cbn [for_each fst] in Hloss.
    injection Hloss as <-. reflexivity.
Qed.

End TrainStep.

Lemma xor_state_shaped :
  shaped [2; 4; 1] (NetworkState.weights (getState xor_network))
    (NetworkState.biases (getState xor_network)).
Proof. apply getState_shaped. apply (@new_shaped ReferenceMath.lib). Qed.


Lemma trainStep_reads_witness :
  @trainStep ReferenceMath.lib default_hook (fun _ => 0.5%float) xor_state
  = @trainStep ReferenceMath.lib default_hook (fun _ => 0.25%float)
      {| network := trained_once; steps := steps xor_state; currentStep := 0;
         isPlaying := false; selectedInputIdx := 0 |}.
Proof.
  apply (@trainStep_reads ReferenceMath.lib default_hook); reflexivity.
Defined.

Lemma trainStep_without_data_witness :
  exists (next : TrainingState) (s' : TrainingStep),
    @trainStep ReferenceMath.lib hook_without_data (fun _ => 0.5%float) xor_state = Normal next
    /\ steps next = steps xor_state ++ [s']
    /\ state s' = getState xor_network
    /\ loss s' = nan.
Proof.
  apply (@trainStep_without_data ReferenceMath.lib [2; 4; 1] hook_without_data
           (fun _ => 0.5%float) xor_state
           {| step := 0; state := getState xor_network; loss := 0; cleanLoss := 0;
              accuracy := 0; currentInputIdx := 0 |}).
  - reflexivity.
  - apply passes_default. lia.
  - simpl. lia.
  - reflexivity.
  - apply xor_state_shaped.
Defined.

(** ** The states that the application reaches *)

Section Application.
Context `{MathLib}.

Lemma reachable_weaken (config config' : Hook -> Prop) (st : TrainingState) :
  (forall h, config h -> config' h) -> reachable config st -> reachable config' st.
Proof.
  intros Hconfig. induction 1.
  - eapply reach_initial; eauto.
  - eapply reach_reset; eauto.
  - eapply reach_randomize; eauto.
  - eapply reach_onPrev; eauto.
  - eapply reach_onNext; eauto.
  - eapply reach_goToStep; eauto.
  - by apply reach_onTogglePlay.
  - by apply reach_setSelectedInput.
  - by apply reach_forward.
Qed.

(** The engine of a state holds what the current snapshot holds, up to
    the stored intermediate values. *)
Definition engine_is_current (st : TrainingState) : Prop :=
  exists s, (0 <= currentStep st)%Z
    /\ steps st !! Z.to_nat (currentStep st) = Some s
    /\ NetworkState.weights (state s) = weights (network st)
    /\ NetworkState.biases (state s) = biases (network st)
    /\ NetworkState.weightGrads (state s) = weightGrads (network st)
    /\ NetworkState.biasGrads (state s) = biasGrads (network st).

Definition consistent (sizes : list nat) (st : TrainingState) : Prop :=
  layerSizes (network st) = sizes
  /\ (forall i s, steps st !! i = Some s -> step s = Z.of_nat i)
  /\ snapshots_shaped sizes st
  /\ engine_is_current st.

Lemma createInitialState_from (h : Hook) (seed : option number) (rnd : entropy) :
  passes (initialLayerSizes h) 2 ->
  exists (net2 : Network.t) (loss cleanLoss accuracy : number),
    same_training net2 (new (initialLayerSizes h) seed rnd)
    /\ (computeTrainLoss (new (initialLayerSizes h) seed rnd) (trainingData h)
          (confidencePenalty h)).1 = Normal loss
    /\ (computeCleanMetrics (new (initialLayerSizes h) seed rnd)).1
       = Normal (cleanLoss, accuracy)
    /\ createInitialState h seed rnd
       = Normal {| network := net2;
                   steps := [ {| step := 0; state := getState net2; loss := loss;
                                 cleanLoss := cleanLoss; accuracy := accuracy;
                                 currentInputIdx := 0 |} ];
                   currentStep := 0; isPlaying := false; selectedInputIdx := 0 |}.
Proof.
  intros Hpasses. unfold createInitialState.
  pose proof (new_shaped (initialLayerSizes h) seed rnd) as Hshaped.
  set (net := new (initialLayerSizes h) seed rnd) in *.
  assert (forall d, d ∈ trainingData h -> passes (initialLayerSizes h) (length (input d)))
    as Hdata.
  { intros d Hd. by rewrite (trainingData_inputs h d Hd). }
  destruct (computeTrainLoss_normal (initialLayerSizes h) net (trainingData h)
              (confidencePenalty h) Hdata Hshaped) as (loss & net1 & Hloss & Hsame1).
  pose proof (computeTrainLoss_keeps net (trainingData h) (confidencePenalty h)) as Hkeep1.
  rewrite Hloss in Hkeep1 |- *. cbn [snd] in Hkeep1.
  pose proof (shaped_same_parameters _ _ _ Hsame1 Hshaped) as Hshaped1.
  destruct (computeCleanMetrics_normal (initialLayerSizes h) net1 Hpasses Hshaped1)
    as ([cleanLoss acc] & net2 & Hclean & Hsame2).
  pose proof (computeCleanMetrics_keeps net1) as Hkeep2.
  rewrite Hclean in Hkeep2 |- *. cbn [snd] in Hkeep2.
  exists net2, loss, cleanLoss, acc. split_and!; try done.
  - destruct Hkeep1 as (? & ? & ? & ? & ?), Hkeep2 as (? & ? & ? & ? & ?).
    unfold same_training. split_and!; congruence.
  - pose proof (computeCleanMetrics_parameters net1 net Hsame1) as E.
    rewrite Hclean in E. done.
Qed.

Lemma getState_fields (net : Network.t) :
  NetworkState.weights (getState net) = weights net
  /\ NetworkState.biases (getState net) = biases net
  /\ NetworkState.weightGrads (getState net) = weightGrads net
  /\ NetworkState.biasGrads (getState net) = biasGrads net.
Proof.
  unfold getState. cbn. by rewrite !copy_matrices_id, !copy_vectors_id, !copy_sparse_id.
Qed.

Lemma consistent_initial (h : Hook) (seed : option number) (rnd : entropy)
    (st : TrainingState) :
  passes (initialLayerSizes h) 2 ->
  createInitialState h seed rnd = Normal st ->
  consistent (initialLayerSizes h) st.
Proof.
  intros Hpasses Hinit.
  destruct (createInitialState_from h seed rnd Hpasses)
    as (net2 & loss & cleanLoss & acc & Hsame & _ & _ & Hrun).
  rewrite Hrun in Hinit. injection Hinit as <-.
  destruct Hsame as (Hls & Hw & Hb & Hgw & Hgb).
  destruct (new_fields (initialLayerSizes h) seed rnd) as (Hls0 & _).
  destruct (getState_fields net2) as (Ew & Eb & Egw & Egb).
  split_and!.
  - cbn. congruence.
  - intros i s [-> <-]%list_lookup_singleton_Some. done.
  - intros i s [-> <-]%list_lookup_singleton_Some. cbn [state]. apply getState_shaped.
    rewrite Hw, Hb. apply new_shaped.
  - eexists. cbn [currentStep steps network]. split; [lia|]. split; [reflexivity|].
    cbn [state]. done.
Qed.

Lemma consistent_current (sizes : list nat) (st : TrainingState) :
  consistent sizes st ->
  exists s, (0 <= currentStep st)%Z
    /\ steps st !! Z.to_nat (currentStep st) = Some s
    /\ shaped sizes (NetworkState.weights (state s)) (NetworkState.biases (state s))
    /\ shaped sizes (weights (network st)) (biases (network st)).
Proof.
  intros (_ & _ & Hsnap & s & Hcur & Hs & Hw & Hb & _).
  exists s. split_and!; try done; [by apply (Hsnap _ s Hs)|].
  rewrite <- Hw, <- Hb. by apply (Hsnap _ s Hs).
Qed.

Lemma consistent_goToStep (sizes : list nat) (k : Z) (rnd : entropy)
    (st st' : TrainingState) :
  consistent sizes st -> goToStep k rnd st = Normal st' -> consistent sizes st'.
Proof.
  intros Hcons Hrun.
  destruct (goToStep_cases k rnd st) as [(s & Hk & Hs)|Hk].
  - rewrite (goToStep_in_range k rnd st s Hk Hs) in Hrun. injection Hrun as <-.
    destruct Hcons as (Hls & Hnum & Hsnap & _). rewrite setState_new.
    split_and!; try done. exists s. cbn. done.
  - rewrite (goToStep_out_of_range k rnd st Hk) in Hrun. by injection Hrun as <-.
Qed.

Lemma consistent_trainStep (sizes : list nat) (h : Hook) (rnd : entropy)
    (st st' : TrainingState) :
  passes sizes 2 ->
  consistent sizes st ->
  currentStep st = (Z.of_nat (length (steps st)) - 1)%Z ->
  trainStep h rnd st = Normal st' -> consistent sizes st'.
Proof.
  intros Hpasses Hcons Hlast Hrun.
  destruct (consistent_current sizes st Hcons) as (s & Hcur & Hs & Hshaped & _).
  destruct (trainStep_from sizes h rnd st s Hpasses Hcur Hs Hshaped)
    as (net1 & net3 & loss & cleanLoss & acc & _ & Hshaped1 & Hls1 & _ & _ & Hsame & Hstep).
  rewrite Hstep in Hrun. injection Hrun as <-.
  destruct Hcons as (Hls & Hnum & Hsnap & _).
  destruct Hsame as (Hls3 & Hw & Hb & Hgw & Hgb).
  destruct (getState_fields net1) as (Ew & Eb & Egw & Egb).
  pose proof (lookup_lt_Some _ _ _ Hs) as Hlt.
  split_and!.
  - cbn. congruence.
  - intros i s' [[_ Hi]|[-> <-]]%lookup_snoc_Some; [by apply Hnum|]. cbn [step]. lia.
  - intros i s' [[_ Hi]|[-> <-]]%lookup_snoc_Some; [by apply (Hsnap i)|].
    cbn [state]. by apply getState_shaped.
  - eexists. cbn [currentStep steps network]. split; [lia|]. split.
    + apply lookup_snoc_Some. right. split; [lia|reflexivity].
    + cbn [state]. split_and!; congruence.
Qed.

Lemma consistent_forward (sizes : list nat) (x : vector) (st : TrainingState) :
  consistent sizes st -> consistent sizes (with_network (forward (network st) x).2 st).
Proof.
  intros (Hls & Hnum & Hsnap & s & Hcur & Hs & Hw & Hb & Hgw & Hgb).
  destruct (forward_keeps (network st) x) as (Hls' & Hw' & Hb' & Hgw' & Hgb' & _).
  split_and!; try done.
  - cbn. congruence.
  - exists s. cbn. split_and!; congruence.
Qed.

(** [onNext] in a consistent state: one index further, with one snapshot
    more when the current snapshot was the last one. *)
Lemma onNext_from (sizes : list nat) (h : Hook) (rnd : entropy) (st : TrainingState) :
  passes sizes 2 ->
  consistent sizes st ->
  exists st', App.onNext h rnd st = Normal st'
    /\ currentStep st' = (currentStep st + 1)%Z
    /\ length (steps st')
       = length (steps st)
         + (if (currentStep st =? Z.of_nat (length (steps st)) - 1)%Z then 1 else 0).
Proof.
  intros Hpasses Hcons.
  destruct (consistent_current sizes st Hcons) as (s & Hcur & Hs & Hshaped & _).
  pose proof (lookup_lt_Some _ _ _ Hs) as Hlt. unfold App.onNext.
  destruct (Z.eqb_spec (currentStep st) (Z.of_nat (length (steps st)) - 1)) as [Hlast|Hmid].
  - destruct (trainStep_from sizes h rnd st s Hpasses Hcur Hs Hshaped)
      as (net1 & net3 & loss & cleanLoss & acc & _ & _ & _ & _ & _ & _ & ->).
    eexists. split; [reflexivity|]. cbn [currentStep steps]. split; [done|].
    rewrite length_app. simpl. lia.
  - destruct (lookup_lt_is_Some_2 (steps st) (Z.to_nat (currentStep st + 1)))
      as [s1 Hs1]; [lia|].
    rewrite (goToStep_in_range _ rnd st s1) by (lia || done).
    eexists. split; [reflexivity|]. cbn [currentStep steps]. split; [done|]. lia.
Qed.

Lemma reachable_consistent (sizes : list nat) (st : TrainingState) :
  passes sizes 2 ->
  reachable (fun h => initialLayerSizes h = sizes) st ->
  consistent sizes st.
Proof.
  intros Hpasses. induction 1 as [h rnd st Hconfig Hinit|h rnd st st' Hconfig _ _ Hinit
    |h now rnd st st' Hconfig _ _ Hinit|rnd st st' _ IH Hrun
    |h rnd st st' _ _ IH Hrun|k rnd st st' _ IH Hrun|st _ IH|idx st _ IH|x st _ IH].
  - subst sizes. by apply (consistent_initial h (Some 123%float) rnd).
  - subst sizes. by apply (consistent_initial h (Some 123%float) rnd).
  - subst sizes. by apply (consistent_initial h (Some (of_Z (Z.rem now 99999 + 1))) rnd).
  - by apply (consistent_goToStep sizes (currentStep st - 1) rnd st).
  - unfold App.onNext in Hrun.
    destruct (Z.eqb_spec (currentStep st) (Z.of_nat (length (steps st)) - 1)) as [Hlast|_].
    + by apply (consistent_trainStep sizes h rnd st).
    + by apply (consistent_goToStep sizes (currentStep st + 1) rnd st).
  - by apply (consistent_goToStep sizes k rnd st).
  - done.
  - done.
  - by apply consistent_forward.
Qed.

(** X24. Through the handlers of the application the history stays numbered
    by position and the engine stays the current snapshot. With a topology
    that the samples pass through, in every state that the application
    reaches the topology of the engine is the one of the configuration,
    the snapshot at every position [i] is numbered [i] and holds
    parameters of the shapes of the topology, the current index is a
    position of the history, and the engine holds the weights, the biases
    and the gradients of the current snapshot. *)
Theorem reachable_states_consistent (sizes : list nat) (st : TrainingState) :
  passes sizes 2 ->
  reachable (fun h => initialLayerSizes h = sizes) st ->
  layerSizes (network st) = sizes
  /\ (forall i s, steps st !! i = Some s ->
        step s = Z.of_nat i
        /\ shaped sizes (NetworkState.weights (state s)) (NetworkState.biases (state s)))
  /\ exists s, (0 <= currentStep st)%Z
       /\ steps st !! Z.to_nat (currentStep st) = Some s
       /\ NetworkState.weights (state s) = weights (network st)
       /\ NetworkState.biases (state s) = biases (network st)
       /\ NetworkState.weightGrads (state s) = weightGrads (network st)
       /\ NetworkState.biasGrads (state s) = biasGrads (network st).
Proof.
  intros Hpasses Hreach.
  destruct (reachable_consistent sizes st Hpasses Hreach) as (Hls & Hnum & Hsnap & Hcur).
  split; [done|]. split; [|done].
  intros i s Hs. split; [by apply Hnum|by apply (Hsnap i)].
Qed.

(** X25. In a state that the application reaches, with a topology that the
    samples pass through, no handler and no live metric throws: [onPrev],
    [onNext] and [goToStep] return a state, the live accuracy and the live
    loss return a number, and the current snapshot that the render reads
    is there. *)
Theorem handlers_never_throw (sizes : list nat) (h : Hook) (rnd : entropy) (k : Z)
    (st : TrainingState) :
  passes sizes 2 ->
  reachable (fun h => initialLayerSizes h = sizes) st ->
  (exists st', App.onPrev rnd st = Normal st')
  /\ (exists st', App.onNext h rnd st = Normal st')
  /\ (exists st', goToStep k rnd st = Normal st')
  /\ (exists accuracy, (App.liveAccuracy st).1 = Normal accuracy)
  /\ (exists loss, (App.liveLoss h st).1 = Normal loss)
  /\ is_Some (js_index (steps st) (currentStep st)).
Proof.
  intros Hpasses Hreach.
  pose proof (reachable_consistent sizes st Hpasses Hreach) as Hcons.
  destruct (consistent_current sizes st Hcons) as (s & Hcur & Hs & Hshaped & Hshaped_net).
  assert (forall j, exists st', goToStep j rnd st = Normal st') as Hgo.
  { intros j. destruct (goToStep_cases j rnd st) as [(sj & Hj & Hsj)|Hj].
    - rewrite (goToStep_in_range j rnd st sj Hj Hsj). by eexists.
    - rewrite (goToStep_out_of_range j rnd st Hj). by eexists. }
  split_and!.
  - apply Hgo.
  - unfold App.onNext. destruct (_ =? _)%Z; [|apply Hgo].
    destruct (trainStep_from sizes h rnd st s Hpasses Hcur Hs Hshaped)
      as (net1 & net3 & loss & cleanLoss & acc & _ & _ & _ & _ & _ & _ & ->). by eexists.
  - apply Hgo.
  - unfold App.liveAccuracy. rewrite computeAccuracy_clean.
    destruct (computeCleanMetrics_normal sizes (network st) Hpasses Hshaped_net)
      as ([cleanLoss acc] & net' & -> & _). by eexists.
  - unfold App.liveLoss.
    destruct (computeTrainLoss_normal sizes (network st) (trainingData h)
                (confidencePenalty h)) as (loss & net' & -> & _); [|done|by eexists].
    intros d Hd. by rewrite (trainingData_inputs h d Hd).
  - unfold js_index. destruct (Z.ltb_spec (currentStep st) 0) as [?|_]; [lia|].
    by rewrite Hs.
Qed.

(** *** The metrics stored in the history *)

(** Every snapshot stores the metrics of its own parameters under the
    configuration [h]. *)
Definition stored_metrics (h : Hook) (st : TrainingState) : Prop :=
  forall i s net, steps st !! i = Some s ->
    weights net = NetworkState.weights (state s) ->
    biases net = NetworkState.biases (state s) ->
    (computeTrainLoss net (trainingData h) (confidencePenalty h)).1 = Normal (loss s)
    /\ (computeCleanMetrics net).1 = Normal (cleanLoss s, accuracy s).

Lemma stored_metrics_goToStep (h : Hook) (k : Z) (rnd : entropy) (st st' : TrainingState) :
  stored_metrics h st -> goToStep k rnd st = Normal st' -> stored_metrics h st'.
Proof.
  intros Hstored Hrun.
  destruct (goToStep_cases k rnd st) as [(s & Hk & Hs)|Hk].
  - rewrite (goToStep_in_range k rnd st s Hk Hs) in Hrun. by injection Hrun as <-.
  - rewrite (goToStep_out_of_range k rnd st Hk) in Hrun. by injection Hrun as <-.
Qed.

Lemma reachable_stored_metrics (h : Hook) (st : TrainingState) :
  passes (initialLayerSizes h) 2 ->
  reachable (eq h) st ->
  stored_metrics h st.
Proof.
  intros Hpasses Hreach.
  assert (forall st, reachable (eq h) st -> consistent (initialLayerSizes h) st) as Hcons.
  { intros st0 Hst0. apply reachable_consistent; [done|].
    apply (reachable_weaken (eq h)); [|done]. by intros h' <-. }
  assert (forall seed rnd st, createInitialState h seed rnd = Normal st ->
            stored_metrics h st) as Hinitial.
  { intros seed rnd st0 Hinit.
    destruct (createInitialState_from h seed rnd Hpasses)
      as (net2 & loss & cleanLoss & acc & Hsame & Hloss & Hclean & Hrun).
    rewrite Hrun in Hinit. injection Hinit as <-.
    destruct Hsame as (_ & Hw & Hb & _). destruct (getState_fields net2) as (Ew & Eb & _).
    intros i s net [-> <-]%list_lookup_singleton_Some. cbn [state Training.loss
      Training.cleanLoss Training.accuracy]. intros Hwn Hbn.
    assert (same_parameters net (new (initialLayerSizes h) seed rnd)) as Hsame.
    { split; congruence. }
    rewrite (computeTrainLoss_parameters _ _ _ _ Hsame).
    rewrite (computeCleanMetrics_parameters _ _ Hsame). done. }
  induction Hreach as [h' rnd st Hconfig Hinit|h' rnd st st' Hconfig Hst IH Hinit
    |h' now rnd st st' Hconfig Hst IH Hinit|rnd st st' Hst IH Hrun
    |h' rnd st st' Hconfig Hst IH Hrun|k rnd st st' Hst IH Hrun|st Hst IH|idx st Hst IH
    |x st Hst IH].
  - subst h'. by apply (Hinitial (Some 123%float) rnd).
  - subst h'. by apply (Hinitial (Some 123%float) rnd).
  - subst h'. by apply (Hinitial (Some (of_Z (Z.rem now 99999 + 1))) rnd).
  - by apply (stored_metrics_goToStep h (currentStep st - 1) rnd st).
  - subst h'. unfold App.onNext in Hrun.
    destruct (Z.eqb_spec (currentStep st) (Z.of_nat (length (steps st)) - 1)) as [Hlast|_];
      [|by apply (stored_metrics_goToStep h (currentStep st + 1) rnd st)].
    destruct (consistent_current _ st (Hcons st Hst)) as (s & Hcur & Hs & Hshaped & _).
    destruct (trainStep_from (initialLayerSizes h) h rnd st s Hpasses Hcur Hs Hshaped)
      as (net1 & net3 & loss & cleanLoss & acc & _ & _ & _ & Hloss & Hclean & _ & Hstep).
    rewrite Hstep in Hrun. injection Hrun as <-.
    destruct (getState_fields net1) as (Ew & Eb & _).
    intros i s' net [[_ Hi]|[-> <-]]%lookup_snoc_Some; [by apply (IH i)|].
    cbn [state Training.loss Training.cleanLoss Training.accuracy]. intros Hwn Hbn.
    assert (same_parameters net net1) as Hsame by (split; congruence).
    rewrite (computeTrainLoss_parameters _ _ _ _ Hsame).
    rewrite (computeCleanMetrics_parameters _ _ Hsame). done.
  - by apply (stored_metrics_goToStep h k rnd st).
  - done.
  - done.
  - done.
Qed.

(** X26. Under one configuration, what the header of the application shows
    live is what the history stores: in every state that the application
    reaches, the live training loss and the live accuracy, computed on the
    engine of the state, are the training loss and the accuracy stored in
    the current snapshot. *)
Theorem live_metrics_are_stored (h : Hook) (st : TrainingState) :
  passes (initialLayerSizes h) 2 ->
  reachable (eq h) st ->
  exists s, (0 <= currentStep st)%Z
    /\ steps st !! Z.to_nat (currentStep st) = Some s
    /\ (App.liveLoss h st).1 = Normal (loss s)
    /\ (App.liveAccuracy st).1 = Normal (accuracy s).
Proof.
  intros Hpasses Hreach.
  pose proof (reachable_stored_metrics h st Hpasses Hreach) as Hstored.
  assert (consistent (initialLayerSizes h) st) as Hcons.
  { apply reachable_consistent; [done|].
    apply (reachable_weaken (eq h)); [|done]. by intros h' <-. }
  destruct Hcons as (_ & _ & _ & s & Hcur & Hs & Hw & Hb & _).
  exists s. split; [done|]. split; [done|].
  destruct (Hstored _ s (network st) Hs) as [Hloss Hclean]; [done|done|].
  split; [done|]. unfold App.liveAccuracy. rewrite computeAccuracy_clean.
  destruct (computeCleanMetrics (network st)) as [[[cl acc]|e] net']; [|done].
  cbn [fst] in *. by injection Hclean as _ ->.
Qed.

End Application.

Lemma initial_state_created :
  @createInitialState ReferenceMath.lib default_hook (Some 123%float) (fun _ => 0.5%float)
  = Normal initial_state.
Proof.
  unfold initial_state.
  destruct (@createInitialState_from ReferenceMath.lib default_hook (Some 123%float)
              (fun _ => 0.5%float)) as (net2 & loss & cleanLoss & acc & _ & _ & _ & ->);
    [apply passes_default; lia|reflexivity].
Qed.

Lemma initial_state_reachable (config : Hook -> Prop) :
  config default_hook -> @reachable ReferenceMath.lib config initial_state.
Proof.
  intros Hconfig.
  apply (@reach_initial ReferenceMath.lib config default_hook (fun _ => 0.5%float));
    [done|apply initial_state_created].
Qed.

Lemma initial_state_position :
  currentStep initial_state = 0%Z /\ length (steps initial_state) = 1.
Proof.
  unfold initial_state.
  destruct (@createInitialState_from ReferenceMath.lib default_hook (Some 123%float)
              (fun _ => 0.5%float)) as (net2 & loss & cleanLoss & acc & _ & _ & _ & ->);
    [apply passes_default; lia|done].
Qed.

Lemma second_state_trained :
  @App.onNext ReferenceMath.lib default_hook (fun _ => 0.5%float) initial_state
  = Normal second_state
  /\ currentStep second_state = 1%Z
  /\ length (steps second_state) = 2.
Proof.
  destruct initial_state_position as [Hcur Hlen].
  destruct (@onNext_from ReferenceMath.lib [2; 4; 1] default_hook (fun _ => 0.5%float)
              initial_state) as (st' & Hrun & Hcur' & Hlen').
  - apply passes_default. lia.
  - apply (@reachable_consistent ReferenceMath.lib); [apply passes_default; lia|].
    apply initial_state_reachable. reflexivity.
  - unfold second_state. rewrite Hrun. rewrite Hcur, Hlen in *. split; [done|].
    split; [by rewrite Hcur'|]. by rewrite Hlen'.
Qed.

Lemma second_state_reachable (config : Hook -> Prop) :
  config default_hook -> @reachable ReferenceMath.lib config second_state.
Proof.
  intros Hconfig.
  apply (@reach_onNext ReferenceMath.lib config default_hook (fun _ => 0.5%float)
           initial_state); [done|by apply initial_state_reachable|].
  apply second_state_trained.
Qed.

Lemma goToStep_composes_witness :
  (0 <= 1 < Z.of_nat (length (steps second_state)))%Z
  /\ exists mid : TrainingState,
       @goToStep ReferenceMath.lib 0 (fun _ => 0.5%float) second_state = Normal mid
       /\ @goToStep ReferenceMath.lib 0 (fun _ => 0.25%float) mid = Normal mid
       /\ @goToStep ReferenceMath.lib 1 (fun _ => 0.25%float) mid
          = @goToStep ReferenceMath.lib 1 (fun _ => 0.75%float) second_state.
Proof.
  assert (0 <= 1 < Z.of_nat (length (steps second_state)))%Z as Hj.
  { destruct second_state_trained as (_ & _ & ->). lia. }
  split; [exact Hj|].
  destruct (@goToStep_composes ReferenceMath.lib second_state 0 1 (fun _ => 0.5%float)
              (fun _ => 0.25%float) (fun _ => 0.75%float)) as (mid & Hk & Hkk & Hjk).
  exists mid. split; [exact Hk|]. split; [exact Hkk|]. exact (Hjk Hj).
Defined.

Lemma reachable_states_consistent_witness :
  layerSizes (network initial_state) = [2; 4; 1]
  /\ (forall i s, steps initial_state !! i = Some s ->
        step s = Z.of_nat i
        /\ shaped [2; 4; 1] (NetworkState.weights (state s))
             (NetworkState.biases (state s)))
  /\ exists s, (0 <= currentStep initial_state)%Z
       /\ steps initial_state !! Z.to_nat (currentStep initial_state) = Some s
       /\ NetworkState.weights (state s) = weights (network initial_state)
       /\ NetworkState.biases (state s) = biases (network initial_state)
       /\ NetworkState.weightGrads (state s) = weightGrads (network initial_state)
       /\ NetworkState.biasGrads (state s) = biasGrads (network initial_state).
Proof.
  apply (@reachable_states_consistent ReferenceMath.lib [2; 4; 1] initial_state).
  - apply passes_default. lia.
  - apply initial_state_reachable. reflexivity.
Defined.

Lemma handlers_never_throw_witness :
  (exists st', @App.onPrev ReferenceMath.lib (fun _ => 0.5%float) initial_state = Normal st')
  /\ (exists st', @App.onNext ReferenceMath.lib default_hook (fun _ => 0.5%float)
                    initial_state = Normal st')
  /\ (exists st', @goToStep ReferenceMath.lib 7 (fun _ => 0.5%float) initial_state
                  = Normal st')
  /\ (exists accuracy, (@App.liveAccuracy ReferenceMath.lib initial_state).1
                       = Normal accuracy)
  /\ (exists loss, (@App.liveLoss ReferenceMath.lib default_hook initial_state).1
                   = Normal loss)
  /\ is_Some (js_index (steps initial_state) (currentStep initial_state)).
Proof.
  apply (@handlers_never_throw ReferenceMath.lib [2; 4; 1] default_hook
           (fun _ => 0.5%float) 7 initial_state).
  - apply passes_default. lia.
  - apply initial_state_reachable. reflexivity.
Defined.

Lemma live_metrics_are_stored_witness :
  exists s, (0 <= currentStep initial_state)%Z
    /\ steps initial_state !! Z.to_nat (currentStep initial_state) = Some s
    /\ (@App.liveLoss ReferenceMath.lib default_hook initial_state).1 = Normal (loss s)
    /\ (@App.liveAccuracy ReferenceMath.lib initial_state).1 = Normal (accuracy s).
Proof.
  apply (@live_metrics_are_stored ReferenceMath.lib default_hook initial_state).
  - apply passes_default. lia.
  - apply initial_state_reachable. reflexivity.
Defined.

(** ** The values of the seeded generator *)

Lemma digits2_size (p : positive) : digits2_pos p = Pos.size p.
Proof. induction p as [p IH|p IH|]; simpl; congruence. Qed.

Lemma digits2_bound (p : positive) (n : Z) :
  (0 <= n)%Z -> (Z.pos p < 2 ^ n)%Z -> (Z.pos (digits2_pos p) <= n)%Z.
Proof.
  intros Hn Hp. rewrite digits2_size.
  pose proof (Pos.size_le p) as Hle.
  assert (Z.pos (2 ^ Pos.size p) <= Z.pos p~0)%Z as Hle' by exact Hle.
  rewrite Pos2Z.inj_pow in Hle'. rewrite Pos2Z.inj_xO in Hle'.
  destruct (Z_lt_le_dec n (Z.pos (Pos.size p))) as [Hlt|Hge]; [|done].
  exfalso.
  assert (2 ^ (n + 1) <= 2 ^ Z.pos (Pos.size p))%Z as Hpow.
  { apply Z.pow_le_mono_r; lia. }
  rewrite Z.pow_add_r in Hpow by lia. lia.
Qed.

Lemma digits2_iter_xO (p q : positive) :
  Z.pos (digits2_pos (Pos.iter xO p q)) = (Z.pos (digits2_pos p) + Z.pos q)%Z.
Proof.
  induction q as [|q IH] using Pos.peano_ind.
  - cbn. lia.
  - rewrite Pos.iter_succ. cbn [digits2_pos]. lia.
Qed.

Lemma fexp_normal (e : Z) : (-1021 <= e)%Z -> fexp prec emax e = (e - 53)%Z.
Proof. intros He. unfold fexp, SpecFloat.emin, prec, emax. lia. Qed.

(** A mantissa of 53 bits with an exponent in range is a binary64 value as
    it is. *)
Lemma binary_round_aux_exact (s : bool) (m : positive) (e : Z) :
  Z.pos (digits2_pos m) = 53%Z -> (-1074 <= e <= 971)%Z ->
  binary_round_aux prec emax s (Z.pos m) e loc_Exact = S754_finite s m e.
Proof.
  intros Hd He. unfold binary_round_aux, shr_fexp. cbn [Zdigits2 shr_record_of_loc].
  rewrite Hd, fexp_normal by lia.
  replace (53 + e - 53 - e)%Z with 0%Z by lia.
  cbn [shr shr_m loc_of_shr_record round_nearest_even Zdigits2 shr_record_of_loc].
  rewrite Hd, fexp_normal by lia.
  replace (53 + e - 53 - e)%Z with 0%Z by lia. cbn [shr shr_m].
  destruct (Z.leb_spec e (emax - prec)) as [_|Hgt]; [done|]. unfold emax, prec in Hgt. lia.
Qed.

(** A mantissa of 54 bits that ends in 0 loses that bit. *)
Lemma binary_round_aux_even (s : bool) (m : positive) (e : Z) :
  Z.pos (digits2_pos m) = 53%Z -> (-1075 <= e <= 970)%Z ->
  binary_round_aux prec emax s (Z.pos m~0) e loc_Exact = S754_finite s m (e + 1).
Proof.
  intros Hd He. unfold binary_round_aux, shr_fexp. cbn [Zdigits2 shr_record_of_loc digits2_pos].
  assert (Z.pos (PosDef.Pos.succ (digits2_pos m)) = 54%Z) as ->.
  { etransitivity; [apply Pos2Z.inj_succ|lia]. }
  rewrite fexp_normal by lia.
  replace (54 + e - 53 - e)%Z with 1%Z by lia.
  cbn [shr SpecFloat.iter_pos shr_1 orb shr_m loc_of_shr_record round_nearest_even
       Zdigits2 shr_record_of_loc].
  rewrite Hd, fexp_normal by lia.
  replace (53 + (e + 1) - 53 - (e + 1))%Z with 0%Z by lia. cbn [shr shr_m].
  destruct (Z.leb_spec (e + 1) (emax - prec)) as [_|Hgt]; [done|]. unfold emax, prec in Hgt. lia.
Qed.

(** A positive integer below [2^32] as a binary64 value. *)
Lemma of_uint63_below_2_32 (n : int) (p : positive) :
  Uint63.to_Z n = Z.pos p -> (Z.pos p < 2 ^ 32)%Z ->
  exists (m : positive) (e : Z),
    Prim2SF (of_uint63 n) = S754_finite false m e
    /\ Z.pos (digits2_pos m) = 53%Z /\ (-52 <= e <= -21)%Z.
Proof.
  intros Hn Hp. rewrite FloatAxioms.of_uint63_spec, Hn. cbn [binary_normalize].
  unfold binary_round.
  pose proof (digits2_bound p 32 ltac:(lia) Hp) as Hd.
  set (d := Z.pos (digits2_pos p)) in *.
  assert (1 <= d)%Z as Hd1 by (unfold d; lia).
  rewrite Z.add_0_r, fexp_normal by lia. unfold shl_align.
  destruct (d - 53 - 0)%Z as [|q|q] eqn:Hq; [lia|lia|].
  exists (Pos.iter xO p q), (d - 53)%Z.
  assert (Z.pos (digits2_pos (Pos.iter xO p q)) = 53%Z) as Hm.
  { rewrite digits2_iter_xO. fold d. lia. }
  split; [|split; [done|lia]].
  apply binary_round_aux_exact; [done|lia].
Qed.

Lemma div_eucl_shift (m : positive) :
  Z.div_eucl (Z.shiftl (Z.pos m) 53) 4503599627370496 = (Z.pos m~0, 0%Z).
Proof.
  rewrite Z.shiftl_mul_pow2 by lia.
  pose proof (Z_div_mod (Z.pos m * 2 ^ 53) 4503599627370496 ltac:(lia)) as Hdm.
  destruct (Z.div_eucl (Z.pos m * 2 ^ 53) 4503599627370496) as [q r].
  destruct Hdm as [Heq Hr].
  assert (q = Z.pos m~0 /\ r = 0%Z) as [-> ->]; [|done].
  rewrite Pos2Z.inj_xO. change (2 ^ 53)%Z with 9007199254740992%Z in Heq. lia.
Qed.

(** The quotient by [2^32] keeps the mantissa and lowers the exponent. *)
Lemma div_2_32 (m : positive) (e : Z) :
  Z.pos (digits2_pos m) = 53%Z -> (-52 <= e <= -21)%Z ->
  SF64div (S754_finite false m e) (Prim2SF 4294967296) = S754_finite false m (e - 32).
Proof.
  intros Hd He. change (Prim2SF 4294967296) with (S754_finite false 4503599627370496 (-20)).
  unfold SF64div, SFdiv, SFdiv_core_binary. cbn [Zdigits2 xorb].
  rewrite Hd. change (Z.pos (digits2_pos 4503599627370496)) with 53%Z.
  rewrite fexp_normal by lia. rewrite Z.min_l by lia.
  replace (e - -20 - (53 + e - (53 + -20) - 53))%Z with 53%Z by lia.
  rewrite div_eucl_shift.
  change (new_location 4503599627370496 0) with loc_Exact.
  rewrite binary_round_aux_even by (done || lia). f_equal. lia.
Qed.

Lemma unit_interval (r : Z) :
  (0 <= r < 2 ^ 32)%Z ->
  Prim2SF (of_Z r / 4294967296) = S754_zero false
  \/ exists (m : positive) (e : Z),
       Prim2SF (of_Z r / 4294967296) = S754_finite false m e /\ (e <= -53)%Z.
Proof.
  intros Hr. unfold of_Z. destruct (Z.ltb_spec r 0) as [?|_]; [lia|].
  rewrite FloatAxioms.div_spec.
  assert (Uint63.to_Z (Uint63.of_Z r) = r) as Hn.
  { rewrite Uint63.of_Z_spec. apply Z.mod_small. change wB with (2 ^ 63)%Z. lia. }
  destruct r as [|p|p]; [left|right|lia].
  - reflexivity.
  - destruct (of_uint63_below_2_32 _ p Hn) as (m & e & -> & Hd & He); [lia|].
    exists m, (e - 32)%Z. split; [|lia]. by apply div_2_32.
Qed.

(** A binary64 value that is [+0] or positive with an exponent of at most
    [-53]: with its mantissa of at most 53 bits, a value below 1. *)
Definition in_unit_interval (f : spec_float) : Prop :=
  f = S754_zero false \/ exists (m : positive) (e : Z), f = S754_finite false m e /\ (e <= -53)%Z.

Lemma draw_in_unit_interval (seed : number) (k : nat) :
  in_unit_interval (Prim2SF (draw seed k)).
Proof.
  unfold draw, Mwc.next. cbv zeta. cbn [fst]. apply unit_interval.
  unfold Mwc.result, ToUint32. apply Z.mod_pos_bound. done.
Qed.

Lemma unit_interval_below (u level : float) :
  in_unit_interval (Prim2SF u) -> (1 <=? level)%float = true -> (u <? level)%float = true.
Proof.
  rewrite FloatAxioms.leb_spec, FloatAxioms.ltb_spec.
  change (Prim2SF 1) with (S754_finite false 4503599627370496 (-52)).
  unfold SFleb, SFltb, SFcompare.
  intros Hu. destruct (Prim2SF level) as [[|]|[|]| |[|] m' e']; try done.
  - by destruct Hu as [->|(m & e & -> & He)].
  - destruct (Z.compare_spec (-52) e') as [He'|He'|He']; [| |done].
    + intros _. destruct Hu as [->|(m & e & -> & He)]; [done|].
      destruct (Z.compare_spec e e') as [?|_|?]; [lia|done|lia].
    + intros _. destruct Hu as [->|(m & e & -> & He)]; [done|].
      destruct (Z.compare_spec e e') as [?|_|?]; [lia|done|lia].
Qed.

(** X27. Every value that the seeded generator returns lies in [[0, 1)]: from
    every seed, the [k]-th value is at least [0] and below [1] (and so is
    not [NaN]). *)
Theorem draws_in_unit_interval (seed : number) (k : nat) :
  (0 <=? draw seed k)%float = true /\ (draw seed k <? 1)%float = true.
Proof.
  pose proof (draw_in_unit_interval seed k) as Hu.
  rewrite FloatAxioms.leb_spec, FloatAxioms.ltb_spec.
  change (Prim2SF 0) with (S754_zero false).
  change (Prim2SF 1) with (S754_finite false 4503599627370496 (-52)).
  destruct Hu as [->|(m & e & -> & He)]; [done|]. unfold SFleb, SFltb, SFcompare.
  destruct (Z.compare_spec e (-52)) as [?|_|?]; [lia|done|lia].
Qed.

(** ** A dataset of flipped labels *)

Lemma one_is_not_zero : 1%float <> 0%float.
Proof.
  intros E. assert (Prim2SF 1 = Prim2SF 0) as E' by (by rewrite E). discriminate E'.
Qed.

Lemma filter_all {A : Type} (P : A -> Prop) `{forall x, Decision (P x)} (l : list A) :
  (forall x, x ∈ l -> P x) -> filter P l = l.
Proof.
  induction l as [|x l IH]; intros Hl; [done|].
  rewrite filter_cons_True by (apply Hl; by left). f_equal. apply IH.
  intros y Hy. apply Hl. by right.
Qed.

(** X28. With a noise level of at least [1] every label is flipped: every point
    of the training data is marked noisy and carries the opposite of its
    true label, whatever the seed, and the count of noisy points that the
    application shows is the number of samples. *)
Theorem trainingData_all_noise (h : Hook) :
  (1 <=? noiseLevel h)%float = true ->
  (forall d, d ∈ trainingData h -> isNoisy d = true /\ target d <> trueTarget d)
  /\ App.noisyCount h = numSamples h.
Proof.
  intros Hlevel.
  assert (forall d, d ∈ trainingData h -> isNoisy d = true /\ target d <> trueTarget d)
    as Hflipped.
  { intros d. unfold trainingData, generateNoisyData.
    pose proof (generate_loop_points (numSamples h) (noiseLevel h) (dataSeed h) 0) as Heq.
    replace (3 * 0) with 0 in Heq by lia. rewrite iter_0 in Heq. rewrite Heq.
    intros (i & -> & _)%list_elem_of_fmap.
    assert ((draw (dataSeed h) (3 * i + 2) <? noiseLevel h)%float = true) as Hu.
    { apply unit_interval_below; [apply draw_in_unit_interval|done]. }
    unfold labelled_point. cbn [isNoisy target trueTarget]. rewrite Hu. split; [done|].
    intros [= E]. destruct (xorb _ _); cbn in E;
      [symmetry in E|]; by apply one_is_not_zero. }
  split; [exact Hflipped|].
  unfold App.noisyCount. rewrite filter_all by (intros d Hd; by apply Hflipped).
  unfold trainingData, generateNoisyData.
  pose proof (generate_loop_points (numSamples h) (noiseLevel h) (dataSeed h) 0) as Heq.
  replace (3 * 0) with 0 in Heq by lia. rewrite iter_0 in Heq.
  by rewrite Heq, length_fmap, length_seq.
Qed.

Lemma trainingData_all_noise_witness :
  (forall d, d ∈ trainingData hook_all_noise -> isNoisy d = true /\ target d <> trueTarget d)
  /\ App.noisyCount hook_all_noise = 100.
Proof. apply (trainingData_all_noise hook_all_noise). reflexivity. Defined.

(** ** There and back in the history *)

Section RoundTrips.
Context `{MathLib}.

(** X29. In a state that the application reaches, one step forward and one
    step back return to the snapshot one started from: after [onNext] and
    then [onPrev] the current index is what it was, the engine exports the
    state of the snapshot that was current, and the history starts with
    the history that was there and is longer by exactly one snapshot when
    the current snapshot was the last one (then [onNext] trained), by
    none otherwise. One step back and one step forward, from a position
    other than the first, never train: they give what [goToStep] to the
    current index gives, with the history and the current index as they
    were. *)
Theorem navigation_round_trips (sizes : list nat) (h : Hook) (rnd1 rnd2 rnd3 : entropy)
    (st : TrainingState) :
  passes sizes 2 ->
  reachable (fun h => initialLayerSizes h = sizes) st ->
  (exists (mid back : TrainingState) (s : TrainingStep),
     App.onNext h rnd1 st = Normal mid
     /\ App.onPrev rnd2 mid = Normal back
     /\ steps st !! Z.to_nat (currentStep st) = Some s
     /\ currentStep back = currentStep st
     /\ getState (network back) = state s
     /\ take (length (steps st)) (steps back) = steps st
     /\ length (steps back)
        = length (steps st)
          + (if (currentStep st =? Z.of_nat (length (steps st)) - 1)%Z then 1 else 0))
  /\ ((1 <= currentStep st)%Z ->
      exists mid fin : TrainingState,
        App.onPrev rnd1 st = Normal mid
        /\ App.onNext h rnd2 mid = Normal fin
        /\ goToStep (currentStep st) rnd3 st = Normal fin
        /\ steps fin = steps st
        /\ currentStep fin = currentStep st).
Proof.
  intros Hpasses Hreach.
  pose proof (reachable_consistent sizes st Hpasses Hreach) as Hcons.
  destruct (consistent_current sizes st Hcons) as (s & Hcur & Hs & Hshaped & _).
  pose proof (lookup_lt_Some _ _ _ Hs) as Hlt.
  split.
  - unfold App.onNext, App.onPrev.
    destruct (Z.eqb_spec (currentStep st) (Z.of_nat (length (steps st)) - 1)) as [Hlast|Hmid].
    + destruct (trainStep_from sizes h rnd1 st s Hpasses Hcur Hs Hshaped)
        as (net1 & net3 & loss & cleanLoss & acc & _ & _ & _ & _ & _ & _ & ->).
      eexists _, _, s. split; [reflexivity|]. cbn [currentStep].
      rewrite (goToStep_in_range _ rnd2 _ s).
      * split; [reflexivity|]. split; [done|]. cbn [currentStep network steps].
        split; [lia|]. split; [apply getState_setState_fields|].
        split; [by rewrite take_app_length|]. rewrite length_app. simpl. lia.
      * lia.
      * cbn [steps]. replace (currentStep st + 1 - 1)%Z with (currentStep st) by lia.
        by rewrite lookup_app_l by lia.
    + destruct (lookup_lt_is_Some_2 (steps st) (Z.to_nat (currentStep st + 1)))
        as [s1 Hs1]; [lia|].
      rewrite (goToStep_in_range _ rnd1 st s1) by (lia || done).
      eexists _, _, s. split; [reflexivity|]. cbn [currentStep].
      rewrite (goToStep_in_range _ rnd2 _ s).
      * split; [reflexivity|]. split; [done|]. cbn [currentStep network steps].
        split; [lia|]. split; [apply getState_setState_fields|].
        split; [by rewrite take_ge by lia|]. lia.
      * lia.
      * cbn [steps]. by replace (currentStep st + 1 - 1)%Z with (currentStep st) by lia.
  - intros Hpos. unfold App.onPrev.
    destruct (lookup_lt_is_Some_2 (steps st) (Z.to_nat (currentStep st - 1)))
      as [s0 Hs0]; [lia|].
    rewrite (goToStep_in_range _ rnd1 st s0) by (lia || done).
    eexists _, _. split; [reflexivity|]. unfold App.onNext. cbn [currentStep steps].
    destruct (Z.eqb_spec (currentStep st - 1) (Z.of_nat (length (steps st)) - 1))
      as [?|_]; [lia|].
    replace (currentStep st - 1 + 1)%Z with (currentStep st) by lia.
    rewrite (goToStep_in_range _ rnd2 _ s) by (lia || done).
    rewrite (goToStep_in_range _ rnd3 st s) by (lia || done).
    cbn [network steps isPlaying selectedInputIdx]. rewrite !setState_new.
    split; [reflexivity|]. split; [reflexivity|]. done.
Qed.

End RoundTrips.

Lemma navigation_round_trips_witness :
  (1 <= currentStep second_state)%Z
  /\ (exists (mid back : TrainingState) (s : TrainingStep),
        @App.onNext ReferenceMath.lib default_hook (fun _ => 0.5%float) second_state
        = Normal mid
        /\ @App.onPrev ReferenceMath.lib (fun _ => 0.25%float) mid = Normal back
        /\ steps second_state !! Z.to_nat (currentStep second_state) = Some s
        /\ currentStep back = currentStep second_state
        /\ getState (network back) = state s
        /\ take (length (steps second_state)) (steps back) = steps second_state
        /\ length (steps back)
           = length (steps second_state)
             + (if (currentStep second_state
                    =? Z.of_nat (length (steps second_state)) - 1)%Z then 1 else 0))
  /\ (exists mid fin : TrainingState,
        @App.onPrev ReferenceMath.lib (fun _ => 0.5%float) second_state = Normal mid
        /\ @App.onNext ReferenceMath.lib default_hook (fun _ => 0.25%float) mid = Normal fin
        /\ @goToStep ReferenceMath.lib (currentStep second_state) (fun _ => 0.75%float)
             second_state = Normal fin
        /\ steps fin = steps second_state
        /\ currentStep fin = currentStep second_state).
Proof.
  assert (1 <= currentStep second_state)%Z as Hpos.
  { destruct second_state_trained as (_ & -> & _). lia. }
  split; [exact Hpos|].
  destruct (@navigation_round_trips ReferenceMath.lib [2; 4; 1] default_hook
              (fun _ => 0.5%float) (fun _ => 0.25%float) (fun _ => 0.75%float) second_state)
    as [Hforth Hback].
  - apply passes_default. lia.
  - apply second_state_reachable. reflexivity.
  - split; [exact Hforth|exact (Hback Hpos)].
Defined.

(** ** A target of the wrong length *)

Lemma for_each_preserves_in {S I : Type} (body : I -> S -> Completion unit * S)
    (P : S -> Prop) (items : list I) (s : S) :
  (forall i s, i ∈ items -> P s -> P (body i s).2) ->
  P s -> P (for_each body items s).2.
Proof.
  revert s. induction items as [|i items IH]; intros s Hbody Hs; [done|].
  cbn [for_each]. pose proof (Hbody i s (list_elem_of_here _ _) Hs) as Hi.
  destruct (body i s) as [[[]|e] s']; cbn [snd] in *; [|done].
  apply IH; [|done]. intros j s'' Hj. apply Hbody. by right.
Qed.

Lemma for_each_app {S I : Type} (body : I -> S -> Completion unit * S)
    (l1 l2 : list I) (s : S) :
  for_each body (l1 ++ l2) s
  = match for_each body l1 s with
    | (Normal _, s') => for_each body l2 s'
    | (Throw e, s') => (Throw e, s')
    end.
Proof.
  revert s. induction l1 as [|i l1 IH]; intros s; [done|].
  cbn [for_each app]. destruct (body i s) as [[[]|e] s']; [apply IH|done].
Qed.

Lemma js_set_lookup_eq {A : Type} (i : nat) (v : A) (a : list (option A)) :
  js_set i v a !! i = Some (Some v).
Proof.
  unfold js_set. destruct (Nat.ltb_spec i (length a)) as [Hi|Hi].
  - by rewrite list_lookup_insert_eq.
  - rewrite lookup_app_r by lia. rewrite lookup_app_r by (rewrite length_replicate; lia).
    rewrite length_replicate. by replace (i - length a - (i - length a)) with 0 by lia.
Qed.

Lemma js_set_lookup_ne {A : Type} (i j : nat) (v : A) (a : list (option A)) :
  j <> i -> j < length a -> js_set i v a !! j = a !! j.
Proof.
  intros Hne Hj. unfold js_set. destruct (Nat.ltb_spec i (length a)) as [Hi|Hi].
  - by rewrite list_lookup_insert_ne.
  - by rewrite lookup_app_l.
Qed.

Lemma js_set_length {A : Type} (i : nat) (v : A) (a : list (option A)) :
  length a <= length (js_set i v a).
Proof.
  unfold js_set. destruct (i <? length a).
  - by rewrite length_insert.
  - rewrite length_app. lia.
Qed.

Lemma sub_nan_r (x : float) : (x - nan)%float = nan.
Proof.
  apply is_nan_spec. rewrite FloatAxioms.sub_spec. change (Prim2SF nan) with S754_nan.
  unfold SF64sub, SFsub. by destruct (Prim2SF x) as [[|]|[|]| |[|] m e].
Qed.

Lemma map_with_lookup_past (f : number -> number -> number) (l other : vector)
    (k : nat) (a : number) :
  length other <= k -> l !! k = Some a ->
  map_with f l other !! k = Some (f a undefined_num).
Proof.
  revert other k. induction l as [|a0 l IH]; intros other k Hk Ha; [done|].
  destruct k as [|k].
  - destruct other; [|simpl in Hk; lia]. cbn in *. by injection Ha as ->.
  - cbn [map_with]. change ((?x :: ?t) !! S k) with (t !! k).
    apply IH; [|done]. destruct other; simpl in *; lia.
Qed.

Section ShortTarget.
Context `{MathLib}.

(** An iteration of the loop of [backward] leaves the bias gradients of
    the other connections. *)
Lemma backward_layer_other (i n : nat) (gb : option vector) (st : vector * Network.t) :
  i <> n ->
  (n < length (biasGrads st.2) /\ biasGrads st.2 !! n = Some gb) ->
  (n < length (biasGrads (backward_layer i st).2.2)
   /\ biasGrads (backward_layer i st).2.2 !! n = Some gb).
Proof.
  intros Hne [Hn Hgb]. destruct st as [delta net]. unfold backward_layer. cbn [snd] in *.
  destruct (activations net !! i) as [a|]; [|done].
  destruct (outer_into a delta _) as [[[]|e] g']; cbn [snd]; [|done].
  assert (n < length (js_set i (spread delta) (biasGrads net))
          /\ js_set i (spread delta) (biasGrads net) !! n = Some gb) as Hset.
  { split; [pose proof (js_set_length i (spread delta) (biasGrads net)); lia|].
    by rewrite js_set_lookup_ne. }
  destruct (0 <? i); [|done]. by destruct (back_delta _ _ _ _).
Qed.

(** The bias gradient of the last connection after [backward]: the error
    signal of the output layer, which has the length of the target. *)
Lemma backward_last_bias_gradient (net net2 : Network.t) (x target : vector)
    (strength : number) :
  1 <= length (weights net) ->
  backward net x target strength = (Normal tt, net2) ->
  exists delta : vector,
    biasGrads net2 !! (length (weights net) - 1) = Some (Some delta)
    /\ length delta = length target.
Proof.
  intros HL. unfold backward.
  set (delta0 := output_delta _ target strength).
  destruct (length (weights net)) as [|n] eqn:Hn; [lia|].
  replace (S n - 1) with n by lia. rewrite rev_seq_S. cbn [for_each].
  set (net0 := set_biasGrads _ _).
  destruct (backward_layer n (delta0, net0)) as [[[]|e] st1] eqn:E1.
  - assert (n < length (biasGrads st1.2) /\ biasGrads st1.2 !! n = Some (Some delta0))
      as Hfirst.
    { unfold backward_layer in E1.
      destruct (activations net0 !! n) as [a|]; [|done].
      destruct (outer_into a delta0 _) as [[[]|e] g']; [|done].
      assert (forall d : vector, st1 = (d, set_biasGrads
                (js_set n (spread delta0) (biasGrads (set_weightGrads
                   (<[n:=g']> (weightGrads net0)) net0)))
                (set_weightGrads (<[n:=g']> (weightGrads net0)) net0)) ->
              n < length (biasGrads st1.2)
              /\ biasGrads st1.2 !! n = Some (Some delta0)) as Hst.
      { intros d ->. cbn [snd biasGrads set_biasGrads]. split.
        - apply lookup_lt_is_Some. rewrite js_set_lookup_eq. by eexists.
        - by rewrite js_set_lookup_eq, spread_id. }
      destruct (0 <? n).
      - destruct (back_delta _ _ _ _) as [d|e]; [|done]. injection E1 as <-. by apply (Hst d).
      - injection E1 as <-. by apply (Hst delta0). }
    pose proof (for_each_preserves_in backward_layer
      (fun st => n < length (biasGrads st.2) /\ biasGrads st.2 !! n = Some (Some delta0))
      (rev (seq 0 n)) st1) as Hrest.
    destruct (for_each backward_layer (rev (seq 0 n)) st1) as [c [d net']].
    intros [= -> ->]. exists delta0. split.
    + apply Hrest; [|done]. intros i st Hi. apply backward_layer_other.
      apply list_elem_of_In, in_rev, list_elem_of_In, elem_of_seq in Hi. lia.
    + unfold delta0, output_delta. by rewrite !map_with_length.
  - by destruct st1.
Qed.

(** An iteration of the loop of [step] leaves the biases of the other
    connections. *)
Lemma step_layer_other (learningRate : number) (i n : nat) (b : vector)
    (net0 net : Network.t) :
  i <> n ->
  (biases net !! n = Some b /\ biasGrads net = biasGrads net0) ->
  (biases (step_layer learningRate i net).2 !! n = Some b
   /\ biasGrads (step_layer learningRate i net).2 = biasGrads net0).
Proof.
  intros Hne [Hb Hgb]. unfold step_layer.
  destruct (weights net !! i) as [w|]; [|done].
  destruct (step_matrix learningRate w _) as [[[]|e] w']; cbn [snd]; [|done].
  cbn [biases set_weights biasGrads].
  destruct (biases net !! i) as [[|b0 bi]|]; [done| |done].
  destruct (biasGrads net !! i) as [[gb|]|]; [|done|done].
  cbn. by rewrite list_lookup_insert_ne.
Qed.

(** The biases of the last connection after [step]: each one with the
    gradient entry at its index, [undefined] where the gradient is too
    short. *)
Lemma step_last_biases (learningRate : number) (net net3 : Network.t) (b gb : vector) :
  1 <= length (weights net) ->
  biases net !! (length (weights net) - 1) = Some b ->
  biasGrads net !! (length (weights net) - 1) = Some (Some gb) ->
  Network.step net learningRate = (Normal tt, net3) ->
  biases net3 !! (length (weights net) - 1)
  = Some (map_with (fun bj gj => bj - learningRate * gj)%float b gb).
Proof.
  intros HL Hb Hgb. unfold Network.step.
  destruct (length (weights net)) as [|n] eqn:Hn; [lia|].
  replace (S n - 1) with n in * by lia. rewrite seq_S, for_each_app. cbn [Nat.add].
  pose proof (for_each_preserves_in (step_layer learningRate)
    (fun net1 => biases net1 !! n = Some b /\ biasGrads net1 = biasGrads net)
    (seq 0 n) net) as Hfirst.
  destruct (for_each (step_layer learningRate) (seq 0 n) net) as [[[]|e] net1]; [|done].
  destruct Hfirst as [Hb1 Hgb1]; [|done|].
  { intros i net0 Hi. apply step_layer_other. apply elem_of_seq in Hi. lia. }
  cbn [snd for_each] in *. unfold step_layer.
  destruct (weights net1 !! n) as [w|]; [|done].
  destruct (step_matrix learningRate w _) as [[[]|e] w']; [|done].
  cbn [biases set_weights biasGrads]. rewrite Hb1, Hgb1, Hgb.
  destruct b as [|b0 b].
  - intros [= <-]. cbn. done.
  - intros [= <-]. cbn [biases set_biases]. rewrite list_lookup_insert_eq; [done|].
    by apply lookup_lt_Some in Hb1.
Qed.

(** X30. Neither [backward] nor [step] compares the length of the target with
    the width of the output layer. On an engine with shaped parameters, at
    least one connection and no empty layer before the output, an example
    with any target is trained normally; and when the target is shorter
    than the output layer, the bias gradient of the last connection is as
    short as the target, so that [step] reads [undefined] past its end and
    turns every bias of the output layer at an index that the target does
    not reach into [NaN]. *)
Theorem target_length_is_not_checked (h : Hook) (d : DataPoint) (net : Network.t) :
  shaped (layerSizes net) (weights net) (biases net) ->
  2 <= length (layerSizes net) ->
  passes (layerSizes net) (length (input d)) ->
  exists net3 : Network.t,
    train_example h d net = (Normal tt, net3)
    /\ forall k, length (target d) <= k < width (layerSizes net) (length (layerSizes net) - 1) ->
         exists b : vector,
           biases net3 !! (length (layerSizes net) - 2) = Some b
           /\ b !! k = Some nan.
Proof.
  intros Hshaped Hsizes Hpasses. unfold train_example.
  destruct (forward_normal (layerSizes net) net (input d) Hshaped Hpasses)
    as (out & net1 & -> & Hfw).
  destruct (backward_normal (layerSizes net) net net1 (input d) out (input d) (target d)
              (confidencePenalty h) Hshaped Hpasses Hfw)
    as (net2 & Hback & (_ & Hw & Hb & _) & Hready).
  rewrite Hback.
  pose proof Hfw as [_ Hw1 Hb1 _ _ _ _ _ _ _ _ _]. pose proof Hshaped as [Hlw Hlb _ Hv].
  destruct (step_normal (layerSizes net) net2 (learningRate h)) as (net3 & Hstep & _);
    [by rewrite Hw, Hb, Hw1, Hb1|done|].
  exists net3. split; [done|]. intros k Hk.
  destruct (backward_last_bias_gradient net1 net2 (input d) (target d) (confidencePenalty h))
    as (delta & Hdelta & Hlen); [rewrite Hw1; lia|done|].
  rewrite Hw1, Hlw in Hdelta.
  destruct (lookup_lt_is_Some_2 (biases net) (length (layerSizes net) - 1 - 1)) as [b Eb];
    [lia|].
  pose proof (Hv _ b Eb) as Hblen.
  replace (S (length (layerSizes net) - 1 - 1)) with (length (layerSizes net) - 1)
    in Hblen by lia.
  pose proof (step_last_biases (learningRate h) net2 net3 b delta) as Hlast.
  rewrite Hw, Hw1, Hlw, Hb, Hb1 in Hlast. specialize (Hlast ltac:(lia) Eb Hdelta Hstep).
  replace (length (layerSizes net) - 2) with (length (layerSizes net) - 1 - 1) by lia.
  eexists. split; [exact Hlast|].
  destruct (lookup_lt_is_Some_2 b k) as [bk Ebk]; [lia|].
  rewrite (map_with_lookup_past _ b delta k bk) by (lia || done).
  unfold undefined_num. by rewrite mul_nan_r, sub_nan_r.
Qed.

End ShortTarget.

Lemma target_length_is_not_checked_witness :
  exists net3 : Network.t,
    @train_example ReferenceMath.lib default_hook
      {| input := [1; 0]%float; target := []; trueTarget := []; isNoisy := false |}
      xor_network = (Normal tt, net3)
    /\ forall k, 0 <= k < 1 ->
         exists b : vector, biases net3 !! 1 = Some b /\ b !! k = Some nan.
Proof.
  apply (@target_length_is_not_checked ReferenceMath.lib default_hook
           {| input := [1; 0]%float; target := []; trueTarget := []; isNoisy := false |}
           xor_network).
  - apply (@new_shaped ReferenceMath.lib).
  - vm_compute. lia.
  - apply (passes_default 2). lia.
Defined.
